(** * power-control.py: the time-proportioning output engine, its standby
    state machine and the command gateway, as a shallow embedding.

    Conventions of the embedding.
    - A Python float is an IEEE 754 binary64 number: the rational it
      denotes ([Fin q]) or one of the three non-finite floats.  Every
      arithmetic operation, every conversion from [int] and from text,
      and [round] give the float nearest to the exact result, ties to
      even, and an infinity from [2 ^ 1024] on ([rnd]).  A Python [int]
      used as a number is the rational it denotes, exactly.  The sign of
      zero is not kept.
    - A [str] is kept as the bytes of its UTF-8 encoding.
    - A Python exception is a value of [exn]; a method is a function from
      the world to an outcome and the world it leaves behind, because the
      attribute and dictionary updates made before a [raise] persist.
    - A live reference to a bus record is the topic name it was obtained
      for: all readers and writers go through the one store held by the
      poll looper.
    - The display is not part of the world: every [display.*] call of the
      source is dropped. *)

From Stdlib Require Import ZArith QArith Qpower Qround Qabs Lia Lqa String Ascii
  List.
From stdpp Require Import gmap strings.
Import ListNotations.

Set Warnings "-register-all".
Local Open Scope Z_scope.

(** ** Python values *)

Inductive pyfloat :=
| Fin (q : Q)
| PInf
| NInf
| NaN.

Inductive pyval :=
| VNone
| VBool (b : bool)
| VInt (z : Z)
| VFloat (f : pyfloat)
| VStr (s : string)
| VList (l : list pyval)
| VDict (d : gmap string pyval).

Inductive exn :=
| OSError
| ValueError
| TypeError
| KeyError
| NameError
| ZeroDivisionError
| OverflowError
| UnicodeError
| AttributeError.

Inductive result (A : Type) :=
| Ok (a : A)
| Raise (e : exn).
Arguments Ok {A} a.
Arguments Raise {A} e.

(** ** Float comparison and arithmetic *)

Definition Qlt_bool (x y : Q) : bool := negb (Qle_bool y x).

(** [a > b] on floats; every comparison with NaN is false. *)
Definition f_gt (a b : pyfloat) : bool :=
  match a, b with
  | NaN, _ | _, NaN => false
  | Fin x, Fin y => Qlt_bool y x
  | PInf, PInf => false
  | PInf, _ => true
  | Fin _, NInf => true
  | _, _ => false
  end.

Definition f_eq (a b : pyfloat) : bool :=
  match a, b with
  | Fin x, Fin y => Qeq_bool x y
  | PInf, PInf | NInf, NInf => true
  | _, _ => false
  end.

Definition f_ge (a b : pyfloat) : bool := f_gt a b || f_eq a b.
Definition f_lt (a b : pyfloat) : bool := f_gt b a.
Definition f_ne (a b : pyfloat) : bool := negb (f_eq a b).

Definition inf_signed (positive : bool) : pyfloat :=
  if positive then PInf else NInf.

(** Round half to even, to an integer. *)
Definition round_half_even (x : Q) : Z :=
  let f := Qfloor x in
  let r := (x - inject_Z f)%Q in
  if Qlt_bool r (1 # 2) then f
  else if Qlt_bool (1 # 2) r then f + 1
  else if Z.even f then f else f + 1.

(** The exponent of the leading bit of a positive rational. *)
Definition ilog2 (x : Q) : Z :=
  let k := Z.log2 (Qnum x) - Z.log2 (Zpos (Qden x)) in
  if Qle_bool (2 ^ k) x then k else k - 1.

(** The exponent of the unit in the last place of the binary64 format at
    [x]: 53 significant bits, and no exponent below that of the
    subnormal numbers. *)
Definition ulp_exponent (x : Q) : Z :=
  if Qeq_bool x 0 then -1074 else Z.max (ilog2 (Qabs x) - 52) (-1074).

(** Rounding to the nearest multiple of the unit in the last place, ties
    to even. *)
Definition rndq (x : Q) : Q :=
  let e := ulp_exponent x in
  (inject_Z (round_half_even (x / 2 ^ e)) * 2 ^ e)%Q.

(** The binary64 float nearest to [x], in lowest terms; an infinity from
    [2 ^ 1024] on. *)
Definition rnd (x : Q) : pyfloat :=
  let y := Qred (rndq x) in
  if Qle_bool (2 ^ 1024) (Qabs y) then inf_signed (Qlt_bool 0 y) else Fin y.

(** The rationals of the binary64 format, the exponent range apart: a
    mantissa of at most 53 bits at an exponent no lower than that of the
    subnormal numbers. *)
Definition is_float (f : Q) : Prop :=
  exists m e : Z, -1074 <= e /\ Z.abs m <= 2 ^ 53 /\
                  (f == inject_Z m * 2 ^ e)%Q.



(** The float literal [0.01]. *)
Definition c001 : Q := 5764607523034235 # 576460752303423488.

Definition f_sub (a b : pyfloat) : pyfloat :=
  match a, b with
  | NaN, _ | _, NaN => NaN
  | Fin x, Fin y => rnd (x - y)
  | PInf, PInf | NInf, NInf => NaN
  | PInf, _ | _, NInf => PInf
  | NInf, _ | _, PInf => NInf
  end.

Definition f_mul (a b : pyfloat) : pyfloat :=
  match a, b with
  | NaN, _ | _, NaN => NaN
  | Fin x, Fin y => rnd (x * y)
  | PInf, PInf | NInf, NInf => PInf
  | PInf, NInf | NInf, PInf => NInf
  | PInf, Fin y | Fin y, PInf =>
      if Qeq_bool y 0 then NaN else inf_signed (Qlt_bool 0 y)
  | NInf, Fin y | Fin y, NInf =>
      if Qeq_bool y 0 then NaN else inf_signed (Qlt_bool y 0)
  end.

Definition f_is_zero (a : pyfloat) : bool :=
  match a with Fin x => Qeq_bool x 0 | _ => false end.

(** The quotient [a / b] for a divisor that is not zero. *)
Definition f_quot (a b : pyfloat) : pyfloat :=
  match a, b with
  | NaN, _ | _, NaN => NaN
  | Fin x, Fin y => rnd (x / y)
  | Fin _, _ => Fin 0
  | PInf, Fin y => inf_signed (Qlt_bool 0 y)
  | NInf, Fin y => inf_signed (Qlt_bool y 0)
  | _, _ => NaN
  end.

(** Truncation toward zero. *)
Definition Qtrunc (x : Q) : Z := Z.quot (Qnum x) (Zpos (Qden x)).

(** [int (x)]. *)
Definition py_int (a : pyfloat) : result Z :=
  match a with
  | Fin x => Ok (Qtrunc x)
  | PInf | NInf => Raise OverflowError
  | NaN => Raise ValueError
  end.

(** An [int] converted to [float], as [float (n)] and the arithmetic
    operators do: the nearest float, or [OverflowError] when that is
    out of range. *)
Definition int_to_float (z : Z) : result pyfloat :=
  match rnd (inject_Z z) with
  | Fin y => Ok (Fin y)
  | _ => Raise OverflowError
  end.

(** [round (x, 1)]: the exact value is rounded to a number of tenths,
    ties to even, and the float nearest to that is returned. *)
Definition py_round1 (a : pyfloat) : pyfloat :=
  match a with
  | Fin x => rnd (inject_Z (round_half_even (x * 10)) / 10)
  | _ => a
  end.

(** [min (a, b)] and [max (a, b)] return the first argument unless the
    second is strictly smaller (larger). *)
Definition py_min (a b : pyfloat) : pyfloat := if f_lt b a then b else a.
Definition py_max (a b : pyfloat) : pyfloat := if f_gt b a then b else a.

(** An [int] as an operand of a comparison with a float: Python
    compares the two numbers exactly. *)
Definition float_of_Z (z : Z) : pyfloat := Fin (inject_Z z).

(** ** The poll looper: clock and shared state bus *)

(** A bus record: the merged fields of a topic and the time of its last
    write.  [last_update_ms] is kept apart from the other fields because
    the bus, not the writer, decides it. *)
Record bus_record := {
  fields : gmap string pyval;
  stamp : Z
}.

Record PollLooper := {
  current_time_ms : Z;
  messages : gmap string bus_record;
  shutdown_requested : bool
}.

(** Modelled from the spec: the monotonic timestamps of the scheduler
    wrap around; the period is that of the millisecond counter of
    MicroPython's [utime], which is not part of this repository. *)
Definition TICKS_PERIOD : Z := 2 ^ 30.

(** Modelled from the spec: the wrapping difference of two timestamps,
    which is [utime.ticks_diff]; it lies in
    [-TICKS_PERIOD/2, TICKS_PERIOD/2). *)
Definition ticks_diff (a b : Z) : Z :=
  (a - b + TICKS_PERIOD / 2) mod TICKS_PERIOD - TICKS_PERIOD / 2.

(** Modelled from the spec: a timestamp moved by an offset, in
    wrapping arithmetic, which is [utime.ticks_add]. *)
Definition ticks_add (a d : Z) : Z := (a + d) mod TICKS_PERIOD.

(** Modelled from the spec: [PollLooper.message_set], the bus [write]:
    merge the partial record into the topic, stamp it with the current
    time, and hand back the live reference, which is the topic itself. *)
Definition message_set_looper (topic : string) (partial : gmap string pyval)
    (p : PollLooper) : PollLooper :=
  let old := match messages p !! topic with
             | Some r => fields r
             | None => ∅
             end in
  {| current_time_ms := current_time_ms p;
     messages := <[topic := {| fields := partial ∪ old;
                               stamp := current_time_ms p |}]> (messages p);
     shutdown_requested := shutdown_requested p |}.

(** Modelled from the spec: the scheduler moves its clock between two
    cycles; no component does. *)
Definition tick_looper (dt : Z) (p : PollLooper) : PollLooper :=
  {| current_time_ms := ticks_add (current_time_ms p) dt;
     messages := messages p;
     shutdown_requested := shutdown_requested p |}.

(** ** Component state *)

Record PowerControl := {
  power_level : pyfloat;
  minimum_pulse_ms : Z;
  standby : bool;
  standby_timeout : Z;
  standby_power_level : pyfloat;
  last_update_ms : Z;
  power_settings : string;
  on_ms : Z;
  off_ms : Z;
  change_ms : Z;
  power_on : bool;
  power_control_pin : bool
}.

(** What the two library calls [message.decode ()] and [json.loads] make
    of a received datagram. *)
Inductive datagram :=
| BadEncoding
| BadJson
| Request (v : pyval).

(** What [qs_parse] makes of the request read from an accepted
    connection: [None] for a request without a query string, otherwise the
    dictionary of its parameters with their count. *)
Record connection := {
  query_params : option (gmap string pyval)
}.

Record GetCommand := {
  poll_udp : bool;
  gc_power_settings : string
}.

(** The object built by the external [PID.PID]. *)
Record PID_obj := {
  SetPoint : pyval;
  output : pyfloat
}.

Record PIDControl := {
  pid_last_update_ms : Z;
  pid : option PID_obj;
  pid_settings : string
}.

(** The poll looper and the plug-ins.  [divisors] is bookkeeping of the
    model and no variable of the program: the divisor of every float
    division executed so far, most recent first. *)
Record world := {
  looper : PollLooper;
  powc : PowerControl;
  getc : GetCommand;
  pidc : PIDControl;
  divisors : list pyfloat
}.

(** ** The monad of methods: state that survives an exception *)

Definition M (A : Type) : Type := world -> result A * world.

Definition ret {A} (a : A) : M A := fun w => (Ok a, w).
Definition raise {A} (e : exn) : M A := fun w => (Raise e, w).
Definition bind {A B} (m : M A) (k : A -> M B) : M B :=
  fun w => match m w with
           | (Ok a, w') => k a w'
           | (Raise e, w') => (Raise e, w')
           end.
Definition lift {A} (r : result A) : M A := fun w => (r, w).
Definition gets {A} (f : world -> A) : M A := fun w => (Ok (f w), w).
Definition modify (f : world -> world) : M unit := fun w => (Ok tt, f w).

Declare Scope py_scope.
Delimit Scope py_scope with py.
Notation "x <- m ;; k" := (bind m (fun x => k))
  (at level 100, m at next level, right associativity) : py_scope.
Notation "m ;; k" := (bind m (fun _ => k))
  (at level 100, right associativity) : py_scope.
Local Open Scope py_scope.

(** [try: body except E: handler]. *)
Definition try_except {A} (body : M A) (catches : exn -> bool)
    (handler : M A) : M A :=
  fun w => match body w with
           | (Raise e, w') => if catches e then handler w' else (Raise e, w')
           | r => r
           end.

Definition with_looper (f : PollLooper -> PollLooper) (w : world) : world :=
  {| looper := f (looper w); powc := powc w; getc := getc w;
     pidc := pidc w; divisors := divisors w |}.
Definition with_powc (f : PowerControl -> PowerControl) (w : world) : world :=
  {| looper := looper w; powc := f (powc w); getc := getc w;
     pidc := pidc w; divisors := divisors w |}.
Definition with_getc (f : GetCommand -> GetCommand) (w : world) : world :=
  {| looper := looper w; powc := powc w; getc := f (getc w);
     pidc := pidc w; divisors := divisors w |}.
Definition with_pidc (f : PIDControl -> PIDControl) (w : world) : world :=
  {| looper := looper w; powc := powc w; getc := getc w;
     pidc := f (pidc w); divisors := divisors w |}.

(** [a / b] for an [int] [a] and a float [b]: the divisor is recorded
    in [divisors] once it is evaluated; the operator converts [a] to a
    float, then checks the divisor. *)
Definition truediv (a : Z) (b : pyfloat) : M pyfloat :=
  modify (fun w => {| looper := looper w; powc := powc w; getc := getc w;
                      pidc := pidc w; divisors := b :: divisors w |}) ;;
  m <- lift (int_to_float a) ;;
  if f_is_zero b then raise ZeroDivisionError else ret (f_quot m b).

(** *** Poll looper methods *)

Definition get_current_time_ms : M Z := gets (fun w => current_time_ms (looper w)).

Definition message_set (topic : string) (partial : gmap string pyval) : M string :=
  modify (with_looper (message_set_looper topic partial)) ;;
  ret topic.

(** Modelled from the spec: [PollLooper.active_next_ms], the scheduler's
    [schedule_after]. *)
Definition active_next_ms (offset : Z) : M Z :=
  now <- get_current_time_ms ;;
  ret (ticks_add now offset).

(** Modelled from the spec: [PollLooper.active_now], the scheduler's
    [due]: the current time has reached the deadline. *)
Definition active_now (deadline : Z) : M bool :=
  now <- get_current_time_ms ;;
  ret (0 <=? ticks_diff now deadline).

(** Modelled from the spec: [PollLooper.seconds_to_ms]. *)
Definition seconds_to_ms (seconds : Z) : Z := seconds * 1000.

(** Modelled from the spec: [PollLooper.shutdown], the scheduler's
    [request_shutdown]. *)
Definition poller_shutdown : M unit :=
  modify (with_looper (fun p =>
    {| current_time_ms := current_time_ms p; messages := messages p;
       shutdown_requested := true |})).

(** Reading through a live reference: [ref [key]]. *)
Definition ref_stamp (topic : string) : M Z :=
  w <- gets (fun w => w) ;;
  match messages (looper w) !! topic with
  | Some r => ret (stamp r)
  | None => raise KeyError
  end.

Definition ref_get (topic key : string) : M pyval :=
  w <- gets (fun w => w) ;;
  match messages (looper w) !! topic with
  | Some r =>
      match fields r !! key with
      | Some v => ret v
      | None => raise KeyError
      end
  | None => raise KeyError
  end.

(** *** Attribute assignment on the engine: [self.attr = v] *)

Definition upd_power_level (v : pyfloat) (c : PowerControl) : PowerControl :=
  {| power_level := v;
     minimum_pulse_ms := minimum_pulse_ms c;
     standby := standby c;
     standby_timeout := standby_timeout c;
     standby_power_level := standby_power_level c;
     last_update_ms := last_update_ms c;
     power_settings := power_settings c;
     on_ms := on_ms c;
     off_ms := off_ms c;
     change_ms := change_ms c;
     power_on := power_on c;
     power_control_pin := power_control_pin c |}.

Definition upd_standby (v : bool) (c : PowerControl) : PowerControl :=
  {| power_level := power_level c;
     minimum_pulse_ms := minimum_pulse_ms c;
     standby := v;
     standby_timeout := standby_timeout c;
     standby_power_level := standby_power_level c;
     last_update_ms := last_update_ms c;
     power_settings := power_settings c;
     on_ms := on_ms c;
     off_ms := off_ms c;
     change_ms := change_ms c;
     power_on := power_on c;
     power_control_pin := power_control_pin c |}.

Definition upd_last_update_ms (v : Z) (c : PowerControl) : PowerControl :=
  {| power_level := power_level c;
     minimum_pulse_ms := minimum_pulse_ms c;
     standby := standby c;
     standby_timeout := standby_timeout c;
     standby_power_level := standby_power_level c;
     last_update_ms := v;
     power_settings := power_settings c;
     on_ms := on_ms c;
     off_ms := off_ms c;
     change_ms := change_ms c;
     power_on := power_on c;
     power_control_pin := power_control_pin c |}.

Definition upd_on_ms (v : Z) (c : PowerControl) : PowerControl :=
  {| power_level := power_level c;
     minimum_pulse_ms := minimum_pulse_ms c;
     standby := standby c;
     standby_timeout := standby_timeout c;
     standby_power_level := standby_power_level c;
     last_update_ms := last_update_ms c;
     power_settings := power_settings c;
     on_ms := v;
     off_ms := off_ms c;
     change_ms := change_ms c;
     power_on := power_on c;
     power_control_pin := power_control_pin c |}.

Definition upd_off_ms (v : Z) (c : PowerControl) : PowerControl :=
  {| power_level := power_level c;
     minimum_pulse_ms := minimum_pulse_ms c;
     standby := standby c;
     standby_timeout := standby_timeout c;
     standby_power_level := standby_power_level c;
     last_update_ms := last_update_ms c;
     power_settings := power_settings c;
     on_ms := on_ms c;
     off_ms := v;
     change_ms := change_ms c;
     power_on := power_on c;
     power_control_pin := power_control_pin c |}.

Definition upd_change_ms (v : Z) (c : PowerControl) : PowerControl :=
  {| power_level := power_level c;
     minimum_pulse_ms := minimum_pulse_ms c;
     standby := standby c;
     standby_timeout := standby_timeout c;
     standby_power_level := standby_power_level c;
     last_update_ms := last_update_ms c;
     power_settings := power_settings c;
     on_ms := on_ms c;
     off_ms := off_ms c;
     change_ms := v;
     power_on := power_on c;
     power_control_pin := power_control_pin c |}.

Definition upd_power_on (v : bool) (c : PowerControl) : PowerControl :=
  {| power_level := power_level c;
     minimum_pulse_ms := minimum_pulse_ms c;
     standby := standby c;
     standby_timeout := standby_timeout c;
     standby_power_level := standby_power_level c;
     last_update_ms := last_update_ms c;
     power_settings := power_settings c;
     on_ms := on_ms c;
     off_ms := off_ms c;
     change_ms := change_ms c;
     power_on := v;
     power_control_pin := power_control_pin c |}.

Definition upd_power_control_pin (v : bool) (c : PowerControl) : PowerControl :=
  {| power_level := power_level c;
     minimum_pulse_ms := minimum_pulse_ms c;
     standby := standby c;
     standby_timeout := standby_timeout c;
     standby_power_level := standby_power_level c;
     last_update_ms := last_update_ms c;
     power_settings := power_settings c;
     on_ms := on_ms c;
     off_ms := off_ms c;
     change_ms := change_ms c;
     power_on := power_on c;
     power_control_pin := v |}.
Definition self_powc : M PowerControl := gets powc.
Definition assign (f : PowerControl -> PowerControl) : M unit :=
  modify (with_powc f).

(** ** PowerControl *)

Definition set_power_on : M unit :=
  assign (upd_power_control_pin true) ;;
  assign (upd_power_on true).

Definition set_power_off : M unit :=
  assign (upd_power_control_pin false) ;;
  assign (upd_power_on false).

(** Only [int (self.power_level)] of the display call can fail. *)
Definition display_power_level : M unit :=
  self <- self_powc ;;
  _ <- lift (py_int (power_level self)) ;;
  ret tt.

Definition new_power_level (level : pyfloat) : M unit :=
  self <- self_powc ;;
  let power_increase := f_gt level (power_level self) in
  assign (upd_power_level level) ;;
  self <- self_powc ;;
  (if f_gt level (Fin 99) then
     assign (upd_on_ms 999999) ;;
     assign (upd_off_ms 0)
   else if f_ge level (Fin 50) then
     x <- truediv (minimum_pulse_ms self)
            (f_mul (f_sub (Fin 100) (power_level self)) (Fin c001)) ;;
     n <- lift (py_int x) ;;
     assign (upd_on_ms (n - minimum_pulse_ms self)) ;;
     assign (upd_off_ms (minimum_pulse_ms self))
   else if f_ge level (Fin 1) then
     assign (upd_on_ms (minimum_pulse_ms self)) ;;
     x <- truediv (minimum_pulse_ms self)
            (f_mul (power_level self) (Fin c001)) ;;
     n <- lift (py_int x) ;;
     assign (upd_off_ms (n - minimum_pulse_ms self))
   else
     assign (upd_on_ms 0) ;;
     assign (upd_off_ms 999999)) ;;
  self <- self_powc ;;
  (if power_increase then
     t <- active_next_ms (on_ms self) ;;
     assign (upd_change_ms t) ;;
     set_power_on
   else
     t <- active_next_ms (off_ms self) ;;
     assign (upd_change_ms t) ;;
     set_power_off) ;;
  display_power_level.

Definition set_standby_on : M unit :=
  assign (upd_standby true) ;;
  self <- self_powc ;;
  new_power_level (standby_power_level self).

Definition set_standby_off : M unit :=
  self <- self_powc ;;
  if negb (standby self) then ret tt
  else assign (upd_standby false).

Definition upd_power_settings (v : string) (c : PowerControl) : PowerControl :=
  {| power_level := power_level c;
     minimum_pulse_ms := minimum_pulse_ms c;
     standby := standby c;
     standby_timeout := standby_timeout c;
     standby_power_level := standby_power_level c;
     last_update_ms := last_update_ms c;
     power_settings := v;
     on_ms := on_ms c;
     off_ms := off_ms c;
     change_ms := change_ms c;
     power_on := power_on c;
     power_control_pin := power_control_pin c |}.

(** The number a value stands for in arithmetic and ordering, where it
    has one ([bool] is a subtype of [int]). *)
Definition py_num (v : pyval) : option pyfloat :=
  match v with
  | VBool b => Some (float_of_Z (if b then 1 else 0))
  | VInt z => Some (float_of_Z z)
  | VFloat f => Some f
  | _ => None
  end.

(** [v != f] for a float [f]: a value that is not a number differs. *)
Definition py_ne_float (v : pyval) (f : pyfloat) : bool :=
  match py_num v with
  | Some g => f_ne g f
  | None => true
  end.

(** A value used as an operand of [>] against a float. *)
Definition num_operand (v : pyval) : result pyfloat :=
  match py_num v with
  | Some g => Ok g
  | None => Raise TypeError
  end.

Definition MINIMUM_PULSE_WIDTH_MS : Z := 2000.
Definition INITIAL_POWER_LEVEL : pyfloat := Fin 0.
Definition STANDBY_TIMEOUT_SECONDS : Z := 60.
Definition STANDBY_POWER_LEVEL : pyfloat := Fin 20.

(** [PowerControl.__init__].  [machine.Pin (..., OUT)] configures the
    pin and leaves its level as the hardware holds it, which is the level
    of the world the constructor starts in.  The attributes the
    constructor has not yet assigned keep what that world holds in their
    place until their first assignment, which comes before their first
    read. *)
Definition PowerControl_init (standby_timeout_seconds : Z)
    (standby_level : pyfloat) (minimum_pulse : Z) : M unit :=
  modify (with_powc (fun c =>
    {| power_level := Fin 50;
       minimum_pulse_ms := minimum_pulse;
       standby := false;
       standby_timeout := seconds_to_ms standby_timeout_seconds;
       standby_power_level := standby_level;
       last_update_ms := last_update_ms c;
       power_settings := power_settings c;
       on_ms := on_ms c;
       off_ms := off_ms c;
       change_ms := change_ms c;
       power_on := power_on c;
       power_control_pin := power_control_pin c |})) ;;
  set_standby_off ;;
  set_power_off ;;
  now <- get_current_time_ms ;;
  assign (upd_last_update_ms now) ;;
  now <- get_current_time_ms ;;
  r <- message_set "powercontrol"
         (<["power_level" := VInt 0]> (<["last_update_ms" := VInt now]> ∅)) ;;
  assign (upd_power_settings r) ;;
  self <- self_powc ;;
  new_power_level (power_level self).

(** [PowerControl.poll_it]: a new bus timestamp first, then the standby
    timeout, then the free-running square wave. *)
Definition PowerControl_poll_it : M unit :=
  self <- self_powc ;;
  ts <- ref_stamp (power_settings self) ;;
  if negb (last_update_ms self =? ts) then
    assign (upd_last_update_ms ts) ;;
    set_standby_off ;;
    v <- ref_get (power_settings self) "power_level" ;;
    self <- self_powc ;;
    if py_ne_float v (power_level self) then
      level <- lift (num_operand v) ;;
      new_power_level level
    else ret tt
  else
    current_time_ms <- get_current_time_ms ;;
    if (if negb (standby self) then
          if f_gt (power_level self) (standby_power_level self) then
            ticks_diff current_time_ms (last_update_ms self) >? standby_timeout self
          else false
        else false)
    then set_standby_on
    else
      due <- active_now (change_ms self) ;;
      if due then
        if power_on self then
          if off_ms self >? 0 then
            set_power_off ;;
            t <- active_next_ms (off_ms self) ;;
            assign (upd_change_ms t)
          else ret tt
        else
          if on_ms self >? 0 then
            set_power_on ;;
            t <- active_next_ms (on_ms self) ;;
            assign (upd_change_ms t)
          else ret tt
      else ret tt.


(** The scheduler between two cycles. *)
Definition tick (dt : Z) : M unit := modify (with_looper (tick_looper dt)).

(** ** Builtins used by the command gateway *)

Definition is_space (c : ascii) : bool :=
  let n := Z.of_nat (nat_of_ascii c) in
  (n =? 32) || ((9 <=? n) && (n <=? 13)).

Fixpoint lstrip (l : list ascii) : list ascii :=
  match l with
  | c :: r => if is_space c then lstrip r else l
  | [] => []
  end.

Definition strip (l : list ascii) : list ascii :=
  rev (lstrip (rev (lstrip l))).

Definition digit_of (c : ascii) : option Z :=
  let n := Z.of_nat (nat_of_ascii c) in
  if (48 <=? n) && (n <=? 57) then Some (n - 48) else None.

Definition to_lower (c : ascii) : ascii :=
  let n := nat_of_ascii c in
  if (65 <=? Z.of_nat n) && (Z.of_nat n <=? 90)
  then ascii_of_nat (n + 32) else c.

(** The leading decimal digits of [l]: their value after [acc], how many
    there are after [count], and the rest of [l]. *)
Fixpoint take_digits (l : list ascii) (acc : Z) (count : Z)
    : Z * Z * list ascii :=
  match l with
  | c :: r =>
      match digit_of c with
      | Some d => take_digits r (acc * 10 + d) (count + 1)
      | None => (acc, count, l)
      end
  | [] => (acc, count, [])
  end.

Definition take_sign (l : list ascii) : bool * list ascii :=
  match l with
  | "-"%char :: r => (true, r)
  | "+"%char :: r => (false, r)
  | _ => (false, l)
  end.

(** The exponent part that ends a decimal literal, [0] when there is
    none. *)
Definition parse_exponent (l : list ascii) : option Z :=
  match l with
  | [] => Some 0
  | c :: r =>
      if (Ascii.eqb c "e" || Ascii.eqb c "E")%bool then
        let '(neg, r) := take_sign r in
        match take_digits r 0 0 with
        | (e, n, []) =>
            if n =? 0 then None else Some (if neg then - e else e)
        | _ => None
        end
      else None
  end.

Definition is_digit (c : ascii) : bool :=
  match digit_of c with Some _ => true | None => false end.

(** The underscores of a numeric literal: each one stands after a digit
    and before a digit; [prev] is the character just passed.  The text
    without them, or [None] for an underscore out of place. *)
Fixpoint drop_underscores (prev : option ascii) (l : list ascii)
    : option (list ascii) :=
  match l with
  | [] =>
      match prev with
      | Some "_"%char => None
      | _ => Some []
      end
  | c :: r =>
      if Ascii.eqb c "_" then
        match prev with
        | Some p => if is_digit p then drop_underscores (Some c) r else None
        | None => None
        end
      else
        match prev with
        | Some "_"%char =>
            if is_digit c
            then option_map (cons c) (drop_underscores (Some c) r)
            else None
        | _ => option_map (cons c) (drop_underscores (Some c) r)
        end
  end.

(** A [str] is kept as the bytes of its UTF-8 encoding; these are its
    characters, as code points. *)
Definition byte_value (c : ascii) : Z := Z.of_nat (nat_of_ascii c).

Definition is_continuation (c : ascii) : bool :=
  (128 <=? byte_value c) && (byte_value c <=? 191).

Fixpoint code_points (l : list ascii) : option (list Z) :=
  match l with
  | [] => Some []
  | b0 :: r0 =>
      let n0 := byte_value b0 in
      if n0 <? 128 then option_map (cons n0) (code_points r0)
      else
        match r0 with
        | [] => None
        | b1 :: r1 =>
            let n1 := byte_value b1 - 128 in
            if negb (is_continuation b1) then None
            else if (192 <=? n0) && (n0 <=? 223) then
              let cp := (n0 - 192) * 64 + n1 in
              if 128 <=? cp then option_map (cons cp) (code_points r1)
              else None
            else
              match r1 with
              | [] => None
              | b2 :: r2 =>
                  let n2 := byte_value b2 - 128 in
                  if negb (is_continuation b2) then None
                  else if (224 <=? n0) && (n0 <=? 239) then
                    let cp := ((n0 - 224) * 64 + n1) * 64 + n2 in
                    if (2048 <=? cp)
                       && negb ((55296 <=? cp) && (cp <=? 57343))
                    then option_map (cons cp) (code_points r2)
                    else None
                  else
                    match r2 with
                    | [] => None
                    | b3 :: r3 =>
                        let n3 := byte_value b3 - 128 in
                        if negb (is_continuation b3) then None
                        else if (240 <=? n0) && (n0 <=? 247) then
                          let cp := (((n0 - 240) * 64 + n1) * 64 + n2) * 64
                                    + n3 in
                          if (65536 <=? cp) && (cp <=? 1114111)
                          then option_map (cons cp) (code_points r3)
                          else None
                        else None
                    end
              end
        end
  end.

(** The characters beyond ASCII that are white space. *)
Definition unicode_spaces : list Z :=
  [
    133; 160; 5760; 8192; 8193; 8194; 8195; 8196; 8197; 8198; 8199; 8200;
    8201; 8202; 8232; 8233; 8239; 8287; 12288 ].

(** The digit zero of every script with decimal digits of its own; the
    nine code points after each are its digits 1 to 9. *)
Definition decimal_zeros : list Z :=
  [
    1632; 1776; 1984; 2406; 2534; 2662; 2790; 2918; 3046; 3174; 3302; 3430;
    3558; 3664; 3792; 3872; 4160; 4240; 6112; 6160; 6470; 6608; 6784; 6800;
    6992; 7088; 7232; 7248; 42528; 43216; 43264; 43472; 43504; 43600;
    44016; 65296; 66720; 68912; 69734; 69872; 69942; 70096; 70384; 70736;
    70864; 71248; 71360; 71472; 71904; 72016; 72784; 73040; 73120; 92768;
    92864; 93008; 120782; 120792; 120802; 120812; 120822; 123200; 123632;
    125264; 130032 ].

Definition unicode_space (cp : Z) : bool := existsb (Z.eqb cp) unicode_spaces.

Definition unicode_decimal (cp : Z) : option Z :=
  match find (fun z => (z <=? cp) && (cp <=? z + 9)) decimal_zeros with
  | Some z => Some (cp - z)
  | None => None
  end.

(** What [float] makes of the characters of a string before it reads the
    number: the ASCII characters stay, every other white space becomes a
    space and every other decimal digit its ASCII digit, and the text
    ends in a question mark at the first character that is neither. *)
Fixpoint to_ascii_number (cps : list Z) : list ascii :=
  match cps with
  | [] => []
  | cp :: r =>
      if cp <? 127 then ascii_of_nat (Z.to_nat cp) :: to_ascii_number r
      else if unicode_space cp then " "%char :: to_ascii_number r
      else match unicode_decimal cp with
           | Some d => ascii_of_nat (Z.to_nat (48 + d)) :: to_ascii_number r
           | None => ["?"%char]
           end
  end.

(** [float (s)] for a string: surrounding white space, underscores
    between digits, a sign, then [inf], [infinity] or [nan] in any case,
    or a decimal literal with at least one digit and an optional
    exponent.  The result is the float nearest to the number written. *)
Definition float_of_string (s : string) : result pyfloat :=
  match code_points (list_ascii_of_string s) with
  | None => Raise ValueError
  | Some cps =>
  match drop_underscores None (strip (to_ascii_number cps)) with
  | None => Raise ValueError
  | Some text =>
      let '(neg, l) := take_sign text in
      let low := string_of_list_ascii (map to_lower l) in
      if (String.eqb low "inf" || String.eqb low "infinity")%bool
      then Ok (inf_signed (negb neg))
      else if String.eqb low "nan" then Ok NaN
      else
        let '(ip, ni, l1) := take_digits l 0 0 in
        let '(m, nf, l2) := match l1 with
                            | "."%char :: r => take_digits r ip 0
                            | _ => (ip, 0, l1)
                            end in
        if ni + nf =? 0 then Raise ValueError
        else match parse_exponent l2 with
             | Some e =>
                 Ok (rnd (inject_Z (if neg then - m else m)
                          * Qpower 10 (e - nf)))
             | None => Raise ValueError
             end
  end
  end.

(** [float (v)]. *)
Definition py_float (v : pyval) : result pyfloat :=
  match v with
  | VStr s => float_of_string s
  | VFloat f => Ok f
  | VInt z => int_to_float z
  | VBool b => Ok (Fin (if b then 1 else 0))
  | VNone | VList _ | VDict _ => Raise TypeError
  end.

Definition is_substring (needle hay : string) : bool :=
  match String.index 0 needle hay with
  | Some _ => true
  | None => false
  end.

Definition py_eq_str (v : pyval) (s : string) : bool :=
  match v with
  | VStr t => String.eqb t s
  | _ => false
  end.

(** [key in container] for a string [key]. *)
Definition py_in (key : string) (container : pyval) : result bool :=
  match container with
  | VDict d => Ok (bool_decide (is_Some (d !! key)))
  | VList l => Ok (existsb (fun v => py_eq_str v key) l)
  | VStr s => Ok (is_substring key s)
  | _ => Raise TypeError
  end.

(** [container [key]] for a string [key]. *)
Definition py_getitem (container : pyval) (key : string) : result pyval :=
  match container with
  | VDict d => match d !! key with
               | Some v => Ok v
               | None => Raise KeyError
               end
  | _ => Raise TypeError
  end.

Definition py_truthy (v : pyval) : bool :=
  match v with
  | VNone => false
  | VBool b => b
  | VInt z => negb (z =? 0)
  | VFloat f => negb (f_is_zero f)
  | VStr s => negb (String.eqb s "")
  | VList l => match l with [] => false | _ => true end
  | VDict d => negb (bool_decide (d = ∅))
  end.

(** ** GetCommand *)

Definition self_getc : M GetCommand := gets getc.

Definition GetCommand_init (initial_power_level : pyfloat) : M unit :=
  now <- get_current_time_ms ;;
  r <- message_set "powercontrol"
         (<["power_level" := VFloat initial_power_level]>
            (<["last_update_ms" := VInt now]> ∅)) ;;
  modify (with_getc (fun _ => {| poll_udp := true; gc_power_settings := r |})).

Definition set_power_level (params : pyval) : M unit :=
  present <- lift (py_in "power_level" params) ;;
  if negb present then ret tt
  else
    try_except
      (v <- lift (py_getitem params "power_level") ;;
       f <- lift (py_float v) ;;
       let new_level := py_round1 f in
       _ <- message_set "powercontrol"
              (<["power_level" := VFloat new_level]> ∅) ;;
       ret tt)
      (fun _ => true)
      (ret tt).

(** The name [rquest] is bound nowhere: reading it raises. *)
Definition rquest : M pyval := raise NameError.

(** [poller.message_set (topic, v)] for a value that has to be a
    dictionary to be merged. *)
Definition message_set_val (topic : string) (v : pyval) : M string :=
  match v with
  | VDict d => message_set topic d
  | _ => raise TypeError
  end.

Definition process_request (request : pyval) : M unit :=
  present <- lift (py_in "jsonrpc" request) ;;
  if negb present then ret tt
  else
    present <- lift (py_in "method" request) ;;
    if negb present then ret tt
    else
      present <- lift (py_in "params" request) ;;
      if negb present then ret tt
      else
        method <- lift (py_getitem request "method") ;;
        if py_eq_str method "set_power_level" then
          params <- lift (py_getitem request "params") ;;
          set_power_level params
        else
          method <- lift (py_getitem request "method") ;;
          if py_eq_str method "pid_update" then
            params <- lift (py_getitem request "params") ;;
            flag <- lift (py_in "current_temperature" params) ;;
            r <- rquest ;;
            target <- lift (py_getitem r "params") ;;
            _ <- lift (match target with
                       | VDict d =>
                           Ok (VDict (<["temperature_update" := VBool flag]> d))
                       | _ => Raise TypeError
                       end) ;;
            params <- lift (py_getitem request "params") ;;
            _ <- message_set_val "pid_settings" params ;;
            ret tt
          else
            method <- lift (py_getitem request "method") ;;
            if py_eq_str method "shutdown" then poller_shutdown
            else ret tt.

Definition is_OSError (e : exn) : bool :=
  match e with OSError => true | _ => false end.

(** What [message.decode ()] followed by [json.loads] returns or
    raises. *)
Definition decode_loads (d : datagram) : result pyval :=
  match d with
  | BadEncoding => Raise UnicodeError
  | BadJson => Raise ValueError
  | Request v => Ok v
  end.

(** The [while True] loop of the datagram branch over the datagrams
    queued on the socket: [recvfrom] raises [OSError] when none is left,
    and [except OSError] breaks out of the loop. *)
Fixpoint udp_loop (queued : list datagram) : M unit :=
  match queued with
  | [] => try_except (raise OSError) is_OSError (ret tt)
  | message :: rest =>
      fun w =>
        match try_except
                (request_dict <- lift (decode_loads message) ;;
                 process_request request_dict ;;
                 ret true)
                is_OSError (ret false) w with
        | (Ok true, w') => udp_loop rest w'
        | (Ok false, w') => (Ok tt, w')
        | (Raise e, w') => (Raise e, w')
        end
  end.

(** The connection branch, for the connection waiting to be accepted, if
    any; the response is not kept. *)
Definition web_input (pending : option connection) : M unit :=
  self <- self_getc ;;
  try_except
    (match pending with
     | None => raise OSError
     | Some conn =>
         match query_params conn with
         | None => ret tt
         | Some d =>
             count <- lift (py_getitem (VDict d) "param_count") ;;
             n <- lift (num_operand count) ;;
             (if f_gt n (Fin 0) then set_power_level (VDict d) else ret tt) ;;
             _ <- ref_get (gc_power_settings self) "power_level" ;;
             ret tt
         end
     end)
    is_OSError (ret tt).

Definition GetCommand_poll_it (queued : list datagram)
    (pending : option connection) : M unit :=
  self <- self_getc ;;
  if poll_udp self then
    modify (with_getc (fun g =>
      {| poll_udp := false; gc_power_settings := gc_power_settings g |})) ;;
    udp_loop queued
  else
    modify (with_getc (fun g =>
      {| poll_udp := true; gc_power_settings := gc_power_settings g |})) ;;
    web_input pending.

(** ** PIDControl *)

Definition self_pidc : M PIDControl := gets pidc.

Definition PIDControl_init (P I D set_point : pyfloat) : M unit :=
  now <- get_current_time_ms ;;
  r <- message_set "pid_control"
         (<["power_level" := VInt 0]>
         (<["P" := VFloat P]>
         (<["I" := VFloat I]>
         (<["D" := VFloat D]>
         (<["set_point" := VFloat set_point]>
         (<["current_temperature" := VFloat (Fin 0)]>
         (<["temperature_update" := VBool false]> ∅))))))) ;;
  modify (with_pidc (fun _ =>
    {| pid_last_update_ms := now; pid := None; pid_settings := r |})).

(** [import PID] stands in the class body, so [PID] is an attribute of
    the class and not a name the methods can see: reading it raises. *)
Definition PID_module : M unit := raise NameError.

(** The level the bridge writes, from the output of the controller. *)
Definition pid_power_level (pid_output : pyfloat) : pyfloat :=
  py_round1 (py_max (py_min pid_output (Fin 100)) (Fin 0)).

Section Bridge.

(** The [update] method of the external controller, which computes
    the new [output] from a temperature sample. *)
Variable PID_update : pyval -> PID_obj -> PID_obj.

Definition PIDControl_poll_it : M unit :=
  self <- self_pidc ;;
  ts <- ref_stamp (pid_settings self) ;;
  if pid_last_update_ms self =? ts then ret tt
  else
    modify (with_pidc (fun c =>
      {| pid_last_update_ms := ts; pid := pid c;
         pid_settings := pid_settings c |})) ;;
    (match pid self with
     | None =>
         PID_module ;;
         sp <- ref_get (pid_settings self) "set_point" ;;
         modify (with_pidc (fun c =>
           {| pid_last_update_ms := pid_last_update_ms c;
              pid := Some {| SetPoint := sp; output := Fin 0 |};
              pid_settings := pid_settings c |}))
     | Some _ => ret tt
     end) ;;
    update <- ref_get (pid_settings self) "temperature_update" ;;
    if negb (py_truthy update) then ret tt
    else
      temperature <- ref_get (pid_settings self) "current_temperature" ;;
      self <- self_pidc ;;
      match pid self with
      | None => raise AttributeError
      | Some o =>
          let o' := PID_update temperature o in
          modify (with_pidc (fun c =>
            {| pid_last_update_ms := pid_last_update_ms c;
               pid := Some o'; pid_settings := pid_settings c |})) ;;
          _ <- message_set "powercontrol"
                 (<["power_level" := VFloat (pid_power_level (output o'))]> ∅) ;;
          ret tt
      end.

End Bridge.

(** ** The script *)

(** The world in which the plug-ins are constructed: the looper at its
    start time with an empty bus.  The components hold placeholders
    until their constructor has run. *)
Definition power_up (t0 : Z) : world :=
  {| looper := {| current_time_ms := t0; messages := ∅;
                  shutdown_requested := false |};
     powc := {| power_level := Fin 0; minimum_pulse_ms := 0;
                standby := false; standby_timeout := 0;
                standby_power_level := Fin 0; last_update_ms := 0;
                power_settings := ""; on_ms := 0; off_ms := 0;
                change_ms := 0; power_on := false;
                power_control_pin := false |};
     getc := {| poll_udp := false; gc_power_settings := "" |};
     pidc := {| pid_last_update_ms := 0; pid := None; pid_settings := "" |};
     divisors := [] |}.

(** The plug-ins of the script, constructed in the order of its
    [poll_add] calls, with the default arguments it passes. *)
Definition main (t0 : Z) : result unit * world :=
  (GetCommand_init (Fin 0) ;;
   PowerControl_init STANDBY_TIMEOUT_SECONDS STANDBY_POWER_LEVEL
     MINIMUM_PULSE_WIDTH_MS) (power_up t0).

(** ** Specification vocabulary *)

(** The world once the engine has committed to the plan [(on, off)] for
    [level]: the output follows the direction of the change, the next
    flip is one duration of the plan away, and [ds] are the divisors the
    computation of the plan went through, most recent first. *)
Definition committed (level : pyfloat) (on off : Z) (ds : list pyfloat)
    (w : world) : world :=
  let c := powc w in
  let increase := f_gt level (power_level c) in
  {| looper := looper w;
     powc := {| power_level := level;
                minimum_pulse_ms := minimum_pulse_ms c;
                standby := standby c;
                standby_timeout := standby_timeout c;
                standby_power_level := standby_power_level c;
                last_update_ms := last_update_ms c;
                power_settings := power_settings c;
                on_ms := on;
                off_ms := off;
                change_ms := ticks_add (current_time_ms (looper w))
                               (if increase then on else off);
                power_on := increase;
                power_control_pin := increase |};
     getc := getc w;
     pidc := pidc w;
     divisors := ds ++ divisors w |}.

(** The divisor of the branch [50 <= level <= 99],
    [(100.0 - level) * 0.01], and of the branch [1 <= level < 50],
    [level * 0.01], as the floats the code computes. *)
Definition divisor_on (q : Q) : pyfloat :=
  f_mul (f_sub (Fin 100) (Fin q)) (Fin c001).
Definition divisor_off (q : Q) : pyfloat := f_mul (Fin q) (Fin c001).

(** The quotients [M / ((100.0 - level) * 0.01)] and
    [M / (level * 0.01)] of the two branches, operation by operation,
    where none of them leaves the range of the floats. *)
Definition ratio_on (M : Z) (q : Q) : Q :=
  rndq (rndq (inject_Z M) / rndq (rndq (100 - q) * c001)).
Definition ratio_off (M : Z) (q : Q) : Q :=
  rndq (rndq (inject_Z M) / rndq (q * c001)).

(** The part of the floats in the error of a pulse length: five
    roundings of a quotient of at most [100 * M] are within
    [M / 2 ^ 44] of it. *)
Definition float_error (M : Z) : Q := inject_Z M * (1 # 17592186044416).

(** The world [new_power_level] leaves when the computation of the plan
    raises: the level is assigned, [on_ms] is [on], the divisors [ds]
    have been evaluated, and the output and its schedule are as they
    were. *)
Definition attempted (level : pyfloat) (on : Z) (ds : list pyfloat)
    (w : world) : world :=
  let c := powc w in
  {| looper := looper w;
     powc := {| power_level := level;
                minimum_pulse_ms := minimum_pulse_ms c;
                standby := standby c;
                standby_timeout := standby_timeout c;
                standby_power_level := standby_power_level c;
                last_update_ms := last_update_ms c;
                power_settings := power_settings c;
                on_ms := on;
                off_ms := off_ms c;
                change_ms := change_ms c;
                power_on := power_on c;
                power_control_pin := power_control_pin c |};
     getc := getc w;
     pidc := pidc w;
     divisors := ds ++ divisors w |}.

(** The stored level of a topic. *)
Definition bus_level (w : world) (topic : string) : option pyval :=
  messages (looper w) !! topic ≫= fun r => fields r !! "power_level".

Definition bus_stamp (w : world) (topic : string) : option Z :=
  stamp <$> messages (looper w) !! topic.

(** The standby timeout has run out: the condition of the three nested
    tests of [poll_it]. *)
Definition standby_due (w : world) : bool :=
  negb (standby (powc w))
  && f_gt (power_level (powc w)) (standby_power_level (powc w))
  && (ticks_diff (current_time_ms (looper w)) (last_update_ms (powc w))
        >? standby_timeout (powc w)).

(** Two floats that [!=] does not tell apart, or the same float. *)
Definition same_level (a b : pyfloat) : Prop := a = b \/ f_eq a b = true.

(** Cycles in which no component writes to the bus: the scheduler moves
    the clock, then polls the engine. *)
Fixpoint silent_cycles (dts : list Z) : M unit :=
  match dts with
  | [] => ret tt
  | dt :: rest => tick dt ;; PowerControl_poll_it ;; silent_cycles rest
  end.

(** One step of the free-running square wave: when the next flip is
    due and the other duration of the plan is not zero, flip the output
    and schedule the flip after it. *)
Definition square_wave (w : world) : world :=
  let c := powc w in
  let now := current_time_ms (looper w) in
  if 0 <=? ticks_diff now (change_ms c) then
    if power_on c then
      if off_ms c >? 0 then
        with_powc (fun c => upd_change_ms (ticks_add now (off_ms c))
                              (upd_power_on false
                                 (upd_power_control_pin false c))) w
      else w
    else
      if on_ms c >? 0 then
        with_powc (fun c => upd_change_ms (ticks_add now (on_ms c))
                              (upd_power_on true
                                 (upd_power_control_pin true c))) w
      else w
  else w.

(** A [set_power_level] request as [json.loads] returns it. *)
Definition request_set_power_level (v : pyval) : pyval :=
  VDict (<["jsonrpc" := VStr "2.0"]>
        (<["method" := VStr "set_power_level"]>
        (<["params" := VDict (<["power_level" := v]> ∅)]> ∅))).

(** One cycle of the script: the scheduler moves the clock by [dt], the
    gateway is polled with what its sockets hold, then the engine. *)
Definition cycle (dt : Z) (queued : list datagram)
    (pending : option connection) : M unit :=
  tick dt ;;
  GetCommand_poll_it queued pending ;;
  PowerControl_poll_it.

(** The script 100 ms after its start, once a request for level 60 has
    been received and applied. *)
Definition running_at_60 : world :=
  snd (cycle 100 [Request (request_set_power_level (VInt 60))] None
         (snd (main 0))).

(** The world in which [PowerControl.__init__] makes its last call,
    [new_power_level (self.power_level)]: the output has been driven
    off and the record written. *)
Definition pre_constructed (secs : Z) (fallback : pyfloat) (M : Z)
    (w0 : world) : world :=
  let now := current_time_ms (looper w0) in
  {| looper := message_set_looper "powercontrol"
                 (<["power_level" := VInt 0]>
                    (<["last_update_ms" := VInt now]> ∅)) (looper w0);
     powc := {| power_level := Fin 50;
                minimum_pulse_ms := M;
                standby := false;
                standby_timeout := seconds_to_ms secs;
                standby_power_level := fallback;
                last_update_ms := now;
                power_settings := "powercontrol";
                on_ms := on_ms (powc w0);
                off_ms := off_ms (powc w0);
                change_ms := change_ms (powc w0);
                power_on := false;
                power_control_pin := false |};
     getc := getc w0;
     pidc := pidc w0;
     divisors := divisors w0 |}.




(** A [pid_update] request as [json.loads] returns it. *)
Definition request_pid_update (params : gmap string pyval) : pyval :=
  VDict (<["jsonrpc" := VStr "2.0"]>
        (<["method" := VStr "pid_update"]>
        (<["params" := VDict params]> ∅))).

(** The script with the PID bridge constructed as well, with the default
    arguments of its constructor.  The script itself does not construct
    the bridge. *)
Definition main_with_bridge : world :=
  snd (PIDControl_init (Fin (2 # 10)) (Fin 0) (Fin 0) (Fin 0) (snd (main 0))).

(** The looper and the other plug-ins are the same in both worlds. *)
Definition engine_only (w w' : world) : Prop :=
  looper w' = looper w /\ getc w' = getc w /\ pidc w' = pidc w.

(** The [power_on] attribute tells the state of the pin. *)
Definition pin_mirrored (w : world) : Prop :=
  power_on (powc w) = power_control_pin (powc w).

(** An engine in standby applies the fallback level. *)
Definition standby_at_fallback (w : world) : Prop :=
  standby (powc w) = true ->
  power_level (powc w) = standby_power_level (powc w).

(** What can become of a world in which the engine is polled: any
    number of polls of the engine, between which the rest of the system
    may change everything but the state of the engine. *)
Inductive engine_run (w : world) : world -> Prop :=
| run_start : engine_run w w
| run_poll w' :
    engine_run w w' -> engine_run w (snd (PowerControl_poll_it w'))
| run_others w' w'' :
    engine_run w w' -> powc w'' = powc w' -> engine_run w w''.

(** The time that passes over a list of clock advances. *)
Fixpoint total (dts : list Z) : Z :=
  match dts with
  | [] => 0
  | dt :: rest => dt + total rest
  end.

(** Standby can still be entered: the engine is active and applies a
    level above the fallback level. *)
Definition standby_pending (w : world) : bool :=
  negb (standby (powc w))
  && f_gt (power_level (powc w)) (standby_power_level (powc w)).

(** A JSON value that is neither an object, an array nor a string. *)
Definition is_scalar (v : pyval) : bool :=
  match v with
  | VNone | VBool _ | VInt _ | VFloat _ => true
  | _ => false
  end.

(** A request with the three fields, as [json.loads] returns it. *)
Definition request_with_params (method : string) (params : pyval) : pyval :=
  VDict (<["jsonrpc" := VStr "2.0"]>
        (<["method" := VStr method]>
        (<["params" := params]> ∅))).

(** What the gateway may do to the world apart from its own turn flag:
    write the [powercontrol] topic and request the shutdown. *)
Definition writes_powercontrol_only (w w' : world) : Prop :=
  powc w' = powc w /\ pidc w' = pidc w /\ divisors w' = divisors w /\
  gc_power_settings (getc w') = gc_power_settings (getc w) /\
  current_time_ms (looper w') = current_time_ms (looper w) /\
  (forall topic, topic <> "powercontrol" ->
     messages (looper w') !! topic = messages (looper w) !! topic) /\
  (shutdown_requested (looper w) = true ->
     shutdown_requested (looper w') = true).

(** ** ShutdownTimer *)

Record ShutdownTimer := {
  run_ms : Z;
  start_time_ms : Z;
  run_time_ms : Z;
  last_time_ms : Z;
  stop_time_ms : Z
}.

(** [PollLooper.shutdown] on the looper itself, as [poller_shutdown]
    applies it to the world. *)
Definition shutdown_looper (p : PollLooper) : PollLooper :=
  {| current_time_ms := current_time_ms p; messages := messages p;
     shutdown_requested := true |}.

Section Timer.

(** [PollLooper.hours_to_ms] and [PollLooper.minutes_to_ms], which are
    not part of this repository. *)
Variable hours_to_ms : Z -> Z.
Variable minutes_to_ms : Z -> Z.

Definition ShutdownTimer_init (hours minutes seconds : Z) (p : PollLooper)
    : ShutdownTimer :=
  let run := hours_to_ms hours + minutes_to_ms minutes
             + seconds_to_ms seconds in
  let start := current_time_ms p in
  {| run_ms := run;
     start_time_ms := start;
     run_time_ms := start;
     last_time_ms := start;
     stop_time_ms := start + run |}.

End Timer.

(** The timer reads the clock of the looper and may ask it to shut down;
    it keeps its own state. *)
Definition ShutdownTimer_poll_it (self : ShutdownTimer) (p : PollLooper)
    : ShutdownTimer * PollLooper :=
  if run_ms self <=? 0 then (self, p)
  else
    let current_time_ms := current_time_ms p in
    let self :=
      {| run_ms := run_ms self;
         start_time_ms := start_time_ms self;
         run_time_ms := run_time_ms self
                        + ticks_diff current_time_ms (last_time_ms self);
         last_time_ms := last_time_ms self;
         stop_time_ms := stop_time_ms self |} in
    let self :=
      {| run_ms := run_ms self;
         start_time_ms := start_time_ms self;
         run_time_ms := run_time_ms self;
         last_time_ms := current_time_ms;
         stop_time_ms := stop_time_ms self |} in
    if run_time_ms self >=? stop_time_ms self
    then (self, shutdown_looper p)
    else (self, p).

(** Cycles of the scheduler as the timer sees them: the clock moves, then
    the timer is polled. *)
Fixpoint timer_cycles (dts : list Z) (self : ShutdownTimer) (p : PollLooper)
    : ShutdownTimer * PollLooper :=
  match dts with
  | [] => (self, p)
  | dt :: rest =>
      let '(self, p) := ShutdownTimer_poll_it self (tick_looper dt p) in
      timer_cycles rest self p
  end.

(** ** The query string of a web request *)

Fixpoint is_prefix (p s : list ascii) : bool :=
  match p, s with
  | [], _ => true
  | a :: p', b :: s' => Ascii.eqb a b && is_prefix p' s'
  | _ :: _, [] => false
  end.

(** [s.replace (old, new)] for a pattern [old] that is not empty: the
    occurrences of [old] are found from left to right and do not overlap;
    [skip] counts the characters of an occurrence still to be passed
    over. *)
Fixpoint replace_from (old new : list ascii) (skip : nat) (s : list ascii)
    : list ascii :=
  match s with
  | [] => []
  | c :: r =>
      match skip with
      | S k => replace_from old new k r
      | O =>
          if is_prefix old s
          then new ++ replace_from old new (length old - 1) r
          else c :: replace_from old new 0 r
      end
  end.

Definition py_replace (old new : string) (s : list ascii) : list ascii :=
  replace_from (list_ascii_of_string old) (list_ascii_of_string new) 0 s.

(** The three replacements [qs_parse] applies to the query string and
    again to every key and value. *)
Definition unquote (s : list ascii) : list ascii :=
  py_replace "%21" "!" (py_replace "%3F" "?" (py_replace "+" " " s)).

(** [s.split (sep)] for a separator of one character. *)
Fixpoint py_split (sep : ascii) (s : list ascii) : list (list ascii) :=
  match s with
  | [] => [[]]
  | c :: r =>
      if Ascii.eqb c sep then [] :: py_split sep r
      else match py_split sep r with
           | h :: t => (c :: h) :: t
           | [] => [[c]]
           end
  end.

Fixpoint take_nonspace (s : list ascii) : list ascii :=
  match s with
  | c :: r => if is_space c then [] else c :: take_nonspace r
  | [] => []
  end.

(** [ure.search ('^GET\s+/(\S+)', request)]: the group of the match, if
    there is one.  The white space is taken up to the first other
    character, which has to be the slash, and the group is the longest
    run of characters that are not white space, which has to be non-empty. *)
Definition search_GET (request : list ascii) : option (list ascii) :=
  match request with
  | "G"%char :: "E"%char :: "T"%char :: c :: r =>
      if is_space c then
        match lstrip r with
        | "/"%char :: path =>
            match take_nonspace path with
            | [] => None
            | group => Some group
            end
        | _ => None
        end
      else None
  | _ => None
  end.

(** [v + 1], for the count of the parameters. *)
Definition py_add_one (v : pyval) : result pyval :=
  match v with
  | VInt z => Ok (VInt (z + 1))
  | VBool b => Ok (VInt ((if b then 1 else 0) + 1))
  | VFloat f => Ok (VFloat (match f with Fin x => rnd (x + 1) | _ => f end))
  | _ => Raise TypeError
  end.

(** The body of the loop over the elements of the query string. *)
Definition qs_element (parameters : gmap string pyval) (element : list ascii)
    : result (gmap string pyval) :=
  let equalSplit := py_split "=" element in
  let equalSplit := if (length equalSplit <? 2)%nat
                    then equalSplit ++ [[]] else equalSplit in
  let param_id := unquote (nth 0 equalSplit []) in
  let param_val := unquote (nth 1 equalSplit []) in
  let parameters :=
    <[string_of_list_ascii param_id := VStr (string_of_list_ascii param_val)]>
      parameters in
  match parameters !! "param_count" with
  | Some count =>
      match py_add_one count with
      | Ok count => Ok (<["param_count" := count]> parameters)
      | Raise e => Raise e
      end
  | None => Raise KeyError
  end.

Fixpoint qs_elements (parameters : gmap string pyval)
    (elements : list (list ascii)) : result (gmap string pyval) :=
  match elements with
  | [] => Ok parameters
  | element :: rest =>
      match qs_element parameters element with
      | Ok parameters => qs_elements parameters rest
      | Raise e => Raise e
      end
  end.

Section Web.

(** [bytes.decode ("utf-8")], a library call: the text, kept as its
    bytes, or the exception raised for bytes that are no UTF-8. *)
Variable decode_utf8 : list ascii -> result (list ascii).

Definition qs_parse (request : list ascii)
    : result (option (gmap string pyval)) :=
  let parameters : gmap string pyval := <["param_count" := VInt 0]> ∅ in
  match search_GET request with
  | None => Ok (Some parameters)
  | Some group =>
      match decode_utf8 group with
      | Raise e => Raise e
      | Ok qs =>
          let qs := unquote qs in
          if (length qs <=? 0)%nat then Ok None
          else
            match qs with
            | "?"%char :: qs =>
                match qs_elements parameters (py_split "&" qs) with
                | Ok parameters => Ok (Some parameters)
                | Raise e => Raise e
                end
            | _ => Ok None
            end
      end
  end.

(** The connection branch on the bytes received from the accepted
    connection: [qs_parse] runs inside the [try], which handles
    [OSError] only. *)
Definition web_input_request (pending : option (list ascii)) : M unit :=
  match pending with
  | None => web_input None
  | Some request =>
      match qs_parse request with
      | Ok query => web_input (Some {| query_params := query |})
      | Raise e => try_except (raise e) is_OSError (ret tt)
      end
  end.

(** A poll of the gateway on what its sockets hold. *)
Definition GetCommand_poll_it_request (queued : list datagram)
    (pending : option (list ascii)) : M unit :=
  self <- self_getc ;;
  if poll_udp self then GetCommand_poll_it queued None
  else
    modify (with_getc (fun g =>
      {| poll_udp := true; gc_power_settings := gc_power_settings g |})) ;;
    web_input_request pending.

End Web.

(** Text that goes through [qs_parse] unchanged: no white space and none
    of the characters the parser gives a meaning to. *)
Definition plain_char (c : ascii) : bool :=
  negb (is_space c)
  && negb (Ascii.eqb c "&") && negb (Ascii.eqb c "=")
  && negb (Ascii.eqb c "+") && negb (Ascii.eqb c "%").

Definition plain (s : list ascii) : bool := forallb plain_char s.

(** The query string of a list of keys and values. *)
Fixpoint query_of (pairs : list (list ascii * list ascii)) : list ascii :=
  match pairs with
  | [] => []
  | [(k, v)] => k ++ "="%char :: v
  | (k, v) :: rest => k ++ "="%char :: v ++ "&"%char :: query_of rest
  end.

(** The request line of a query, followed by the rest of the request. *)
Definition GET_request (query rest : list ascii) : list ascii :=
  list_ascii_of_string "GET /?" ++ query ++ " "%char :: rest.

(** The keys and values stored one after the other, a later value
    replacing an earlier one of the same key. *)
Fixpoint insert_pairs (m : gmap string pyval)
    (pairs : list (list ascii * list ascii)) : gmap string pyval :=
  match pairs with
  | [] => m
  | (k, v) :: rest =>
      insert_pairs
        (<[string_of_list_ascii k := VStr (string_of_list_ascii v)]> m) rest
  end.

Definition plain_pairs (pairs : list (list ascii * list ascii)) : Prop :=
  Forall (fun kv => plain (fst kv) = true /\ plain (snd kv) = true /\
                    string_of_list_ascii (fst kv) <> "param_count") pairs.


(** * Properties *)

(** ** Arithmetic of the float model *)

Lemma Qlt_bool_iff x y : Qlt_bool x y = true <-> (x < y)%Q.
Proof.
  unfold Qlt_bool. rewrite negb_true_iff.
  split; intros H.
  - apply Qnot_le_lt. intros Hle. apply Qle_bool_iff in Hle. congruence.
  - destruct (Qle_bool y x) eqn:E; [|reflexivity].
    apply Qle_bool_iff in E. exfalso. apply (Qlt_not_le _ _ H E).
Qed.

Lemma Qlt_bool_false x y : Qlt_bool x y = false <-> (y <= x)%Q.
Proof.
  unfold Qlt_bool. rewrite negb_false_iff. apply Qle_bool_iff.
Qed.

(** ** Rounding to the nearest float *)

Lemma round_half_even_close (x : Q) :
  (Qabs (x - inject_Z (round_half_even x)) <= 1 # 2)%Q.
Proof.
  unfold round_half_even.
  pose proof (Qfloor_le x) as Hlo. pose proof (Qlt_floor x) as Hhi.
  rewrite inject_Z_plus in Hhi. change (inject_Z 1) with 1%Q in Hhi.
  set (f := Qfloor x) in *.
  apply Qabs_Qle_condition.
  destruct (Qlt_bool (x - inject_Z f) (1 # 2)) eqn:E1.
  - apply Qlt_bool_iff in E1. split; lra.
  - apply Qlt_bool_false in E1.
    destruct (Qlt_bool (1 # 2) (x - inject_Z f)) eqn:E2.
    + rewrite inject_Z_plus. change (inject_Z 1) with 1%Q. split; lra.
    + apply Qlt_bool_false in E2.
      destruct (Z.even f).
      * split; lra.
      * rewrite inject_Z_plus. change (inject_Z 1) with 1%Q. split; lra.
Qed.

(** ** Binary rounding *)

Lemma two_neq_0 : ~ (2 == 0)%Q.
Proof. intros H. discriminate H. Qed.

Lemma pow2_pos (e : Z) : (0 < 2 ^ e)%Q.
Proof. apply Qpower_0_lt. reflexivity. Qed.

Lemma pow2_add (a b : Z) : (2 ^ (a + b) == 2 ^ a * 2 ^ b)%Q.
Proof. apply Qpower_plus. exact two_neq_0. Qed.

Lemma pow2_le (a b : Z) : a <= b -> (2 ^ a <= 2 ^ b)%Q.
Proof. intros H. apply Qpower_le_compat_l; [exact H | discriminate]. Qed.

Lemma pow2_Z (n : Z) : 0 <= n -> (inject_Z (2 ^ n) == 2 ^ n)%Q.
Proof. intros H. apply (Zpower_Qpower 2 n H). Qed.

Lemma pow2_succ (a : Z) : (2 ^ (a + 1) == 2 * 2 ^ a)%Q.
Proof. rewrite pow2_add. change (2 ^ 1)%Q with 2%Q. ring. Qed.

Lemma ilog2_spec (x : Q) :
  (0 < x)%Q -> (2 ^ ilog2 x <= x)%Q /\ (x < 2 ^ (ilog2 x + 1))%Q.
Proof.
  intros Hx. destruct x as [n d]. unfold ilog2. cbn [Qnum Qden].
  assert (Hn : 0 < n) by (unfold Qlt in Hx; cbn in Hx; lia).
  pose proof (Z.log2_spec n Hn) as [Ha1 Ha2].
  pose proof (Z.log2_spec (Zpos d) ltac:(lia)) as [Hb1 Hb2].
  pose proof (Z.log2_nonneg n) as Ha0.
  pose proof (Z.log2_nonneg (Zpos d)) as Hb0.
  set (a := Z.log2 n) in *. set (b := Z.log2 (Zpos d)) in *.
  assert (Qa1 : (2 ^ a <= inject_Z n)%Q).
  { rewrite <- (pow2_Z a Ha0). rewrite <- Zle_Qle. exact Ha1. }
  assert (Qa2 : (inject_Z n < 2 ^ (a + 1))%Q).
  { rewrite <- (pow2_Z (a + 1)) by lia. rewrite <- Zlt_Qlt. exact Ha2. }
  assert (Qb1 : (2 ^ b <= inject_Z (Zpos d))%Q).
  { rewrite <- (pow2_Z b Hb0). rewrite <- Zle_Qle. exact Hb1. }
  assert (Qb2 : (inject_Z (Zpos d) < 2 ^ (b + 1))%Q).
  { rewrite <- (pow2_Z (b + 1)) by lia. rewrite <- Zlt_Qlt. exact Hb2. }
  assert (Hd : (0 < inject_Z (Zpos d))%Q) by reflexivity.
  assert (Ex : (n # d == inject_Z n / inject_Z (Zpos d))%Q)
    by apply Qmake_Qdiv.
  (* x < 2^(a-b+1) and 2^(a-b-1) <= x *)
  assert (Hup : (n # d < 2 ^ (a - b + 1))%Q).
  { rewrite Ex. apply Qlt_shift_div_r; [exact Hd|].
    apply Qlt_le_trans with (2 ^ (a + 1))%Q; [exact Qa2|].
    replace (a + 1) with ((a - b + 1) + b) by lia. rewrite pow2_add.
    apply Qmult_le_l; [apply pow2_pos | exact Qb1]. }
  assert (Hlo : (2 ^ (a - b - 1) <= n # d)%Q).
  { rewrite Ex. apply Qle_shift_div_l; [exact Hd|].
    apply Qle_trans with (2 ^ a)%Q; [|exact Qa1].
    replace a with ((a - b - 1) + (b + 1)) at 2 by lia. rewrite pow2_add.
    apply Qmult_le_l; [apply pow2_pos | apply Qlt_le_weak; exact Qb2]. }
  destruct (Qle_bool (2 ^ (a - b)) (n # d)) eqn:E.
  - apply Qle_bool_iff in E. split; assumption.
  - assert (E' : (n # d < 2 ^ (a - b))%Q).
    { apply Qnot_le_lt. intros H. apply Qle_bool_iff in H. congruence. }
    replace (a - b - 1 + 1) with (a - b) by lia. split; assumption.
Qed.

Lemma inject_Z_minus (a b : Z) : (inject_Z (a - b) == inject_Z a - inject_Z b)%Q.
Proof.
  unfold Z.sub. rewrite inject_Z_plus, inject_Z_opp. reflexivity.
Qed.

Lemma Qabs_pos_lt (x : Q) : ~ (x == 0)%Q -> (0 < Qabs x)%Q.
Proof.
  intros Hx. destruct (Qlt_le_dec 0 (Qabs x)) as [H | H]; [exact H|].
  exfalso. apply Hx. apply Qabs_Qle_condition in H. lra.
Qed.

Lemma round_half_even_nearest (y : Q) (k : Z) :
  (Qabs (inject_Z (round_half_even y) - y) <= Qabs (inject_Z k - y))%Q.
Proof.
  pose proof (round_half_even_close y) as Hc.
  set (r := round_half_even y) in *.
  rewrite Qabs_Qminus in Hc.
  destruct (Z.eq_dec k r) as [-> | Hne]; [apply Qle_refl|].
  apply Qle_trans with (1 # 2)%Q; [exact Hc|].
  apply Qabs_Qle_condition in Hc. destruct Hc as [Hc1 Hc2].
  assert (Hk : k <= r - 1 \/ r + 1 <= k) by lia.
  destruct Hk as [Hk | Hk].
  - rewrite Zle_Qle, inject_Z_minus in Hk. change (inject_Z 1) with 1%Q in Hk.
    rewrite Qabs_neg by lra. lra.
  - rewrite Zle_Qle, inject_Z_plus in Hk. change (inject_Z 1) with 1%Q in Hk.
    rewrite Qabs_pos by lra. lra.
Qed.

(** The numbers the format holds, the bound on the exponent left
    aside. *)
Lemma ulp_exponent_min (x : Q) : -1074 <= ulp_exponent x.
Proof.
  unfold ulp_exponent. destruct (Qeq_bool x 0); lia.
Qed.

(** The scaled value has less than 54 bits. *)
Lemma scaled_lt (x : Q) : (Qabs x < 2 ^ 53 * 2 ^ ulp_exponent x)%Q.
Proof.
  unfold ulp_exponent. destruct (Qeq_bool x 0) eqn:E0.
  - apply Qeq_bool_iff in E0. rewrite E0. cbn [Qabs Z.abs Qnum Qden].
    apply Qmult_lt_0_compat; apply pow2_pos.
  - assert (Hx : (0 < Qabs x)%Q).
    { apply Qabs_pos_lt. intros H. apply Qeq_bool_iff in H. congruence. }
    destruct (ilog2_spec _ Hx) as [_ Hup].
    set (l := ilog2 (Qabs x)) in *.
    apply Qlt_le_trans with (2 ^ (l + 1))%Q; [exact Hup|].
    rewrite <- pow2_add. apply pow2_le. lia.
Qed.

Lemma scale_abs (k : Z) (x : Q) (e : Z) :
  (Qabs (inject_Z k * 2 ^ e - x)
   == Qabs (inject_Z k - x / 2 ^ e) * 2 ^ e)%Q.
Proof.
  pose proof (pow2_pos e) as Hp.
  assert (E : (inject_Z k * 2 ^ e - x == (inject_Z k - x / 2 ^ e) * 2 ^ e)%Q).
  { field. intros H. rewrite H in Hp. apply (Qlt_irrefl _ Hp). }
  rewrite E, Qabs_Qmult. rewrite (Qabs_pos (2 ^ e)) by (apply Qlt_le_weak; exact Hp).
  reflexivity.
Qed.

Lemma rndq_is_float (x : Q) : is_float (rndq x).
Proof.
  exists (round_half_even (x / 2 ^ ulp_exponent x)), (ulp_exponent x).
  split; [apply ulp_exponent_min|]. split; [|reflexivity].
  pose proof (scaled_lt x) as Hs. pose proof (pow2_pos (ulp_exponent x)) as Hp.
  set (e := ulp_exponent x) in *.
  assert (Hy : (Qabs (x / 2 ^ e) < 2 ^ 53)%Q).
  { unfold Qdiv. rewrite Qabs_Qmult.
    rewrite (Qabs_pos (/ 2 ^ e)) by (apply Qlt_le_weak, Qinv_lt_0_compat; exact Hp).
    apply Qlt_shift_div_r; [exact Hp | exact Hs]. }
  pose proof (round_half_even_close (x / 2 ^ e)) as Hc.
  set (m := round_half_even (x / 2 ^ e)) in *.
  apply Qabs_Qlt_condition in Hy. apply Qabs_Qle_condition in Hc.
  rewrite <- (pow2_Z 53) in Hy by lia.
  assert (H1 : (inject_Z m < inject_Z (2 ^ 53 + 1))%Q).
  { rewrite inject_Z_plus. change (inject_Z 1) with 1%Q. lra. }
  assert (H2 : (inject_Z (- 2 ^ 53 - 1) < inject_Z m)%Q).
  { rewrite inject_Z_minus, inject_Z_opp. change (inject_Z 1) with 1%Q. lra. }
  rewrite <- Zlt_Qlt in H1, H2. lia.
Qed.

Lemma rndq_nearest (x f : Q) :
  is_float f -> (Qabs (rndq x - x) <= Qabs (f - x))%Q.
Proof.
  intros (m' & e' & He' & Hm' & Hf). unfold rndq.
  pose proof (pow2_pos (ulp_exponent x)) as Hp.
  set (e := ulp_exponent x) in *.
  set (y := (x / 2 ^ e)%Q).
  destruct (Z_le_gt_dec e e') as [Hee | Hee].
  - (* [f] is a multiple of the unit *)
    assert (Hk : (f == inject_Z (m' * 2 ^ (e' - e)) * 2 ^ e)%Q).
    { rewrite Hf, inject_Z_mult, pow2_Z by lia.
      rewrite <- Qmult_assoc, <- pow2_add.
      replace (e' - e + e) with e' by lia. reflexivity. }
    rewrite Hk, !scale_abs. fold y.
    apply Qmult_le_compat_r; [|apply Qlt_le_weak; exact Hp].
    apply round_half_even_nearest.
  - (* [f] lies below the binade of [x] *)
    assert (Hx0 : Qeq_bool x 0 = false).
    { destruct (Qeq_bool x 0) eqn:E; [|reflexivity].
      unfold e, ulp_exponent in Hee. rewrite E in Hee. lia. }
    assert (Hxp : (0 < Qabs x)%Q).
    { apply Qabs_pos_lt. intros H. apply Qeq_bool_iff in H. congruence. }
    destruct (ilog2_spec _ Hxp) as [Hlo _].
    assert (Ee : e = ilog2 (Qabs x) - 52).
    { unfold e, ulp_exponent in *. rewrite Hx0 in *. lia. }
    assert (Hbin : (2 ^ 52 * 2 ^ e <= Qabs x)%Q).
    { rewrite <- pow2_add. replace (52 + e) with (ilog2 (Qabs x)) by lia.
      exact Hlo. }
    assert (Hfabs : (Qabs f <= 2 ^ 52 * 2 ^ e)%Q).
    { rewrite Hf, Qabs_Qmult.
      rewrite (Qabs_pos (2 ^ e')) by (apply Qlt_le_weak, pow2_pos).
      apply Qle_trans with (2 ^ 53 * 2 ^ e')%Q.
      - apply Qmult_le_compat_r; [|apply Qlt_le_weak, pow2_pos].
        assert (Ha : (Qabs (inject_Z m') == inject_Z (Z.abs m'))%Q)
          by reflexivity.
        rewrite Ha, <- (pow2_Z 53) by lia. rewrite <- Zle_Qle. exact Hm'.
      - rewrite <- !pow2_add. apply pow2_le. lia. }
    set (k := if Qle_bool 0 x then 2 ^ 52 else - 2 ^ 52).
    apply Qle_trans with (Qabs (inject_Z k * 2 ^ e - x)).
    + rewrite !scale_abs. fold y.
      apply Qmult_le_compat_r; [|apply Qlt_le_weak; exact Hp].
      apply round_half_even_nearest.
    + apply Qle_trans with (Qabs x - Qabs f)%Q.
      * assert (Ek : (Qabs (inject_Z k * 2 ^ e - x)
                      == Qabs x - 2 ^ 52 * 2 ^ e)%Q).
        { unfold k. destruct (Qle_bool 0 x) eqn:Es.
          - apply Qle_bool_iff in Es. rewrite (Qabs_pos x Es) in *.
            rewrite pow2_Z by lia. rewrite Qabs_neg by lra. ring.
          - assert (Es' : (x <= 0)%Q).
            { apply Qlt_le_weak, Qnot_le_lt. intros H.
              apply Qle_bool_iff in H. congruence. }
            rewrite (Qabs_neg x Es') in *.
            rewrite inject_Z_opp, pow2_Z by lia. rewrite Qabs_pos by lra.
            ring. }
        rewrite Ek. lra.
      * rewrite (Qabs_Qminus f x). apply Qabs_triangle_reverse.
Qed.

Lemma rndq_exact (f : Q) : is_float f -> (rndq f == f)%Q.
Proof.
  intros Hf. pose proof (rndq_nearest f f Hf) as H.
  assert (E : (f - f == 0)%Q) by ring.
  rewrite E in H. change (Qabs 0) with 0%Q in H.
  apply Qabs_Qle_condition in H. lra.
Qed.

Lemma round_half_even_comp (x y : Q) :
  (x == y)%Q -> round_half_even x = round_half_even y.
Proof.
  intros E. unfold round_half_even. rewrite (Qfloor_comp _ _ E).
  set (f := Qfloor y).
  assert (B : forall a b c d : Q, (a == b)%Q -> (c == d)%Q ->
                Qlt_bool a c = Qlt_bool b d).
  { intros a b c d Hab Hcd. destruct (Qlt_bool b d) eqn:H.
    - apply Qlt_bool_iff in H. apply Qlt_bool_iff. rewrite Hab, Hcd. exact H.
    - apply Qlt_bool_false in H. apply Qlt_bool_false. rewrite Hab, Hcd.
      exact H. }
  rewrite (B (x - inject_Z f) (y - inject_Z f) (1 # 2) (1 # 2))%Q
    by (rewrite ?E; reflexivity).
  rewrite (B (1 # 2) (1 # 2) (x - inject_Z f) (y - inject_Z f))%Q
    by (rewrite ?E; reflexivity).
  reflexivity.
Qed.

Lemma pow2_lt_inv (a b : Z) : (2 ^ a < 2 ^ b)%Q -> a < b.
Proof.
  intros H. destruct (Z_lt_le_dec a b) as [Hab | Hab]; [exact Hab|].
  exfalso. pose proof (pow2_le b a Hab). lra.
Qed.

Lemma ilog2_unique (x : Q) (k : Z) :
  (2 ^ k <= x)%Q -> (x < 2 ^ (k + 1))%Q -> ilog2 x = k.
Proof.
  intros Hlo Hup.
  assert (Hx : (0 < x)%Q) by (pose proof (pow2_pos k); lra).
  destruct (ilog2_spec x Hx) as [Hlo' Hup'].
  assert (H1 : k < ilog2 x + 1) by (apply pow2_lt_inv; lra).
  assert (H2 : ilog2 x < k + 1) by (apply pow2_lt_inv; lra).
  lia.
Qed.

Lemma ilog2_comp (x y : Q) : (0 < x)%Q -> (x == y)%Q -> ilog2 x = ilog2 y.
Proof.
  intros Hx E. destruct (ilog2_spec x Hx) as [Hlo Hup].
  symmetry. apply ilog2_unique; rewrite <- E; assumption.
Qed.

Lemma ulp_exponent_comp (x y : Q) :
  (x == y)%Q -> ulp_exponent x = ulp_exponent y.
Proof.
  intros E. unfold ulp_exponent.
  destruct (Qeq_bool x 0) eqn:Ex; destruct (Qeq_bool y 0) eqn:Ey.
  - reflexivity.
  - apply Qeq_bool_iff in Ex. rewrite E in Ex. apply Qeq_bool_iff in Ex.
    congruence.
  - apply Qeq_bool_iff in Ey. rewrite <- E in Ey. apply Qeq_bool_iff in Ey.
    congruence.
  - rewrite (ilog2_comp (Qabs x) (Qabs y)); [reflexivity | |].
    + apply Qabs_pos_lt. intros H. apply Qeq_bool_iff in H. congruence.
    + rewrite E. reflexivity.
Qed.

Lemma rndq_comp (x y : Q) : (x == y)%Q -> (rndq x == rndq y)%Q.
Proof.
  intros E. unfold rndq. rewrite (ulp_exponent_comp x y E).
  rewrite (round_half_even_comp (x / 2 ^ ulp_exponent y)
                                (y / 2 ^ ulp_exponent y)).
  - reflexivity.
  - rewrite E. reflexivity.
Qed.

(** Rounding is monotonic. *)
Lemma rndq_mono (x y : Q) : (x <= y)%Q -> (rndq x <= rndq y)%Q.
Proof.
  intros Hxy.
  destruct (Qlt_le_dec (rndq y) (rndq x)) as [Hlt | Hle]; [|exact Hle].
  exfalso.
  pose proof (rndq_nearest x (rndq y) (rndq_is_float y)) as N1.
  pose proof (rndq_nearest y (rndq x) (rndq_is_float x)) as N2.
  set (a := rndq x) in *. set (b := rndq y) in *.
  destruct (Qlt_le_dec b x) as [Hbx | Hbx].
  - destruct (Qlt_le_dec y a) as [Hya | Hya].
    + rewrite (Qabs_pos (a - x)), (Qabs_neg (b - x)) in N1 by lra.
      rewrite (Qabs_neg (b - y)), (Qabs_pos (a - y)) in N2 by lra.
      assert (E : (x == y)%Q) by lra.
      pose proof (rndq_comp x y E) as Hc. fold a b in Hc. lra.
    + rewrite (Qabs_neg (b - y)), (Qabs_neg (a - y)) in N2 by lra. lra.
  - rewrite (Qabs_pos (a - x)), (Qabs_pos (b - x)) in N1 by lra. lra.
Qed.

Lemma is_float_opp (f : Q) : is_float f -> is_float (- f).
Proof.
  intros (m & e & He & Hm & Hf). exists (- m), e.
  split; [exact He|]. split; [lia|].
  rewrite Hf, inject_Z_opp. ring.
Qed.

Lemma is_float_Z (z : Z) : Z.abs z <= 2 ^ 53 -> is_float (inject_Z z).
Proof.
  intros H. exists z, 0. split; [lia|]. split; [exact H|].
  change (2 ^ 0)%Q with 1%Q. ring.
Qed.

Lemma is_float_pow2 (m e : Z) :
  -1074 <= e -> Z.abs m <= 2 ^ 53 -> is_float (inject_Z m * 2 ^ e).
Proof. intros He Hm. exists m, e. repeat split; [exact He | exact Hm]. Qed.

Lemma rndq_abs_le (x b : Q) :
  is_float b -> (Qabs x <= b)%Q -> (Qabs (rndq x) <= b)%Q.
Proof.
  intros Hb Hx. apply Qabs_Qle_condition in Hx. destruct Hx as [H1 H2].
  apply Qabs_Qle_condition. split.
  - rewrite <- (rndq_exact (- b) (is_float_opp b Hb)).
    apply rndq_mono. exact H1.
  - rewrite <- (rndq_exact b Hb). apply rndq_mono. exact H2.
Qed.

Lemma rndq_ge (x a : Q) : is_float a -> (a <= x)%Q -> (a <= rndq x)%Q.
Proof.
  intros Ha H. rewrite <- (rndq_exact a Ha). apply rndq_mono. exact H.
Qed.

Lemma rndq_le (x b : Q) : is_float b -> (x <= b)%Q -> (rndq x <= b)%Q.
Proof.
  intros Hb H. rewrite <- (rndq_exact b Hb). apply rndq_mono. exact H.
Qed.

(** The relative error of rounding a number in the normal range is at
    most [2 ^ -53]. *)
Lemma rndq_error (x : Q) :
  (2 ^ (-1022) <= Qabs x)%Q ->
  (Qabs (rndq x - x) <= 2 ^ (-53) * Qabs x)%Q.
Proof.
  intros Hn.
  assert (Hxp : (0 < Qabs x)%Q) by (pose proof (pow2_pos (-1022)); lra).
  destruct (ilog2_spec _ Hxp) as [Hlo Hup].
  assert (Hl : -1022 <= ilog2 (Qabs x)).
  { assert (H : -1022 < ilog2 (Qabs x) + 1) by (apply pow2_lt_inv; lra). lia. }
  assert (Ee : ulp_exponent x = ilog2 (Qabs x) - 52).
  { unfold ulp_exponent. destruct (Qeq_bool x 0) eqn:E.
    - apply Qeq_bool_iff in E. rewrite E in Hxp. discriminate Hxp.
    - lia. }
  unfold rndq. rewrite Ee. set (e := ilog2 (Qabs x) - 52).
  rewrite scale_abs.
  pose proof (round_half_even_close (x / 2 ^ e)) as Hc.
  rewrite Qabs_Qminus in Hc.
  pose proof (pow2_pos e) as Hp.
  apply Qle_trans with ((1 # 2) * 2 ^ e)%Q.
  - apply Qmult_le_compat_r; [exact Hc | apply Qlt_le_weak; exact Hp].
  - apply Qle_trans with (2 ^ (-53) * 2 ^ ilog2 (Qabs x))%Q.
    + rewrite <- pow2_add.
      replace (-53 + ilog2 (Qabs x)) with (-1 + e) by (unfold e; lia).
      rewrite pow2_add. apply Qle_refl.
    + apply Qmult_le_l; [apply pow2_pos | exact Hlo].
Qed.

Lemma rnd_finite (x : Q) :
  (Qabs (rndq x) < 2 ^ 1024)%Q -> rnd x = Fin (Qred (rndq x)).
Proof.
  intros H. unfold rnd.
  destruct (Qle_bool (2 ^ 1024) (Qabs (Qred (rndq x)))) eqn:E; [|reflexivity].
  apply Qle_bool_iff in E. rewrite (Qabs_wd _ _ (Qred_correct _)) in E. lra.
Qed.


Lemma f_ge_Fin x y : f_ge (Fin x) (Fin y) = true <-> (y <= x)%Q.
Proof.
  unfold f_ge; cbn. rewrite orb_true_iff, Qlt_bool_iff, Qeq_bool_iff.
  split.
  - intros [H | H]; [apply Qlt_le_weak; exact H | rewrite H; apply Qle_refl].
  - intros H. destruct (Qlt_le_dec y x) as [Hlt | Hle]; [left; exact Hlt|].
    right. apply Qle_antisym; assumption.
Qed.

Lemma f_ge_Fin_false x y : f_ge (Fin x) (Fin y) = false <-> (x < y)%Q.
Proof.
  split; intros H.
  - apply Qnot_le_lt. intros Hle. apply f_ge_Fin in Hle. congruence.
  - destruct (f_ge (Fin x) (Fin y)) eqn:E; [|reflexivity].
    apply f_ge_Fin in E. exfalso. apply (Qlt_not_le _ _ H E).
Qed.

Lemma Qtrunc_floor x : (0 <= x)%Q -> Qtrunc x = Qfloor x.
Proof.
  destruct x as [n d]. unfold Qle, Qtrunc, Qfloor; cbn. intros H.
  apply Z.quot_div_nonneg; lia.
Qed.

(** ** The floats of the pulse plan *)

#[local] Arguments rnd : simpl never.
#[local] Arguments rndq : simpl never.
#[local] Arguments int_to_float : simpl never.
#[local] Arguments f_sub : simpl never.
#[local] Arguments f_mul : simpl never.
#[local] Arguments f_quot : simpl never.

Lemma Qtrunc_comp (x y : Q) : (x == y)%Q -> Qtrunc x = Qtrunc y.
Proof.
  destruct x as [a b], y as [c d]. unfold Qeq, Qtrunc. cbn. intros E.
  rewrite <- (Z.quot_mul_cancel_r a (Zpos b) (Zpos d)) by lia.
  rewrite <- (Z.quot_mul_cancel_r c (Zpos d) (Zpos b)) by lia.
  rewrite E. f_equal. lia.
Qed.

Lemma is_float_c001 : is_float c001.
Proof.
  exists 5764607523034235, (-59). split; [lia|]. split; [vm_compute; discriminate|].
  vm_compute. reflexivity.
Qed.

Lemma c001_lower : (1 # 100 <= c001)%Q.
Proof. vm_compute. discriminate. Qed.

Lemma c001_pos : (0 < c001)%Q.
Proof. reflexivity. Qed.

Lemma is_float_half : is_float (1 # 2).
Proof. exists 1, (-1). split; [lia|]. split; [vm_compute; discriminate|]. reflexivity. Qed.

Lemma rndq_50_c001 : (rndq (50 * c001) == 1 # 2)%Q.
Proof. vm_compute. reflexivity. Qed.

Lemma is_float_big (e : Z) : 0 <= e -> is_float (2 ^ e)%Q.
Proof.
  intros He. exists 1, e. split; [lia|]. split; [vm_compute; discriminate|].
  ring.
Qed.

Lemma rnd_bounded (x : Q) (e : Z) :
  0 <= e < 1024 -> (Qabs x <= 2 ^ e)%Q ->
  exists y, rnd x = Fin y /\ (y == rndq x)%Q.
Proof.
  intros He Hx. exists (Qred (rndq x)). split; [|apply Qred_correct].
  apply rnd_finite.
  apply Qle_lt_trans with (2 ^ e)%Q.
  - apply rndq_abs_le; [apply is_float_big; lia | exact Hx].
  - apply Qpower_lt_compat_l; [lia | reflexivity].
Qed.
Lemma rnd_range (x a b : Q) (e : Z) :
  0 <= e < 1024 -> is_float a -> is_float b ->
  (- 2 ^ e <= a)%Q -> (b <= 2 ^ e)%Q -> (a <= x)%Q -> (x <= b)%Q ->
  exists y, rnd x = Fin y /\ (y == rndq x)%Q /\ (a <= y)%Q /\ (y <= b)%Q.
Proof.
  intros He Fa Fb Ha Hb Hax Hxb.
  destruct (rnd_bounded x e He) as (y & Ey & Hy).
  { apply Qabs_Qle_condition. split; lra. }
  exists y. split; [exact Ey|]. split; [exact Hy|].
  rewrite Hy. split; [apply rndq_ge | apply rndq_le]; assumption.
Qed.

Lemma f_is_zero_pos d : (0 < d)%Q -> f_is_zero (Fin d) = false.
Proof.
  intros H. cbn. destruct (Qeq_bool d 0) eqn:E; [|reflexivity].
  apply Qeq_bool_iff in E. rewrite E in H. exfalso. apply (Qlt_irrefl _ H).
Qed.

Lemma is_float_small (z : Z) : Z.abs z <= 100 -> is_float (inject_Z z).
Proof. intros H. apply is_float_Z. lia. Qed.

(** The divisor of the branch [50 <= level <= 99]. *)
Lemma divisor_on_fin (q : Q) :
  (50 <= q)%Q -> (q <= 99)%Q ->
  exists d, divisor_on q = Fin d /\ (d == rndq (rndq (100 - q) * c001))%Q /\
            (c001 <= d)%Q /\ (d <= 1 # 2)%Q.
Proof.
  intros H50 H99. unfold divisor_on, f_sub.
  assert (F1 : is_float 1) by (apply (is_float_small 1); lia).
  assert (F50 : is_float 50) by (apply (is_float_small 50); lia).
  assert (B1 : (- 2 ^ 6 <= 1)%Q) by (vm_compute; discriminate).
  assert (B50 : (50 <= 2 ^ 6)%Q) by (vm_compute; discriminate).
  destruct (rnd_range (100 - q) 1 50 6 ltac:(lia) F1 F50 B1 B50
              ltac:(lra) ltac:(lra)) as (s & Es & Hs & Hs1 & Hs50).
  rewrite Es. unfold f_mul.
  pose proof c001_pos as Hc. pose proof c001_lower as Hc'.
  assert (Hlo : (c001 <= s * c001)%Q).
  { assert (H : (0 <= (s - 1) * c001)%Q) by (apply Qmult_le_0_compat; lra).
    lra. }
  assert (Hhi : (s * c001 <= 50 * c001)%Q).
  { assert (H : (0 <= (50 - s) * c001)%Q) by (apply Qmult_le_0_compat; lra).
    lra. }
  destruct (rnd_bounded (s * c001) 0 ltac:(lia)) as (d & Ed & Hd).
  { apply Qabs_Qle_condition. change (2 ^ 0)%Q with 1%Q.
    assert (50 * c001 <= 1)%Q by (vm_compute; discriminate). split; lra. }
  exists d. split; [exact Ed|].
  assert (E : (rndq (s * c001) == rndq (rndq (100 - q) * c001))%Q).
  { apply rndq_comp. rewrite Hs. reflexivity. }
  split; [rewrite Hd; exact E|]. rewrite Hd. split.
  - apply rndq_ge; [apply is_float_c001 | exact Hlo].
  - rewrite <- rndq_50_c001. apply rndq_mono. exact Hhi.
Qed.

(** The divisor of the branch [1 <= level < 50]. *)
Lemma divisor_off_fin (q : Q) :
  (1 <= q)%Q -> (q <= 50)%Q ->
  exists d, divisor_off q = Fin d /\ (d == rndq (q * c001))%Q /\
            (c001 <= d)%Q /\ (d <= 1 # 2)%Q.
Proof.
  intros H1 H50. unfold divisor_off, f_mul.
  pose proof c001_pos as Hc.
  assert (Hlo : (c001 <= q * c001)%Q).
  { assert (H : (0 <= (q - 1) * c001)%Q) by (apply Qmult_le_0_compat; lra).
    lra. }
  assert (Hhi : (q * c001 <= 50 * c001)%Q).
  { assert (H : (0 <= (50 - q) * c001)%Q) by (apply Qmult_le_0_compat; lra).
    lra. }
  destruct (rnd_bounded (q * c001) 0 ltac:(lia)) as (d & Ed & Hd).
  { apply Qabs_Qle_condition. change (2 ^ 0)%Q with 1%Q.
    assert (50 * c001 <= 1)%Q by (vm_compute; discriminate). split; lra. }
  exists d. split; [exact Ed|]. split; [exact Hd|]. rewrite Hd. split.
  - apply rndq_ge; [apply is_float_c001 | exact Hlo].
  - rewrite <- rndq_50_c001. apply rndq_mono. exact Hhi.
Qed.

Lemma divisor_on_not_zero (q : Q) :
  (50 <= q)%Q -> (q <= 99)%Q -> f_is_zero (divisor_on q) = false.
Proof.
  intros H50 H99. destruct (divisor_on_fin q H50 H99) as (d & E & _ & Hd & _).
  rewrite E. apply f_is_zero_pos. pose proof c001_pos. lra.
Qed.

Lemma divisor_off_not_zero (q : Q) :
  (1 <= q)%Q -> (q < 50)%Q -> f_is_zero (divisor_off q) = false.
Proof.
  intros H1 H50.
  destruct (divisor_off_fin q H1 ltac:(lra)) as (d & E & _ & Hd & _).
  rewrite E. apply f_is_zero_pos. pose proof c001_pos. lra.
Qed.

(** The minimum pulse width as a float. *)
Lemma int_to_float_fin (M : Z) :
  Z.abs M <= 2 ^ 1000 ->
  exists m, int_to_float M = Ok (Fin m) /\ (m == rndq (inject_Z M))%Q /\
            (Qabs m <= 2 ^ 1000)%Q.
Proof.
  intros HM.
  assert (Hb : (Qabs (inject_Z M) <= 2 ^ 1000)%Q).
  { rewrite <- (pow2_Z 1000) by lia.
    change (Qabs (inject_Z M)) with (inject_Z (Z.abs M)).
    rewrite <- Zle_Qle. exact HM. }
  destruct (rnd_bounded (inject_Z M) 1000 ltac:(lia) Hb) as (m & Em & Hm).
  exists m. unfold int_to_float. rewrite Em.
  split; [reflexivity|]. split; [exact Hm|].
  rewrite Hm. apply rndq_abs_le; [apply is_float_big; lia | exact Hb].
Qed.

Lemma int_to_float_exact (M : Z) :
  Z.abs M <= 2 ^ 53 ->
  exists m, int_to_float M = Ok (Fin m) /\ (m == inject_Z M)%Q.
Proof.
  intros HM.
  destruct (int_to_float_fin M) as (m & Em & Hm & _).
  { assert (2 ^ 53 <= 2 ^ 1000) by (apply Z.pow_le_mono_r; lia). lia. }
  exists m. split; [exact Em|]. rewrite Hm. apply rndq_exact.
  apply is_float_Z. exact HM.
Qed.

(** The quotient of the two floats. *)
Lemma f_quot_fin (m d : Q) :
  (Qabs m <= 2 ^ 1000)%Q -> (c001 <= d)%Q ->
  exists x, f_quot (Fin m) (Fin d) = Fin x /\ (x == rndq (m / d))%Q.
Proof.
  intros Hm Hd. unfold f_quot. apply (rnd_bounded _ 1007); [lia|].
  pose proof c001_lower as Hc.
  assert (Hd0 : (0 < d)%Q) by lra.
  assert (Hdz : ~ (d == 0)%Q) by (intros E; rewrite E in Hd0; lra).
  unfold Qdiv. rewrite Qabs_Qmult.
  assert (Hi : (Qabs (/ d) <= 100)%Q).
  { rewrite Qabs_pos by (apply Qlt_le_weak, Qinv_lt_0_compat; exact Hd0).
    apply Qle_shift_inv_r; [exact Hd0 | lra]. }
  assert (E : (2 ^ 1007 == 2 ^ 1000 * 128)%Q).
  { rewrite (pow2_add 1000 7). reflexivity. }
  rewrite E.
  apply Qle_trans with (2 ^ 1000 * 100)%Q.
  - apply Qmult_le_compat_nonneg; split; try apply Qabs_nonneg; assumption.
  - assert (0 < 2 ^ 1000)%Q by apply pow2_pos. lra.
Qed.
(** ** The four branches of [new_power_level] *)

(** Both directions of the change end in the same world: case analysis
    on the previous level closes the branch. *)
Ltac by_direction w q :=
  let y := fresh "y" in
  destruct (power_level (powc w)) as [y | | |]; cbn;
  try destruct (Qlt_bool y q); reflexivity.

Lemma new_power_level_always_on w q :
  (99 < q)%Q ->
  new_power_level (Fin q) w = (Ok tt, committed (Fin q) 999999 0 [] w).
Proof.
  intros H. unfold new_power_level. cbn.
  apply Qlt_bool_iff in H. rewrite H. cbn.
  unfold committed. cbn.
  by_direction w q.
Qed.

Lemma new_power_level_always_off w q :
  (q < 1)%Q ->
  new_power_level (Fin q) w = (Ok tt, committed (Fin q) 0 999999 [] w).
Proof.
  intros H. unfold new_power_level. cbn.
  assert (Hb : Qlt_bool 99 q = false) by (apply Qlt_bool_false; lra).
  rewrite Hb.
  assert (Hc : f_ge (Fin q) (Fin 50) = false) by (apply f_ge_Fin_false; lra).
  rewrite Hc.
  assert (Hd : f_ge (Fin q) (Fin 1) = false) by (apply f_ge_Fin_false; exact H).
  rewrite Hd. cbn. unfold committed. cbn.
  by_direction w q.
Qed.

(** The branch [50 <= level <= 99], step by step: the conversion of [M]
    to a float, the division, and [int] of the quotient. *)
Lemma new_power_level_mostly_on_steps w q :
  (50 <= q)%Q -> (q <= 99)%Q ->
  let M := minimum_pulse_ms (powc w) in
  new_power_level (Fin q) w =
    match int_to_float M with
    | Raise e => (Raise e, attempted (Fin q) (on_ms (powc w)) [divisor_on q] w)
    | Ok m =>
        match py_int (f_quot m (divisor_on q)) with
        | Raise e =>
            (Raise e, attempted (Fin q) (on_ms (powc w)) [divisor_on q] w)
        | Ok n => (Ok tt, committed (Fin q) (n - M) M [divisor_on q] w)
        end
    end.
Proof.
  intros H50 H99 M. unfold new_power_level. cbn.
  assert (Hb : Qlt_bool 99 q = false) by (apply Qlt_bool_false; exact H99).
  rewrite Hb.
  assert (Hc : f_ge (Fin q) (Fin 50) = true) by (apply f_ge_Fin; exact H50).
  rewrite Hc. unfold truediv. cbn.
  fold (divisor_on q). fold M.
  rewrite (divisor_on_not_zero q H50 H99).
  destruct (int_to_float M) as [m | e]; [|reflexivity].
  unfold bind, lift, modify, ret. cbn.
  destruct (f_quot m (divisor_on q)) as [x | | |]; cbn; try reflexivity.
  unfold committed. cbn. fold M.
  by_direction w q.
Qed.

(** The branch [1 <= level < 50]: [on_ms] is assigned before the
    division. *)
Lemma new_power_level_mostly_off_steps w q :
  (1 <= q)%Q -> (q < 50)%Q ->
  let M := minimum_pulse_ms (powc w) in
  new_power_level (Fin q) w =
    match int_to_float M with
    | Raise e => (Raise e, attempted (Fin q) M [divisor_off q] w)
    | Ok m =>
        match py_int (f_quot m (divisor_off q)) with
        | Raise e => (Raise e, attempted (Fin q) M [divisor_off q] w)
        | Ok n => (Ok tt, committed (Fin q) M (n - M) [divisor_off q] w)
        end
    end.
Proof.
  intros H1 H50 M. unfold new_power_level. cbn.
  assert (Hb : Qlt_bool 99 q = false) by (apply Qlt_bool_false; lra).
  rewrite Hb.
  assert (Hc : f_ge (Fin q) (Fin 50) = false) by (apply f_ge_Fin_false; exact H50).
  rewrite Hc.
  assert (Hd : f_ge (Fin q) (Fin 1) = true) by (apply f_ge_Fin; exact H1).
  rewrite Hd. unfold truediv. cbn.
  fold (divisor_off q). fold M.
  rewrite (divisor_off_not_zero q H1 H50).
  destruct (int_to_float M) as [m | e]; [|reflexivity].
  unfold bind, lift, modify, ret. cbn.
  destruct (f_quot m (divisor_off q)) as [x | | |]; cbn; try reflexivity.
  unfold committed. cbn. fold M.
  by_direction w q.
Qed.

Lemma ratio_on_value (M : Z) (q m d x : Q) :
  (m == rndq (inject_Z M))%Q -> (d == rndq (rndq (100 - q) * c001))%Q ->
  (x == rndq (m / d))%Q -> Qtrunc x = Qtrunc (ratio_on M q).
Proof.
  intros Hm Hd Hx. apply Qtrunc_comp. rewrite Hx. unfold ratio_on.
  apply rndq_comp. rewrite Hm, Hd. reflexivity.
Qed.

Lemma ratio_off_value (M : Z) (q m d x : Q) :
  (m == rndq (inject_Z M))%Q -> (d == rndq (q * c001))%Q ->
  (x == rndq (m / d))%Q -> Qtrunc x = Qtrunc (ratio_off M q).
Proof.
  intros Hm Hd Hx. apply Qtrunc_comp. rewrite Hx. unfold ratio_off.
  apply rndq_comp. rewrite Hm, Hd. reflexivity.
Qed.

Lemma new_power_level_mostly_on w q :
  (50 <= q)%Q -> (q <= 99)%Q ->
  let M := minimum_pulse_ms (powc w) in
  Z.abs M <= 2 ^ 1000 ->
  new_power_level (Fin q) w =
    (Ok tt, committed (Fin q) (Qtrunc (ratio_on M q) - M) M
              [divisor_on q] w).
Proof.
  intros H50 H99 M HM.
  rewrite (new_power_level_mostly_on_steps w q H50 H99). fold M.
  destruct (int_to_float_fin M HM) as (m & Em & Hm & Hmb).
  destruct (divisor_on_fin q H50 H99) as (d & Ed & Hd & Hdlo & _).
  destruct (f_quot_fin m d Hmb Hdlo) as (x & Ex & Hx).
  rewrite Em, Ed, Ex. cbn [py_int].
  rewrite (ratio_on_value M q m d x Hm Hd Hx). reflexivity.
Qed.

Lemma new_power_level_mostly_off w q :
  (1 <= q)%Q -> (q < 50)%Q ->
  let M := minimum_pulse_ms (powc w) in
  Z.abs M <= 2 ^ 1000 ->
  new_power_level (Fin q) w =
    (Ok tt, committed (Fin q) M (Qtrunc (ratio_off M q) - M)
              [divisor_off q] w).
Proof.
  intros H1 H50 M HM.
  rewrite (new_power_level_mostly_off_steps w q H1 H50). fold M.
  destruct (int_to_float_fin M HM) as (m & Em & Hm & Hmb).
  destruct (divisor_off_fin q H1 ltac:(lra)) as (d & Ed & Hd & Hdlo & _).
  destruct (f_quot_fin m d Hmb Hdlo) as (x & Ex & Hx).
  rewrite Em, Ed, Ex. cbn [py_int].
  rewrite (ratio_off_value M q m d x Hm Hd Hx). reflexivity.
Qed.

Lemma new_power_level_inf (w : world) :
  new_power_level PInf w =
    (Raise OverflowError, committed PInf 999999 0 [] w).
Proof.
  unfold new_power_level, committed. cbn.
  destruct (power_level (powc w)); reflexivity.
Qed.

Lemma new_power_level_not_a_level (level : pyfloat) (w : world) :
  level = NInf \/ level = NaN ->
  new_power_level level w =
    (Raise (match level with NaN => ValueError | _ => OverflowError end),
     committed level 0 999999 [] w).
Proof.
  intros [-> | ->]; unfold new_power_level, committed; cbn;
    destruct (power_level (powc w)); reflexivity.
Qed.

(** Whatever the level, the world [new_power_level] leaves is committed
    to some plan, unless the computation of the plan raised. *)
Lemma new_power_level_outcome (level : pyfloat) (w : world) :
  (exists on off ds,
     snd (new_power_level level w) = committed level on off ds w) \/
  (exists e on ds,
     new_power_level level w = (Raise e, attempted level on ds w) /\
     e <> ZeroDivisionError).
Proof.
  destruct level as [q | | |].
  - destruct (Qlt_le_dec 99 q) as [H99 | H99].
    { left. eexists _, _, _. rewrite (new_power_level_always_on w q H99).
      reflexivity. }
    destruct (Qlt_le_dec q 50) as [H50 | H50].
    + destruct (Qlt_le_dec q 1) as [H1 | H1].
      { left. eexists _, _, _. rewrite (new_power_level_always_off w q H1).
        reflexivity. }
      rewrite (new_power_level_mostly_off_steps w q H1 H50).
      unfold int_to_float.
      destruct (rnd (inject_Z (minimum_pulse_ms (powc w)))) as [m | | |];
        try (right; eexists _, _, _; split; [reflexivity | discriminate]).
      destruct (f_quot (Fin m) (divisor_off q)) as [x | | |]; cbn [py_int];
        try (right; eexists _, _, _; split; [reflexivity | discriminate]).
      left. eexists _, _, _. reflexivity.
    + rewrite (new_power_level_mostly_on_steps w q H50 H99).
      unfold int_to_float.
      destruct (rnd (inject_Z (minimum_pulse_ms (powc w)))) as [m | | |];
        try (right; eexists _, _, _; split; [reflexivity | discriminate]).
      destruct (f_quot (Fin m) (divisor_on q)) as [x | | |]; cbn [py_int];
        try (right; eexists _, _, _; split; [reflexivity | discriminate]).
      left. eexists _, _, _. reflexivity.
  - left. eexists _, _, _. rewrite new_power_level_inf. reflexivity.
  - left. eexists _, _, _.
    rewrite (new_power_level_not_a_level NInf w ltac:(left; reflexivity)).
    reflexivity.
  - left. eexists _, _, _.
    rewrite (new_power_level_not_a_level NaN w ltac:(right; reflexivity)).
    reflexivity.
Qed.

(** With a minimum pulse width that the floats can hold, the plan is
    always computed. *)
Lemma new_power_level_commits (level : pyfloat) (w : world) :
  Z.abs (minimum_pulse_ms (powc w)) <= 2 ^ 1000 ->
  exists on off ds,
    snd (new_power_level level w) = committed level on off ds w.
Proof.
  intros HM. destruct level as [q | | |].
  - destruct (Qlt_le_dec 99 q) as [H99 | H99].
    { eexists _, _, _. rewrite (new_power_level_always_on w q H99). reflexivity. }
    destruct (Qlt_le_dec q 50) as [H50 | H50].
    + destruct (Qlt_le_dec q 1) as [H1 | H1].
      * eexists _, _, _. rewrite (new_power_level_always_off w q H1). reflexivity.
      * eexists _, _, _.
        rewrite (new_power_level_mostly_off w q H1 H50 HM). reflexivity.
    + eexists _, _, _.
      rewrite (new_power_level_mostly_on w q H50 H99 HM). reflexivity.
  - eexists _, _, _. rewrite new_power_level_inf. reflexivity.
  - eexists _, _, _.
    rewrite (new_power_level_not_a_level NInf w ltac:(left; reflexivity)).
    reflexivity.
  - eexists _, _, _.
    rewrite (new_power_level_not_a_level NaN w ltac:(right; reflexivity)).
    reflexivity.
Qed.

(** For a finite level the call returns. *)
Lemma new_power_level_returns (q : Q) (w : world) :
  Z.abs (minimum_pulse_ms (powc w)) <= 2 ^ 1000 ->
  fst (new_power_level (Fin q) w) = Ok tt.
Proof.
  intros HM.
  destruct (Qlt_le_dec 99 q) as [H99 | H99].
  { rewrite (new_power_level_always_on w q H99). reflexivity. }
  destruct (Qlt_le_dec q 50) as [H50 | H50].
  - destruct (Qlt_le_dec q 1) as [H1 | H1].
    + rewrite (new_power_level_always_off w q H1). reflexivity.
    + rewrite (new_power_level_mostly_off w q H1 H50 HM). reflexivity.
  - rewrite (new_power_level_mostly_on w q H50 H99 HM). reflexivity.
Qed.

(** No level makes [new_power_level] divide by zero. *)
Lemma new_power_level_no_zero_division (level : pyfloat) (w : world) :
  fst (new_power_level level w) <> Raise ZeroDivisionError.
Proof.
  destruct level as [q | | |].
  - destruct (Qlt_le_dec 99 q) as [H99 | H99].
    { rewrite (new_power_level_always_on w q H99). discriminate. }
    destruct (Qlt_le_dec q 50) as [H50 | H50].
    + destruct (Qlt_le_dec q 1) as [H1 | H1].
      { rewrite (new_power_level_always_off w q H1). discriminate. }
      rewrite (new_power_level_mostly_off_steps w q H1 H50).
      unfold int_to_float.
      destruct (rnd (inject_Z (minimum_pulse_ms (powc w)))) as [m | | |];
        try discriminate.
      destruct (f_quot (Fin m) (divisor_off q)) as [x | | |]; discriminate.
    + rewrite (new_power_level_mostly_on_steps w q H50 H99).
      unfold int_to_float.
      destruct (rnd (inject_Z (minimum_pulse_ms (powc w)))) as [m | | |];
        try discriminate.
      destruct (f_quot (Fin m) (divisor_on q)) as [x | | |]; discriminate.
  - rewrite new_power_level_inf. discriminate.
  - rewrite (new_power_level_not_a_level NInf w ltac:(left; reflexivity)).
    discriminate.
  - rewrite (new_power_level_not_a_level NaN w ltac:(right; reflexivity)).
    discriminate.
Qed.
(** ** The numbers of a pulse plan *)

Lemma inject_Z_nonneg (z : Z) : 0 <= z -> (0 <= inject_Z z)%Q.
Proof. intros H. unfold Qle; cbn. lia. Qed.

Lemma inject_Z_pos (z : Z) : 0 < z -> (0 < inject_Z z)%Q.
Proof. intros H. unfold Qlt; cbn. lia. Qed.

(** A fraction is within [1 / n] of [t] when, scaled by [n], it is within
    [1] of [t * n]. *)
Lemma Qabs_scaled (a n t : Q) :
  (0 < n)%Q -> (t * n - 1 < a)%Q -> (a < t * n + 1)%Q ->
  (Qabs (a / n - t) < 1 / n)%Q.
Proof.
  intros Hn Hlo Hhi.
  assert (Hnz : ~ (n == 0)%Q).
  { intros H0. rewrite H0 in Hn. apply (Qlt_irrefl _ Hn). }
  assert (E1 : (- (1 / n) * n == - (1))%Q) by (field; exact Hnz).
  assert (E2 : ((a / n - t) * n == a - t * n)%Q) by (field; exact Hnz).
  assert (E3 : (1 / n * n == 1)%Q) by (field; exact Hnz).
  apply Qabs_Qlt_condition. split.
  - apply (Qmult_lt_r _ _ n Hn). rewrite E1, E2. lra.
  - apply (Qmult_lt_r _ _ n Hn). rewrite E2, E3. lra.
Qed.

(** The relative error of one rounding, for a positive number that is
    not subnormal. *)
Lemma rndq_relative (x : Q) :
  (1 # 1000 <= x)%Q ->
  (x * (1 - (1 # 9007199254740992)) <= rndq x)%Q /\
  (rndq x <= x * (1 + (1 # 9007199254740992)))%Q.
Proof.
  intros Hx.
  assert (Hs : (2 ^ (-1022) <= 1 # 1000)%Q) by (vm_compute; discriminate).
  assert (Ha : (Qabs x == x)%Q) by (apply Qabs_pos; lra).
  pose proof (rndq_error x) as H. rewrite Ha in H.
  specialize (H ltac:(lra)).
  assert (Eu : (2 ^ (-53) == 1 # 9007199254740992)%Q) by reflexivity.
  rewrite Eu in H. apply Qabs_Qle_condition in H. lra.
Qed.

(** The quotient [M / d] as a float, for a divisor [d] that is the
    float of [s * 0.01] and an [s] within one rounding of [A]: its
    integer bounds, and its distance from [100 * M / A]. *)
Lemma quotient_bounds (M : Z) (A s d : Q) :
  0 < M <= 2 ^ 44 -> (1 <= A)%Q -> (A <= 50)%Q ->
  (A * (1 - (1 # 9007199254740992)) <= s)%Q ->
  (s <= A * (1 + (1 # 9007199254740992)))%Q ->
  (d == rndq (s * c001))%Q -> (c001 <= d)%Q -> (d <= 1 # 2)%Q ->
  let x := rndq (inject_Z M / d) in
  (inject_Z (2 * M) <= x)%Q /\ (x <= inject_Z (100 * M))%Q /\
  (100 * inject_Z M * (1 - (5 # 9007199254740992)) <= x * A)%Q /\
  (x * A <= 100 * inject_Z M * (1 + (5 # 9007199254740992)))%Q.
Proof.
  intros [HM0 HM] HA1 HA50 Hs1 Hs2 Hd Hdlo Hdhi x.
  pose proof c001_lower as Hc. pose proof (inject_Z_pos M HM0) as Hm.
  assert (Hm1 : (1 <= inject_Z M)%Q).
  { change 1%Q with (inject_Z 1). rewrite <- Zle_Qle. lia. }
  assert (Hd0 : (0 < d)%Q) by lra.
  assert (Hdz : ~ (d == 0)%Q) by (intros E; rewrite E in Hd0; lra).
  set (y := (inject_Z M / d)%Q) in *.
  assert (Ey : (y * d == inject_Z M)%Q) by (unfold y; field; exact Hdz).
  assert (Hy2 : (inject_Z (2 * M) <= y)%Q).
  { apply Qle_shift_div_l; [exact Hd0|]. rewrite inject_Z_mult.
    change (inject_Z 2) with 2%Q.
    assert (H : (0 <= inject_Z M * ((1 # 2) - d))%Q)
      by (apply Qmult_le_0_compat; lra).
    lra. }
  assert (Hy100 : (y <= inject_Z (100 * M))%Q).
  { apply Qle_shift_div_r; [exact Hd0|]. rewrite inject_Z_mult.
    change (inject_Z 100) with 100%Q.
    assert (H : (0 <= inject_Z M * (d - (1 # 100)))%Q)
      by (apply Qmult_le_0_compat; lra).
    lra. }
  assert (P53 : 2 ^ 44 * 100 <= 2 ^ 53) by (vm_compute; discriminate).
  assert (Hx2 : (inject_Z (2 * M) <= x)%Q).
  { apply rndq_ge; [apply is_float_Z; lia | exact Hy2]. }
  assert (Hx100 : (x <= inject_Z (100 * M))%Q).
  { apply rndq_le; [apply is_float_Z; lia | exact Hy100]. }
  split; [exact Hx2|]. split; [exact Hx100|].
  assert (Hy1 : (1 <= y)%Q).
  { rewrite inject_Z_mult in Hy2. change (inject_Z 2) with 2%Q in Hy2. lra. }
  destruct (rndq_relative y ltac:(lra)) as [X1 X2]. fold x in X1, X2.
  assert (Hp : (1 # 1000 <= s * c001)%Q).
  { unfold c001. lra. }
  destruct (rndq_relative (s * c001) Hp) as [D1 D2].
  rewrite <- Hd in D1, D2. unfold c001 in D1, D2.
  assert (K1 : (A * ((1 - (3 # 9007199254740992)) * (1 # 100)) <= d)%Q) by lra.
  assert (K2 : (d <= A * ((1 + (4 # 9007199254740992)) * (1 # 100)))%Q) by lra.
  assert (Hx0 : (0 <= x)%Q).
  { rewrite inject_Z_mult in Hx2. change (inject_Z 2) with 2%Q in Hx2. lra. }
  assert (G1 : (0 <= (y * (1 + (1 # 9007199254740992)) - x) * d)%Q)
    by (apply Qmult_le_0_compat; lra).
  assert (G2 : (0 <= (x - y * (1 - (1 # 9007199254740992))) * d)%Q)
    by (apply Qmult_le_0_compat; lra).
  assert (G3 : (0 <= x * (d - A * ((1 - (3 # 9007199254740992)) * (1 # 100))))%Q)
    by (apply Qmult_le_0_compat; lra).
  assert (G4 : (0 <= x * (A * ((1 + (4 # 9007199254740992)) * (1 # 100)) - d))%Q)
    by (apply Qmult_le_0_compat; lra).
  split; lra.
Qed.
Lemma Qtrunc_floor_bounds (x : Q) :
  (0 <= x)%Q ->
  (inject_Z (Qtrunc x) <= x)%Q /\ (x < inject_Z (Qtrunc x) + 1)%Q.
Proof.
  intros Hx. rewrite (Qtrunc_floor x Hx). split; [apply Qfloor_le|].
  pose proof (Qlt_floor x) as H. rewrite inject_Z_plus in H. exact H.
Qed.

Lemma Qtrunc_between (a b : Z) (x : Q) :
  0 <= a -> (inject_Z a <= x)%Q -> (x <= inject_Z b)%Q ->
  a <= Qtrunc x <= b.
Proof.
  intros Ha Hax Hxb.
  assert (Hx : (0 <= x)%Q).
  { apply Qle_trans with (inject_Z a); [|exact Hax].
    apply inject_Z_nonneg. exact Ha. }
  rewrite (Qtrunc_floor x Hx). split.
  - rewrite <- (Qfloor_Z a). apply Qfloor_resp_le. exact Hax.
  - rewrite <- (Qfloor_Z b). apply Qfloor_resp_le. exact Hxb.
Qed.

(** The float of the quotient in the branch [50 <= level <= 99]. *)
Lemma ratio_on_bounds (M : Z) (q : Q) :
  0 < M <= 2 ^ 44 -> (50 <= q)%Q -> (q <= 99)%Q ->
  let x := ratio_on M q in
  (inject_Z (2 * M) <= x)%Q /\ (x <= inject_Z (100 * M))%Q /\
  (100 * inject_Z M * (1 - (5 # 9007199254740992)) <= x * (100 - q))%Q /\
  (x * (100 - q) <= 100 * inject_Z M * (1 + (5 # 9007199254740992)))%Q.
Proof.
  intros HM H50 H99 x.
  destruct (divisor_on_fin q H50 H99) as (d & _ & Hd & Hdlo & Hdhi).
  destruct (rndq_relative (100 - q) ltac:(lra)) as [S1 S2].
  assert (P : 2 ^ 44 <= 2 ^ 53) by (vm_compute; discriminate).
  assert (Ex : (x == rndq (inject_Z M / d))%Q).
  { unfold x, ratio_on. apply rndq_comp.
    rewrite (rndq_exact (inject_Z M)) by (apply is_float_Z; lia).
    rewrite Hd. reflexivity. }
  pose proof (quotient_bounds M (100 - q) (rndq (100 - q)) d HM
                ltac:(lra) ltac:(lra) S1 S2 Hd Hdlo Hdhi) as B.
  cbv zeta in B. rewrite <- Ex in B. exact B.
Qed.

(** The float of the quotient in the branch [1 <= level < 50]. *)
Lemma ratio_off_bounds (M : Z) (q : Q) :
  0 < M <= 2 ^ 44 -> (1 <= q)%Q -> (q <= 50)%Q ->
  let x := ratio_off M q in
  (inject_Z (2 * M) <= x)%Q /\ (x <= inject_Z (100 * M))%Q /\
  (100 * inject_Z M * (1 - (5 # 9007199254740992)) <= x * q)%Q /\
  (x * q <= 100 * inject_Z M * (1 + (5 # 9007199254740992)))%Q.
Proof.
  intros HM H1 H50 x.
  destruct (divisor_off_fin q H1 H50) as (d & _ & Hd & Hdlo & Hdhi).
  assert (P : 2 ^ 44 <= 2 ^ 53) by (vm_compute; discriminate).
  assert (Ex : (x == rndq (inject_Z M / d))%Q).
  { unfold x, ratio_off. apply rndq_comp.
    rewrite (rndq_exact (inject_Z M)) by (apply is_float_Z; lia).
    rewrite Hd. reflexivity. }
  pose proof (quotient_bounds M q q d HM H1 H50 ltac:(lra) ltac:(lra)
                Hd Hdlo Hdhi) as B.
  cbv zeta in B. rewrite <- Ex in B. exact B.
Qed.

(** The integer part [N] of a quotient [x] near [100 * M / A]: the pulse
    [N - M] against the exact [M * (100 - A) / A], and the share of [M]
    in [N] against [A / 100]. *)
Lemma pulse_bounds (M : Z) (A x : Q) :
  0 < M <= 2 ^ 44 -> (1 <= A)%Q -> (A <= 50)%Q ->
  (inject_Z (2 * M) <= x)%Q -> (x <= inject_Z (100 * M))%Q ->
  (100 * inject_Z M * (1 - (5 # 9007199254740992)) <= x * A)%Q ->
  (x * A <= 100 * inject_Z M * (1 + (5 # 9007199254740992)))%Q ->
  let N := Qtrunc x in
  2 * M <= N <= 100 * M /\
  (inject_Z M * (100 - A) / A - 1 - float_error M < inject_Z (N - M))%Q /\
  (inject_Z (N - M) <= inject_Z M * (100 - A) / A + float_error M)%Q /\
  (inject_Z N * A - 100 < 100 * inject_Z M)%Q /\
  (100 * inject_Z M < inject_Z N * A + 100)%Q.
Proof.
  intros [HM0 HM] HA1 HA50 Hx2 Hx100 B1 B2 N.
  pose proof (inject_Z_pos M HM0) as Hm.
  assert (Hm44 : (inject_Z M <= 17592186044416)%Q).
  { change 17592186044416%Q with (inject_Z (2 ^ 44)). rewrite <- Zle_Qle.
    exact HM. }
  assert (HN : 2 * M <= N <= 100 * M)
    by (apply Qtrunc_between; [lia | exact Hx2 | exact Hx100]).
  split; [exact HN|].
  assert (Hx0 : (0 <= x)%Q).
  { apply Qle_trans with (inject_Z (2 * M)); [|exact Hx2].
    apply inject_Z_nonneg. lia. }
  destruct (Qtrunc_floor_bounds x Hx0) as [F1 F2]. fold N in F1, F2.
  assert (G1 : (0 <= (x - inject_Z N) * A)%Q)
    by (apply Qmult_le_0_compat; lra).
  assert (G2 : (0 < (inject_Z N + 1 - x) * A)%Q)
    by (apply Qmult_lt_0_compat; lra).
  assert (G3 : (0 <= float_error M * (A - 1))%Q).
  { apply Qmult_le_0_compat; [unfold float_error|]; lra. }
  assert (HAz : ~ (A == 0)%Q) by (intros E; rewrite E in HA1; lra).
  set (T := (inject_Z M * (100 - A) / A)%Q).
  assert (ET : (T * A == inject_Z M * (100 - A))%Q)
    by (unfold T; field; exact HAz).
  rewrite inject_Z_minus.
  unfold float_error in *.
  split; [|split; [|split]].
  - apply (Qmult_lt_r _ _ A); [lra|]. lra.
  - apply (Qmult_le_r _ _ A); [lra|]. lra.
  - lra.
  - lra.
Qed.

Lemma plan_mostly_on (M : Z) (q : Q) :
  0 < M <= 2 ^ 44 -> (50 <= q)%Q -> (q <= 99)%Q ->
  let on := Qtrunc (ratio_on M q) - M in
  M <= on <= 99 * M /\
  (inject_Z M * q / (100 - q) - 1 - float_error M < inject_Z on)%Q /\
  (inject_Z on <= inject_Z M * q / (100 - q) + float_error M)%Q /\
  (Qabs (inject_Z on / inject_Z (on + M) - q / 100) < 1 / inject_Z (on + M))%Q.
Proof.
  intros HM H50 H99 on.
  destruct (ratio_on_bounds M q HM H50 H99) as (X2 & X100 & B1 & B2).
  pose proof (pulse_bounds M (100 - q) (ratio_on M q) HM ltac:(lra) ltac:(lra)
                X2 X100 B1 B2) as P.
  cbv zeta in P. fold on in P.
  set (N := Qtrunc (ratio_on M q)) in *.
  destruct P as (HN & P1 & P2 & P3 & P4).
  assert (E : (100 - (100 - q) == q)%Q) by ring.
  rewrite E in P1, P2.
  split; [unfold on; lia|]. split; [exact P1|]. split; [exact P2|].
  assert (Hsum : on + M = N) by (unfold on; lia).
  assert (Hn : (0 < inject_Z N)%Q) by (apply inject_Z_pos; lia).
  assert (Eq : (q / 100 == q * (1 # 100))%Q) by field.
  rewrite Hsum, Eq. unfold on. rewrite inject_Z_minus.
  apply Qabs_scaled; [exact Hn | lra | lra].
Qed.

Lemma plan_mostly_off (M : Z) (q : Q) :
  0 < M <= 2 ^ 44 -> (1 <= q)%Q -> (q < 50)%Q ->
  let off := Qtrunc (ratio_off M q) - M in
  M <= off <= 99 * M /\
  (inject_Z M * (100 - q) / q - 1 - float_error M < inject_Z off)%Q /\
  (inject_Z off <= inject_Z M * (100 - q) / q + float_error M)%Q /\
  (Qabs (inject_Z M / inject_Z (M + off) - q / 100) < 1 / inject_Z (M + off))%Q.
Proof.
  intros HM H1 H50 off.
  destruct (ratio_off_bounds M q HM H1 ltac:(lra)) as (X2 & X100 & B1 & B2).
  pose proof (pulse_bounds M q (ratio_off M q) HM H1 ltac:(lra)
                X2 X100 B1 B2) as P.
  cbv zeta in P. fold off in P.
  set (N := Qtrunc (ratio_off M q)) in *.
  destruct P as (HN & P1 & P2 & P3 & P4).
  split; [unfold off; lia|]. split; [exact P1|]. split; [exact P2|].
  assert (Hsum : M + off = N) by (unfold off; lia).
  assert (Hn : (0 < inject_Z N)%Q) by (apply inject_Z_pos; lia).
  assert (Eq : (q / 100 == q * (1 # 100))%Q) by field.
  rewrite Hsum, Eq.
  apply Qabs_scaled; [exact Hn | lra | lra].
Qed.
(** ** Claims about the pulse plan *)

(** C1.  For every requested level in [1, 99] and a minimum pulse width
    [M] from 1 to [2 ^ 44], [new_power_level] returns, and the plan it
    leaves has: for [50 <= level], [off = M] and [on] within the
    truncation to an integer and the rounding of the floats of
    [M * level / (100 - level)], that is, above that number less
    [1 + M / 2 ^ 44] and at most that number plus [M / 2 ^ 44]; for
    [level < 50], [on = M] and [off] as close to
    [M * (100 - level) / level]; the shorter of the two pulses is exactly
    [M]; and the duty cycle [on / (on + off)] is within [1 / (on + off)]
    of [level / 100]. *)
Theorem new_power_level_duty_cycle (w : world) (q : Q) :
  0 < minimum_pulse_ms (powc w) <= 2 ^ 44 -> (1 <= q)%Q -> (q <= 99)%Q ->
  let M := minimum_pulse_ms (powc w) in
  let w' := snd (new_power_level (Fin q) w) in
  let on := on_ms (powc w') in
  let off := off_ms (powc w') in
  fst (new_power_level (Fin q) w) = Ok tt /\
  ((50 <= q)%Q ->
     off = M /\
     (inject_Z M * q / (100 - q) - 1 - float_error M < inject_Z on)%Q /\
     (inject_Z on <= inject_Z M * q / (100 - q) + float_error M)%Q) /\
  ((q < 50)%Q ->
     on = M /\
     (inject_Z M * (100 - q) / q - 1 - float_error M < inject_Z off)%Q /\
     (inject_Z off <= inject_Z M * (100 - q) / q + float_error M)%Q) /\
  Z.min on off = M /\
  (Qabs (inject_Z on / inject_Z (on + off) - q / 100)
     < 1 / inject_Z (on + off))%Q.
Proof.
  intros HM H1 H99 M w' on off.
  assert (HM' : Z.abs M <= 2 ^ 1000).
  { assert (2 ^ 44 <= 2 ^ 1000) by (apply Z.pow_le_mono_r; lia).
    subst M. lia. }
  destruct (Qlt_le_dec q 50) as [Hlt | Hge].
  - pose proof (new_power_level_mostly_off w q H1 Hlt HM') as E.
    pose proof (plan_mostly_off M q HM H1 Hlt) as P. cbv zeta in P.
    destruct P as (P1 & P2 & P3 & P4).
    subst w' on off. rewrite E. unfold committed.
    cbn [fst snd powc on_ms off_ms]. fold M.
    split; [reflexivity|]. split; [|split; [|split]].
    + intros H50. exfalso. apply (Qlt_not_le _ _ Hlt H50).
    + intros _. split; [reflexivity|]. split; assumption.
    + lia.
    + exact P4.
  - pose proof (new_power_level_mostly_on w q Hge H99 HM') as E.
    pose proof (plan_mostly_on M q HM Hge H99) as P. cbv zeta in P.
    destruct P as (P1 & P2 & P3 & P4).
    subst w' on off. rewrite E. unfold committed.
    cbn [fst snd powc on_ms off_ms]. fold M.
    split; [reflexivity|]. split; [|split; [|split]].
    + intros _. split; [reflexivity|]. split; assumption.
    + intros Hlt. exfalso. apply (Qlt_not_le _ _ Hlt Hge).
    + lia.
    + exact P4.
Qed.

(** The level 93.6 on the script: the float nearest to 93.6 gives an on
    time of 29249 ms. *)
Lemma new_power_level_duty_cycle_witness :
  let q := (3293257227514675 # 35184372088832)%Q in
  0 < minimum_pulse_ms (powc (snd (main 0))) <= 2 ^ 44 /\
  (1 <= q)%Q /\ (q <= 99)%Q /\
  rnd (936 # 10) = Fin q /\
  fst (new_power_level (Fin q) (snd (main 0))) = Ok tt /\
  on_ms (powc (snd (new_power_level (Fin q) (snd (main 0))))) = 29249 /\
  off_ms (powc (snd (new_power_level (Fin q) (snd (main 0))))) = 2000.
Proof.
  cbv zeta.
  assert (H0 : 0 < minimum_pulse_ms (powc (snd (main 0))) <= 2 ^ 44)
    by (vm_compute; split; [reflexivity | discriminate]).
  assert (H1 : (1 <= 3293257227514675 # 35184372088832)%Q)
    by (vm_compute; discriminate).
  assert (H2 : (3293257227514675 # 35184372088832 <= 99)%Q)
    by (vm_compute; discriminate).
  split; [exact H0|]. split; [exact H1|]. split; [exact H2|].
  split; [vm_compute; reflexivity|].
  split; [exact (proj1 (new_power_level_duty_cycle (snd (main 0)) _ H0 H1 H2))|].
  split; vm_compute; reflexivity.
Defined.

Lemma new_power_level_mostly_on_divisor (w : world) (q : Q) :
  (50 <= q)%Q -> (q <= 99)%Q ->
  divisors (snd (new_power_level (Fin q) w)) = divisor_on q :: divisors w.
Proof.
  intros H50 H99. rewrite (new_power_level_mostly_on_steps w q H50 H99).
  destruct (int_to_float (minimum_pulse_ms (powc w))) as [m | e];
    [|reflexivity].
  destruct (py_int (f_quot m (divisor_on q))); reflexivity.
Qed.

Lemma new_power_level_mostly_off_divisor (w : world) (q : Q) :
  (1 <= q)%Q -> (q < 50)%Q ->
  divisors (snd (new_power_level (Fin q) w)) = divisor_off q :: divisors w /\
  on_ms (powc (snd (new_power_level (Fin q) w))) = minimum_pulse_ms (powc w).
Proof.
  intros H1 H50. rewrite (new_power_level_mostly_off_steps w q H1 H50).
  destruct (int_to_float (minimum_pulse_ms (powc w))) as [m | e];
    [|split; reflexivity].
  destruct (py_int (f_quot m (divisor_off q))); split; reflexivity.
Qed.

Lemma divisor_on_pos (q : Q) :
  (50 <= q)%Q -> (q <= 99)%Q ->
  exists x, divisor_on q = Fin x /\ (1 # 100 <= x)%Q.
Proof.
  intros H50 H99. destruct (divisor_on_fin q H50 H99) as (d & E & _ & Hd & _).
  exists d. split; [exact E|]. pose proof c001_lower. lra.
Qed.

Lemma divisor_off_pos (q : Q) :
  (1 <= q)%Q -> (q < 50)%Q ->
  exists x, divisor_off q = Fin x /\ (1 # 100 <= x)%Q.
Proof.
  intros H1 H50.
  destruct (divisor_off_fin q H1 ltac:(lra)) as (d & E & _ & Hd & _).
  exists d. split; [exact E|]. pose proof c001_lower. lra.
Qed.

(** C3.  For every finite level, [new_power_level] raises no
    [ZeroDivisionError], and returns when the minimum pulse width [M] is
    within the range of the floats: above 99 and below 1 it takes the
    always-on and the always-off plan and divides by nothing; from 50 to
    99, 50 included, it takes the [off = M] branch, whose only divisor is
    the float of [(100.0 - level) * 0.01] with [100 - level >= 1]; from 1
    up to 50, 1 included, it takes the [on = M] branch, whose only
    divisor is the float of [level * 0.01] with [level >= 1].  Every
    divisor it goes through is a finite float of at least [1 / 100]. *)
Theorem new_power_level_never_divides_by_zero (w : world) (q : Q) :
  let M := minimum_pulse_ms (powc w) in
  let w' := snd (new_power_level (Fin q) w) in
  fst (new_power_level (Fin q) w) <> Raise ZeroDivisionError /\
  (Z.abs M <= 2 ^ 1000 -> fst (new_power_level (Fin q) w) = Ok tt) /\
  (exists ds, divisors w' = ds ++ divisors w /\
     Forall (fun d => exists x, d = Fin x /\ (1 # 100 <= x)%Q) ds) /\
  ((99 < q)%Q ->
     fst (new_power_level (Fin q) w) = Ok tt /\
     on_ms (powc w') = 999999 /\ off_ms (powc w') = 0 /\
     divisors w' = divisors w) /\
  ((q < 1)%Q ->
     fst (new_power_level (Fin q) w) = Ok tt /\
     on_ms (powc w') = 0 /\ off_ms (powc w') = 999999 /\
     divisors w' = divisors w) /\
  ((50 <= q)%Q -> (q <= 99)%Q ->
     (Z.abs M <= 2 ^ 1000 -> off_ms (powc w') = M) /\
     divisors w' = divisor_on q :: divisors w /\
     (1 <= 100 - q)%Q) /\
  ((1 <= q)%Q -> (q < 50)%Q ->
     on_ms (powc w') = M /\
     divisors w' = divisor_off q :: divisors w /\
     (1 <= q)%Q).
Proof.
  intros M w'. subst w'.
  split; [apply new_power_level_no_zero_division|].
  split; [apply new_power_level_returns|].
  destruct (Qlt_le_dec 99 q) as [H99 | H99];
    [| destruct (Qlt_le_dec q 50) as [H50 | H50];
       [destruct (Qlt_le_dec q 1) as [H1 | H1] |]].
  - rewrite (new_power_level_always_on w q H99). cbn.
    split; [exists []; split; [reflexivity | constructor]|].
    repeat split; intros; try reflexivity; exfalso; lra.
  - rewrite (new_power_level_always_off w q H1). cbn.
    split; [exists []; split; [reflexivity | constructor]|].
    repeat split; intros; try reflexivity; exfalso; lra.
  - destruct (new_power_level_mostly_off_divisor w q H1 H50) as [Ed Eon].
    split.
    { exists [divisor_off q]. split; [exact Ed|].
      constructor; [|constructor]. apply divisor_off_pos; assumption. }
    split; [intros; exfalso; lra|]. split; [intros; exfalso; lra|].
    split; [intros; exfalso; lra|].
    intros _ _. split; [exact Eon|]. split; [exact Ed | exact H1].
  - pose proof (new_power_level_mostly_on_divisor w q H50 H99) as Ed.
    split.
    { exists [divisor_on q]. split; [exact Ed|].
      constructor; [|constructor]. apply divisor_on_pos; assumption. }
    split; [intros; exfalso; lra|]. split; [intros; exfalso; lra|].
    split; [|intros; exfalso; lra].
    intros _ _. split; [|split; [exact Ed | lra]].
    intros HM. rewrite (new_power_level_mostly_on w q H50 H99 HM).
    reflexivity.
Qed.

(** The two boundaries on the script: 50 takes the branch [off = M] and
    1 the branch [on = M]. *)
Example new_power_level_at_50 :
  let w' := snd (new_power_level (Fin 50) (snd (main 0))) in
  (on_ms (powc w'), off_ms (powc w')) = (2000, 2000).
Proof. vm_compute. reflexivity. Qed.

Example new_power_level_at_1 :
  let w' := snd (new_power_level (Fin 1) (snd (main 0))) in
  (on_ms (powc w'), off_ms (powc w')) = (2000, 198000).
Proof. vm_compute. reflexivity. Qed.

Example new_power_level_at_99 :
  let w' := snd (new_power_level (Fin 99) (snd (main 0))) in
  (on_ms (powc w'), off_ms (powc w')) = (198000, 2000).
Proof. vm_compute. reflexivity. Qed.

(** The direction of the change decides the output and its next flip. *)
Lemma new_power_level_switches (w : world) (q p : Q) :
  power_level (powc w) = Fin p ->
  Z.abs (minimum_pulse_ms (powc w)) <= 2 ^ 1000 ->
  let w' := snd (new_power_level (Fin q) w) in
  let now := current_time_ms (looper w) in
  ((p < q)%Q ->
     power_control_pin (powc w') = true /\ power_on (powc w') = true /\
     change_ms (powc w') = ticks_add now (on_ms (powc w'))) /\
  ((q <= p)%Q ->
     power_control_pin (powc w') = false /\ power_on (powc w') = false /\
     change_ms (powc w') = ticks_add now (off_ms (powc w'))).
Proof.
  intros Hp HM w' now.
  destruct (new_power_level_commits (Fin q) w HM) as (on & off & ds & E).
  subst w' now.
  rewrite E. unfold committed. cbn. rewrite Hp. cbn.
  split; intros H.
  - apply Qlt_bool_iff in H. rewrite H. repeat split.
  - apply Qlt_bool_false in H. rewrite H. repeat split.
Qed.

(** C5.  When [new_power_level] applies a finite level over a finite
    previous level, with a minimum pulse width within the range of the
    floats: a strictly higher level drives the output on and sets the
    next flip to the current time plus the on duration of the new plan; a
    lower or equal level drives the output off and sets the next flip to
    the current time plus the off duration. *)
Theorem new_power_level_direction (w : world) (q p : Q) :
  power_level (powc w) = Fin p ->
  Z.abs (minimum_pulse_ms (powc w)) <= 2 ^ 1000 ->
  let w' := snd (new_power_level (Fin q) w) in
  let now := current_time_ms (looper w) in
  fst (new_power_level (Fin q) w) = Ok tt /\
  ((p < q)%Q ->
     power_control_pin (powc w') = true /\ power_on (powc w') = true /\
     change_ms (powc w') = ticks_add now (on_ms (powc w'))) /\
  ((q <= p)%Q ->
     power_control_pin (powc w') = false /\ power_on (powc w') = false /\
     change_ms (powc w') = ticks_add now (off_ms (powc w'))).
Proof.
  intros Hp HM w' now.
  split; [apply new_power_level_returns; exact HM|].
  exact (new_power_level_switches w q p Hp HM).
Qed.

Lemma new_power_level_direction_witness :
  power_level (powc (snd (main 0))) = Fin 50 /\
  Z.abs (minimum_pulse_ms (powc (snd (main 0)))) <= 2 ^ 1000 /\
  power_control_pin (powc (snd (new_power_level (Fin 75) (snd (main 0))))) = true /\
  change_ms (powc (snd (new_power_level (Fin 75) (snd (main 0))))) = 6000.
Proof.
  assert (H0 : power_level (powc (snd (main 0))) = Fin 50)
    by (vm_compute; reflexivity).
  assert (HM : Z.abs (minimum_pulse_ms (powc (snd (main 0)))) <= 2 ^ 1000).
  { change (minimum_pulse_ms (powc (snd (main 0)))) with 2000.
    assert (2 ^ 11 <= 2 ^ 1000) by (apply Z.pow_le_mono_r; lia). lia. }
  split; [exact H0|]. split; [exact HM|].
  destruct (new_power_level_direction (snd (main 0)) 75 50 H0 HM)
    as (_ & Hup & _).
  assert (Hlt : (50 < 75)%Q) by (unfold Qlt; cbn; lia).
  destruct (Hup Hlt) as (Hpin & _ & Hchange).
  split; [exact Hpin|]. rewrite Hchange. vm_compute. reflexivity.
Defined.

(** The plan [new_power_level] leaves, by the branch it takes. *)
Lemma new_power_level_plan (w : world) (q : Q) :
  0 < minimum_pulse_ms (powc w) <= 2 ^ 44 ->
  let M := minimum_pulse_ms (powc w) in
  let c := powc (snd (new_power_level (Fin q) w)) in
  ((99 < q)%Q -> on_ms c = 999999 /\ off_ms c = 0) /\
  ((50 <= q)%Q -> (q <= 99)%Q ->
     off_ms c = M /\ on_ms c = Qtrunc (ratio_on M q) - M /\
     M <= on_ms c <= 99 * M /\
     (inject_Z M * q / (100 - q) - 1 - float_error M < inject_Z (on_ms c))%Q /\
     (inject_Z (on_ms c) <= inject_Z M * q / (100 - q) + float_error M)%Q) /\
  ((1 <= q)%Q -> (q < 50)%Q ->
     on_ms c = M /\ off_ms c = Qtrunc (ratio_off M q) - M /\
     M <= off_ms c <= 99 * M /\
     (inject_Z M * (100 - q) / q - 1 - float_error M < inject_Z (off_ms c))%Q /\
     (inject_Z (off_ms c) <= inject_Z M * (100 - q) / q + float_error M)%Q) /\
  ((q < 1)%Q -> on_ms c = 0 /\ off_ms c = 999999).
Proof.
  intros HM M c.
  assert (HM' : Z.abs M <= 2 ^ 1000).
  { assert (2 ^ 44 <= 2 ^ 1000) by (apply Z.pow_le_mono_r; lia).
    subst M. lia. }
  subst c. split; [|split; [|split]].
  - intros H99. rewrite (new_power_level_always_on w q H99).
    split; reflexivity.
  - intros H50 H99. rewrite (new_power_level_mostly_on w q H50 H99 HM').
    unfold committed. cbn [snd powc on_ms off_ms]. fold M.
    destruct (plan_mostly_on M q HM H50 H99) as (P1 & P2 & P3 & _).
    split; [reflexivity|]. split; [reflexivity|].
    split; [exact P1|]. split; assumption.
  - intros H1 H50. rewrite (new_power_level_mostly_off w q H1 H50 HM').
    unfold committed. cbn [snd powc on_ms off_ms]. fold M.
    destruct (plan_mostly_off M q HM H1 H50) as (P1 & P2 & P3 & _).
    split; [reflexivity|]. split; [reflexivity|].
    split; [exact P1|]. split; assumption.
  - intros H1. rewrite (new_power_level_always_off w q H1).
    split; reflexivity.
Qed.
(** ** The engine's poll *)

(** What [new_power_level] leaves alone, and the level it applies. *)
Lemma new_power_level_frame (level : pyfloat) (w : world) :
  let w' := snd (new_power_level level w) in
  looper w' = looper w /\ getc w' = getc w /\ pidc w' = pidc w /\
  power_level (powc w') = level /\
  standby (powc w') = standby (powc w) /\
  standby_timeout (powc w') = standby_timeout (powc w) /\
  standby_power_level (powc w') = standby_power_level (powc w) /\
  last_update_ms (powc w') = last_update_ms (powc w) /\
  power_settings (powc w') = power_settings (powc w) /\
  minimum_pulse_ms (powc w') = minimum_pulse_ms (powc w).
Proof.
  cbv zeta.
  destruct (new_power_level_outcome level w)
    as [(on & off & ds & E) | (e & on & ds & E & _)]; rewrite E.
  - unfold committed. cbn. repeat split.
  - unfold attempted. cbn. repeat split.
Qed.

Lemma set_standby_on_frame (w : world) :
  let w' := snd (set_standby_on w) in
  looper w' = looper w /\ getc w' = getc w /\ pidc w' = pidc w /\
  power_level (powc w') = standby_power_level (powc w) /\
  standby (powc w') = true /\
  standby_timeout (powc w') = standby_timeout (powc w) /\
  standby_power_level (powc w') = standby_power_level (powc w) /\
  last_update_ms (powc w') = last_update_ms (powc w) /\
  power_settings (powc w') = power_settings (powc w) /\
  minimum_pulse_ms (powc w') = minimum_pulse_ms (powc w).
Proof.
  cbv zeta. unfold set_standby_on. unfold bind at 1. cbn.
  unfold bind at 1. cbn.
  pose proof (new_power_level_frame (standby_power_level (powc w))
                (with_powc (upd_standby true) w)) as F.
  cbv zeta in F. cbn in F. exact F.
Qed.

(** A poll that finds the timestamp it already knows: standby when it is
    due, otherwise one step of the square wave. *)
Lemma poll_it_quiet (w : world) (r : bus_record) :
  messages (looper w) !! power_settings (powc w) = Some r ->
  stamp r = last_update_ms (powc w) ->
  PowerControl_poll_it w =
    if standby_due w then set_standby_on w else (Ok tt, square_wave w).
Proof.
  intros Hr Hs.
  unfold PowerControl_poll_it. unfold bind at 1. cbn.
  unfold bind at 1. unfold ref_stamp at 1. unfold bind at 1. cbn.
  rewrite Hr. cbn. rewrite Hs, Z.eqb_refl. cbn.
  unfold standby_due, square_wave.
  destruct (standby (powc w)); cbn;
    [| destruct (f_gt (power_level (powc w)) (standby_power_level (powc w)));
       cbn;
       [ destruct (ticks_diff (current_time_ms (looper w))
                     (last_update_ms (powc w)) >? standby_timeout (powc w));
         cbn; [reflexivity|] |] ];
    unfold active_now, bind; cbn;
    destruct (0 <=? ticks_diff (current_time_ms (looper w)) (change_ms (powc w)));
    cbn; try reflexivity;
    destruct (power_on (powc w)); cbn;
    try (destruct (off_ms (powc w) >? 0); cbn; reflexivity);
    destruct (on_ms (powc w) >? 0); cbn; reflexivity.
Qed.

(** The square wave touches the output and its schedule, nothing else. *)
Lemma square_wave_frame (w : world) :
  let w' := square_wave w in
  looper w' = looper w /\ getc w' = getc w /\ pidc w' = pidc w /\
  divisors w' = divisors w /\
  power_level (powc w') = power_level (powc w) /\
  standby (powc w') = standby (powc w) /\
  standby_timeout (powc w') = standby_timeout (powc w) /\
  standby_power_level (powc w') = standby_power_level (powc w) /\
  last_update_ms (powc w') = last_update_ms (powc w) /\
  power_settings (powc w') = power_settings (powc w) /\
  minimum_pulse_ms (powc w') = minimum_pulse_ms (powc w) /\
  on_ms (powc w') = on_ms (powc w) /\
  off_ms (powc w') = off_ms (powc w).
Proof.
  cbv zeta. unfold square_wave.
  destruct (0 <=? ticks_diff (current_time_ms (looper w)) (change_ms (powc w)));
    [| repeat split].
  destruct (power_on (powc w)).
  - destruct (off_ms (powc w) >? 0); repeat split.
  - destruct (on_ms (powc w) >? 0); repeat split.
Qed.

Lemma set_standby_off_ok (w : world) : fst (set_standby_off w) = Ok tt.
Proof.
  unfold set_standby_off, bind; cbn. destruct (standby (powc w)); reflexivity.
Qed.

Lemma set_standby_off_frame (w : world) :
  let w' := snd (set_standby_off w) in
  looper w' = looper w /\ getc w' = getc w /\ pidc w' = pidc w /\
  divisors w' = divisors w /\
  power_level (powc w') = power_level (powc w) /\
  standby (powc w') = false /\
  standby_timeout (powc w') = standby_timeout (powc w) /\
  standby_power_level (powc w') = standby_power_level (powc w) /\
  last_update_ms (powc w') = last_update_ms (powc w) /\
  power_settings (powc w') = power_settings (powc w) /\
  minimum_pulse_ms (powc w') = minimum_pulse_ms (powc w).
Proof.
  cbv zeta. unfold set_standby_off, bind; cbn.
  destruct (standby (powc w)) eqn:E; cbn; repeat split; assumption.
Qed.

#[local] Arguments set_standby_off : simpl never.
#[local] Arguments new_power_level : simpl never.

(** A poll that finds a new timestamp: it records the timestamp, leaves
    standby, and applies the stored level when it differs from the
    applied one. *)
Lemma poll_it_update (w : world) (r : bus_record) :
  messages (looper w) !! power_settings (powc w) = Some r ->
  stamp r <> last_update_ms (powc w) ->
  let w1 := snd (set_standby_off
                   (with_powc (upd_last_update_ms (stamp r)) w)) in
  PowerControl_poll_it w =
    match fields r !! "power_level" with
    | None => (Raise KeyError, w1)
    | Some v =>
        if py_ne_float v (power_level (powc w)) then
          match num_operand v with
          | Ok level => new_power_level level w1
          | Raise e => (Raise e, w1)
          end
        else (Ok tt, w1)
    end.
Proof.
  intros Hr Hs. cbv zeta.
  unfold PowerControl_poll_it. unfold bind at 1. cbn.
  unfold bind at 1. unfold ref_stamp at 1. unfold bind at 1. cbn.
  rewrite Hr. cbn.
  assert (E : (last_update_ms (powc w) =? stamp r) = false)
    by (apply Z.eqb_neq; congruence).
  rewrite E. cbn.
  unfold bind at 1.
  pose proof (set_standby_off_ok (with_powc (upd_last_update_ms (stamp r)) w)) as Hok.
  pose proof (set_standby_off_frame (with_powc (upd_last_update_ms (stamp r)) w)) as F.
  cbv zeta in F.
  destruct (set_standby_off (with_powc (upd_last_update_ms (stamp r)) w))
    as [o w1] eqn:Eoff.
  cbn in Hok, F |- *. subst o.
  destruct F as (Fl & _ & _ & _ & Flevel & _).
  unfold bind at 1. unfold ref_get at 1. unfold bind at 1. cbn.
  rewrite Fl, Hr.
  destruct (fields r !! "power_level") as [v |]; cbn; [|reflexivity].
  unfold bind at 1. cbn. rewrite Flevel.
  destruct (py_ne_float v (power_level (powc w))); [|reflexivity].
  unfold lift. destruct (num_operand v); reflexivity.
Qed.

Lemma poll_it_update_facts (w : world) (r : bus_record) :
  messages (looper w) !! power_settings (powc w) = Some r ->
  stamp r <> last_update_ms (powc w) ->
  let w' := snd (PowerControl_poll_it w) in
  standby (powc w') = false /\
  last_update_ms (powc w') = stamp r /\
  looper w' = looper w /\
  power_settings (powc w') = power_settings (powc w) /\
  standby_power_level (powc w') = standby_power_level (powc w) /\
  standby_timeout (powc w') = standby_timeout (powc w) /\
  (forall v level,
     fields r !! "power_level" = Some v -> py_num v = Some level ->
     same_level level (power_level (powc w'))).
Proof.
  intros Hr Hs. cbv zeta. rewrite (poll_it_update w r Hr Hs).
  pose proof (set_standby_off_frame
                (with_powc (upd_last_update_ms (stamp r)) w)) as F.
  cbv zeta in F. cbn in F.
  destruct F as (Fl & _ & _ & _ & Flevel & Fsb & Fto & Ffb & Flast & Fps & _).
  set (w1 := snd (set_standby_off
                    (with_powc (upd_last_update_ms (stamp r)) w))) in *.
  destruct (fields r !! "power_level") as [v |] eqn:Ev.
  - destruct (py_ne_float v (power_level (powc w))) eqn:Ene.
    + unfold num_operand. destruct (py_num v) as [level |] eqn:En.
      * pose proof (new_power_level_frame level w1) as N. cbv zeta in N.
        destruct N as (Nl & _ & _ & Nlevel & Nsb & Nto & Nfb & Nlast & Nps & _).
        rewrite Nsb, Nlast, Nl, Nps, Nfb, Nto.
        repeat split; try assumption.
        intros v' level' Hv Hn. inversion Hv; subst v'.
        rewrite En in Hn. inversion Hn; subst level'.
        left. symmetry. exact Nlevel.
      * cbn. repeat split; try assumption.
        intros v' level' Hv Hn. inversion Hv; subst v'. congruence.
    + cbn. repeat split; try assumption.
      intros v' level' Hv Hn. inversion Hv; subst v'.
      unfold py_ne_float in Ene. rewrite Hn in Ene.
      right. rewrite Flevel. unfold f_ne in Ene.
      apply negb_false_iff in Ene. exact Ene.
  - cbn. repeat split; try assumption.
    intros v' level' Hv. discriminate Hv.
Qed.

(** ** Claims about the standby state machine *)

(** C2, as stated, fails at the boundary.  With fallback level 20, a
    timeout of 60000 ms and an applied level of 60, a poll exactly
    60000 ms after the last bus update, with no update in between, does
    not enter standby and keeps the applied level at 60: the test of
    [poll_it] is a strict [>]. *)
Lemma standby_not_entered_at_exact_timeout :
  let w := snd (tick 60000 running_at_60) in
  let w' := snd (PowerControl_poll_it w) in
  f_eq (power_level (powc w)) (Fin 60) = true /\
  standby_power_level (powc w) = Fin 20 /\
  standby_timeout (powc w) = 60000 /\
  standby (powc w) = false /\
  bus_stamp w (power_settings (powc w)) = Some (last_update_ms (powc w)) /\
  ticks_diff (current_time_ms (looper w)) (last_update_ms (powc w)) = 60000 /\
  standby (powc w') = false /\
  f_eq (power_level (powc w')) (Fin 60) = true.
Proof. vm_compute. repeat split; reflexivity. Qed.

(** C2, amended.  On every poll the timestamp of the bus record is
    compared first: a timestamp that differs from the one last seen
    leaves the engine active after this poll, whatever the stored level
    and however long the silence.  An active engine enters standby
    exactly when the timestamp is the one last seen, the applied level
    exceeds the fallback level, and the wrapping difference between the
    current time and the last seen timestamp is strictly greater than the
    timeout; the applied level is then the fallback level.  An engine in
    standby stays there as long as the timestamp does not change. *)
Theorem standby_state_machine (w : world) (r : bus_record) :
  messages (looper w) !! power_settings (powc w) = Some r ->
  let w' := snd (PowerControl_poll_it w) in
  let elapsed :=
    ticks_diff (current_time_ms (looper w)) (last_update_ms (powc w)) in
  (stamp r <> last_update_ms (powc w) -> standby (powc w') = false) /\
  (standby (powc w) = false ->
     (standby (powc w') = true <->
        stamp r = last_update_ms (powc w) /\
        f_gt (power_level (powc w)) (standby_power_level (powc w)) = true /\
        standby_timeout (powc w) < elapsed)) /\
  (standby (powc w) = false -> standby (powc w') = true ->
     power_level (powc w') = standby_power_level (powc w)) /\
  (standby (powc w) = true -> stamp r = last_update_ms (powc w) ->
     standby (powc w') = true /\
     power_level (powc w') = power_level (powc w)).
Proof.
  intros Hr w' elapsed. subst w' elapsed.
  destruct (Z.eq_dec (stamp r) (last_update_ms (powc w))) as [Hs | Hs].
  - (* the timestamp last seen *)
    rewrite (poll_it_quiet w r Hr Hs).
    pose proof (set_standby_on_frame w) as On. cbv zeta in On.
    destruct On as (_ & _ & _ & Onlevel & Onsb & _).
    pose proof (square_wave_frame w) as Sq. cbv zeta in Sq.
    destruct Sq as (_ & _ & _ & _ & Sqlevel & Sqsb & _).
    destruct (standby_due w) eqn:Edue; unfold standby_due in Edue.
    + apply andb_true_iff in Edue as [Edue Eto].
      apply andb_true_iff in Edue as [Esb Egt].
      apply negb_true_iff in Esb. apply Z.gtb_lt in Eto.
      rewrite Onsb, Onlevel.
      split; [intros Hne; contradiction|].
      split; [intros _; split; [intros _; repeat split; assumption | reflexivity]|].
      split; [reflexivity|]. intros Hsb. congruence.
    + cbn [snd]. rewrite Sqsb, Sqlevel.
      split; [intros Hne; contradiction|].
      split; [intros Hsb; split; [congruence|]|].
      * intros (_ & Hgt & Hlt). apply Z.gtb_lt in Hlt.
        rewrite Hsb, Hgt, Hlt in Edue. discriminate Edue.
      * split; [congruence|]. intros Hsb _. split; [exact Hsb | reflexivity].
  - (* a new timestamp *)
    pose proof (poll_it_update_facts w r Hr Hs) as F. cbv zeta in F.
    destruct F as (Fsb & _).
    rewrite Fsb.
    split; [reflexivity|]. split; [intros _; split; [discriminate|]|].
    + intros (Heq & _). contradiction.
    + split; [discriminate|]. intros _ Heq. contradiction.
Qed.

Lemma standby_state_machine_witness :
  let w := snd (tick 60001 running_at_60) in
  let w' := snd (PowerControl_poll_it w) in
  (exists r, messages (looper w) !! power_settings (powc w) = Some r) /\
  standby (powc w') = true /\
  power_level (powc w') = Fin 20.
Proof.
  cbv zeta.
  destruct (messages (looper (snd (tick 60001 running_at_60)))
              !! power_settings (powc (snd (tick 60001 running_at_60))))
    as [r |] eqn:Hr; [| vm_compute in Hr; discriminate Hr].
  split; [exists r; reflexivity|].
  pose proof (standby_state_machine _ r Hr) as H. cbv zeta in H.
  destruct H as (_ & Henter & Hlevel & _).
  assert (Hsb : standby (powc (snd (tick 60001 running_at_60))) = false)
    by reflexivity.
  assert (Hon : standby (powc (snd (PowerControl_poll_it
                   (snd (tick 60001 running_at_60))))) = true).
  { apply (Henter Hsb).
    assert (E : stamp r = 100).
    { vm_compute in Hr. inversion Hr. reflexivity. }
    rewrite E. vm_compute. repeat split; reflexivity. }
  split; [exact Hon|].
  rewrite (Hlevel Hsb Hon). reflexivity.
Defined.
(** [set_standby_on] is [new_power_level] at the fallback level, in the
    world with the standby flag set. *)
Lemma set_standby_on_unfold (w : world) :
  set_standby_on w =
    new_power_level (standby_power_level (powc w))
      (with_powc (upd_standby true) w).
Proof. reflexivity. Qed.

(** C6.  Entering standby is [new_power_level] at the fallback level and
    nothing else.  The applied level is the fallback level; from a level
    above a finite fallback level, and with a minimum pulse width [M]
    from 1 to [2 ^ 44], the call returns, the output is driven off, the
    next flip is one off duration away, and the plan is the one of the
    fallback level: always on above 99, [off = M] and [on] the integer
    part of the float quotient [M / ((100.0 - level) * 0.01)] less [M]
    from 50 to 99, [on = M] and [off] the integer part of
    [M / (level * 0.01)] less [M] from 1 up to 50, always off below 1,
    the longer pulse being within truncation and float rounding of the
    exact quotient.  The looper, and with it every bus record and the
    stored level of the [powercontrol] topic, is left as it was.
    Whenever a later poll of that engine finds a new timestamp on its
    record, it leaves standby and the applied level is the level stored
    in the record. *)
Theorem standby_leaves_bus_record (w : world) :
  let w1 := snd (set_standby_on w) in
  let M := minimum_pulse_ms (powc w) in
  let now := current_time_ms (looper w) in
  set_standby_on w =
    new_power_level (standby_power_level (powc w))
      (with_powc (upd_standby true) w) /\
  looper w1 = looper w /\
  (forall topic, bus_level w1 topic = bus_level w topic) /\
  standby (powc w1) = true /\
  power_level (powc w1) = standby_power_level (powc w) /\
  (forall q p,
     standby_power_level (powc w) = Fin q -> power_level (powc w) = Fin p ->
     (q < p)%Q -> 0 < M <= 2 ^ 44 ->
     fst (set_standby_on w) = Ok tt /\
     power_control_pin (powc w1) = false /\ power_on (powc w1) = false /\
     change_ms (powc w1) = ticks_add now (off_ms (powc w1)) /\
     ((99 < q)%Q -> on_ms (powc w1) = 999999 /\ off_ms (powc w1) = 0) /\
     ((50 <= q)%Q -> (q <= 99)%Q ->
        off_ms (powc w1) = M /\
        on_ms (powc w1) = Qtrunc (ratio_on M q) - M /\
        M <= on_ms (powc w1) <= 99 * M /\
        (inject_Z M * q / (100 - q) - 1 - float_error M
           < inject_Z (on_ms (powc w1)))%Q /\
        (inject_Z (on_ms (powc w1))
           <= inject_Z M * q / (100 - q) + float_error M)%Q) /\
     ((1 <= q)%Q -> (q < 50)%Q ->
        on_ms (powc w1) = M /\
        off_ms (powc w1) = Qtrunc (ratio_off M q) - M /\
        M <= off_ms (powc w1) <= 99 * M /\
        (inject_Z M * (100 - q) / q - 1 - float_error M
           < inject_Z (off_ms (powc w1)))%Q /\
        (inject_Z (off_ms (powc w1))
           <= inject_Z M * (100 - q) / q + float_error M)%Q) /\
     ((q < 1)%Q -> on_ms (powc w1) = 0 /\ off_ms (powc w1) = 999999)) /\
  (forall w2 r v level,
     powc w2 = powc w1 ->
     messages (looper w2) !! power_settings (powc w2) = Some r ->
     stamp r <> last_update_ms (powc w2) ->
     fields r !! "power_level" = Some v ->
     py_num v = Some level ->
     standby (powc (snd (PowerControl_poll_it w2))) = false /\
     same_level level (power_level (powc (snd (PowerControl_poll_it w2))))).
Proof.
  cbv zeta.
  pose proof (set_standby_on_frame w) as F. cbv zeta in F.
  destruct F as (Fl & _ & _ & Flevel & Fsb & _).
  split; [reflexivity|].
  split; [exact Fl|].
  split; [intros topic; unfold bus_level; rewrite Fl; reflexivity|].
  split; [exact Fsb|].
  split; [exact Flevel|].
  split.
  - intros q p Hq Hp Hlt HM.
    rewrite set_standby_on_unfold, Hq.
    set (w0 := with_powc (upd_standby true) w).
    assert (HM' : Z.abs (minimum_pulse_ms (powc w0)) <= 2 ^ 1000).
    { assert (2 ^ 44 <= 2 ^ 1000) by (apply Z.pow_le_mono_r; lia).
      change (minimum_pulse_ms (powc w0)) with (minimum_pulse_ms (powc w)).
      lia. }
    split; [apply new_power_level_returns; exact HM'|].
    destruct (new_power_level_switches w0 q p Hp HM') as (_ & Hoff).
    destruct (Hoff ltac:(lra)) as (S1 & S2 & S3).
    split; [exact S1|]. split; [exact S2|]. split; [exact S3|].
    exact (new_power_level_plan w0 q HM).
  - intros w2 r v level _ Hr Hs Hv Hn.
    pose proof (poll_it_update_facts w2 r Hr Hs) as U. cbv zeta in U.
    destruct U as (Usb & _ & _ & _ & _ & _ & Ulevel).
    split; [exact Usb|]. exact (Ulevel v level Hv Hn).
Qed.

(** The scenario of C6 on the script: standby is entered after 60001 ms
    of silence with 60 stored on the bus and stays stored, the output is
    driven off with the plan of level 20; the gateway then receives 60
    again, and the poll that follows applies it. *)
Lemma standby_leaves_bus_record_witness :
  let w := snd (tick 60001 running_at_60) in
  let w1 := snd (set_standby_on w) in
  let w2 := snd ((cycle 100 [] None ;;
                  tick 100 ;;
                  GetCommand_poll_it
                    [Request (request_set_power_level (VInt 60))] None) w1) in
  bus_level w1 "powercontrol" = bus_level w "powercontrol" /\
  power_level (powc w1) = Fin 20 /\
  power_control_pin (powc w1) = false /\
  on_ms (powc w1) = 2000 /\ off_ms (powc w1) = 8000 /\
  powc w2 = powc w1 /\
  standby (powc (snd (PowerControl_poll_it w2))) = false /\
  same_level (Fin 60) (power_level (powc (snd (PowerControl_poll_it w2)))).
Proof.
  cbv zeta.
  set (w := snd (tick 60001 running_at_60)).
  set (w1 := snd (set_standby_on w)).
  set (w2 := snd ((cycle 100 [] None ;;
                   tick 100 ;;
                   GetCommand_poll_it
                     [Request (request_set_power_level (VInt 60))] None) w1)).
  destruct (standby_leaves_bus_record w)
    as (_ & _ & Hbus & _ & Hlevel & Hplan & Hback).
  fold w1 in Hbus, Hlevel, Hplan, Hback.
  split; [apply Hbus|].
  split; [rewrite Hlevel; vm_compute; reflexivity|].
  assert (Hq : standby_power_level (powc w) = Fin 20)
    by (vm_compute; reflexivity).
  assert (Hp : power_level (powc w) = Fin 60) by (vm_compute; reflexivity).
  assert (Hlt : (20 < 60)%Q) by (vm_compute; reflexivity).
  assert (HM : 0 < minimum_pulse_ms (powc w) <= 2 ^ 44)
    by (vm_compute; split; [reflexivity | discriminate]).
  destruct (Hplan 20%Q 60%Q Hq Hp Hlt HM) as (_ & Hpin & _ & _ & _ & _ & Hoff & _).
  split; [exact Hpin|].
  destruct (Hoff ltac:(vm_compute; discriminate) ltac:(vm_compute; reflexivity))
    as (Hon & Hoff' & _).
  split; [rewrite Hon; vm_compute; reflexivity|].
  split; [rewrite Hoff'; vm_compute; reflexivity|].
  assert (Hpowc : powc w2 = powc w1) by (vm_compute; reflexivity).
  split; [exact Hpowc|].
  destruct (messages (looper w2) !! power_settings (powc w2)) as [r |] eqn:Hr;
    [| vm_compute in Hr; discriminate Hr].
  assert (Hstamp : stamp r = 60301).
  { vm_compute in Hr. inversion Hr. reflexivity. }
  assert (Hv : fields r !! "power_level" = Some (VFloat (Fin 60))).
  { vm_compute in Hr. inversion Hr. vm_compute. reflexivity. }
  apply (Hback w2 r (VFloat (Fin 60)) (Fin 60) Hpowc Hr).
  - rewrite Hstamp. vm_compute. discriminate.
  - exact Hv.
  - reflexivity.
Defined.
(** ** Construction of the engine *)

#[local] Arguments Qtrunc : simpl never.
#[local] Arguments divisor_on : simpl never.
#[local] Arguments inject_Z : simpl never.
#[local] Arguments Qdiv : simpl never.

(** The constructor up to its last call: the output has been driven off
    and the record written when it calls [new_power_level]. *)
Lemma PowerControl_init_last_call (w0 : world) (secs : Z)
    (fallback : pyfloat) (M : Z) :
  PowerControl_init secs fallback M w0 =
    new_power_level (Fin 50) (pre_constructed secs fallback M w0).
Proof. reflexivity. Qed.










(** ** Rounding to one decimal *)


(** ** The command gateway *)

(** The bus write of [set_power_level]. *)
Lemma set_power_level_writes (w : world) (d : gmap string pyval) v f :
  d !! "power_level" = Some v -> py_float v = Ok f ->
  set_power_level (VDict d) w =
    (Ok tt, with_looper (message_set_looper "powercontrol"
                           (<["power_level" := VFloat (py_round1 f)]> ∅)) w).
Proof.
  intros Hd Hf. unfold set_power_level, bind, lift, try_except; cbn.
  rewrite Hd. cbn. rewrite Hf. reflexivity.
Qed.


Lemma set_power_level_unparsed (w : world) (d : gmap string pyval) v e :
  d !! "power_level" = Some v -> py_float v = Raise e ->
  set_power_level (VDict d) w = (Ok tt, w).
Proof.
  intros Hd Hf. unfold set_power_level, bind, lift, try_except; cbn.
  rewrite Hd. cbn. rewrite Hf. reflexivity.
Qed.


(** A request goes to [set_power_level] when it has the three fields and
    names that method. *)
Lemma process_request_set_power_level (w : world) (v : pyval) :
  process_request (request_set_power_level v) w =
    set_power_level (VDict (<["power_level" := v]> ∅)) w.
Proof. reflexivity. Qed.

(** An object without one of the three fields is dropped. *)
Lemma process_request_incomplete (w : world) (rq : gmap string pyval) :
  rq !! "jsonrpc" = None \/ rq !! "method" = None \/ rq !! "params" = None ->
  process_request (VDict rq) w = (Ok tt, w).
Proof.
  intros H. unfold process_request, bind, lift; cbn.
  destruct (rq !! "jsonrpc") eqn:E1; cbn; [|reflexivity].
  destruct (rq !! "method") eqn:E2; cbn; [|reflexivity].
  destruct (rq !! "params") eqn:E3; cbn; [|reflexivity].
  destruct H as [H | [H | H]]; discriminate H.
Qed.

Lemma set_power_level_scalar (params : pyval) (w : world) :
  is_scalar params = true ->
  set_power_level params w = (Raise TypeError, w).
Proof.
  intros H. destruct params; try discriminate H; reflexivity.
Qed.

Lemma set_power_level_not_indexable (params : pyval) (w : world) :
  (exists l, params = VList l) \/ (exists s, params = VStr s) ->
  set_power_level params w = (Ok tt, w).
Proof.
  intros [(l & ->) | (s & ->)];
    unfold set_power_level, bind, lift, try_except; cbn.
  - destruct (existsb (fun v => py_eq_str v "power_level") l); reflexivity.
  - destruct (is_substring "power_level" s); reflexivity.
Qed.




(** The datagram loop stops with the exception of the first datagram
    that does not decode or parse: [except OSError] does not catch it. *)
Lemma udp_loop_bad_json (rest : list datagram) (w : world) :
  udp_loop (BadJson :: rest) w = (Raise ValueError, w).
Proof. reflexivity. Qed.

Lemma udp_loop_bad_encoding (rest : list datagram) (w : world) :
  udp_loop (BadEncoding :: rest) w = (Raise UnicodeError, w).
Proof. reflexivity. Qed.

(** C8 on a failing input.  On the script, a poll of the gateway that
    receives a datagram that is not JSON raises [ValueError], one that
    receives bytes that do not decode raises [UnicodeError], and a
    well-formed request queued behind such a datagram is not processed
    by that poll. *)
Theorem poll_it_raises_on_unparsable_datagram :
  let w := snd (main 0) in
  fst (GetCommand_poll_it [BadJson] None w) = Raise ValueError /\
  fst (GetCommand_poll_it [BadEncoding] None w) = Raise UnicodeError /\
  bus_level
    (snd (GetCommand_poll_it
            [BadJson; Request (request_set_power_level (VInt 60))] None w))
    "powercontrol" = Some (VInt 0).
Proof. vm_compute. repeat split; reflexivity. Qed.

(** What C8 says does hold for an object with a field missing and for a
    value of [power_level] that [float] rejects: the loop goes on to the
    next datagram with the bus as it was. *)
Lemma udp_loop_drops_incomplete (rq : gmap string pyval)
    (rest : list datagram) (w : world) :
  rq !! "jsonrpc" = None \/ rq !! "method" = None \/ rq !! "params" = None ->
  udp_loop (Request (VDict rq) :: rest) w = udp_loop rest w.
Proof.
  intros H. cbn [udp_loop]. unfold try_except, bind, lift. cbn [decode_loads].
  rewrite (process_request_incomplete w rq H). reflexivity.
Qed.

Lemma udp_loop_drops_unparsed_level (v : pyval) (e : exn)
    (rest : list datagram) (w : world) :
  py_float v = Raise e ->
  udp_loop (Request (request_set_power_level v) :: rest) w = udp_loop rest w.
Proof.
  intros H. cbn [udp_loop]. unfold try_except, bind, lift. cbn [decode_loads].
  rewrite process_request_set_power_level.
  rewrite (set_power_level_unparsed w _ v e (lookup_insert_eq _ _ _) H).
  reflexivity.
Qed.

(** C4 on a failing input.  On the script, the request
    [{"jsonrpc": "2.0", "method": "set_power_level", "params":
    {"power_level": 150}}] is processed without an exception and leaves
    150 as the stored level; likewise -5 is stored as it is. *)
Theorem set_power_level_stores_out_of_range :
  let w := snd (main 0) in
  let polled v := GetCommand_poll_it
                    [Request (request_set_power_level v)] None w in
  fst (polled (VInt 150)) = Ok tt /\
  (exists f, bus_level (snd (polled (VInt 150))) "powercontrol"
             = Some (VFloat f) /\
             f_eq f (Fin 150) = true /\ f_gt f (Fin 100) = true) /\
  (exists f, bus_level (snd (polled (VInt (-5)))) "powercontrol"
             = Some (VFloat f) /\
             f_eq f (Fin (-5)) = true /\ f_lt f (Fin 0) = true).
Proof.
  cbv zeta. split; [vm_compute; reflexivity|].
  split; eexists; (split; [vm_compute; reflexivity|]);
    split; vm_compute; reflexivity.
Qed.

(** ** The PID bridge *)

Lemma round_half_even_between (a b : Z) (x : Q) :
  (inject_Z a <= x)%Q -> (x <= inject_Z b)%Q ->
  a <= round_half_even x <= b.
Proof.
  intros Ha Hb. unfold round_half_even.
  pose proof (Qfloor_le x) as Hlo.
  assert (Haf : a <= Qfloor x).
  { rewrite <- (Qfloor_Z a). apply Qfloor_resp_le. exact Ha. }
  assert (Hfb : Qfloor x <= b).
  { rewrite <- (Qfloor_Z b). apply Qfloor_resp_le. exact Hb. }
  assert (Hup : (inject_Z (Qfloor x) < x)%Q -> Qfloor x + 1 <= b).
  { intros Hlt. assert (Hfb' : (inject_Z (Qfloor x) < inject_Z b)%Q) by lra.
    rewrite <- Zlt_Qlt in Hfb'. lia. }
  set (f := Qfloor x) in *.
  destruct (Qlt_bool (x - inject_Z f) (1 # 2)) eqn:E1; [lia|].
  apply Qlt_bool_false in E1.
  assert (Hlt : (inject_Z f < x)%Q) by lra.
  specialize (Hup Hlt).
  destruct (Qlt_bool (1 # 2) (x - inject_Z f)); [lia|].
  destruct (Z.even f); lia.
Qed.

Lemma py_round1_between (c : Q) :
  (0 <= c)%Q -> (c <= 100)%Q ->
  exists x, py_round1 (Fin c) = Fin x /\ (0 <= x)%Q /\ (x <= 100)%Q.
Proof.
  intros H0 H100. unfold py_round1.
  destruct (round_half_even_between 0 1000 (c * 10)) as [Hlo Hhi].
  - change (inject_Z 0) with 0%Q. lra.
  - change (inject_Z 1000) with 1000%Q. lra.
  - set (k := round_half_even (c * 10)) in *.
    assert (E : (inject_Z k / 10 == inject_Z k * (1 # 10))%Q) by field.
    assert (Hk0 : (inject_Z 0 <= inject_Z k)%Q) by (rewrite <- Zle_Qle; exact Hlo).
    assert (Hk1 : (inject_Z k <= inject_Z 1000)%Q) by (rewrite <- Zle_Qle; exact Hhi).
    change (inject_Z 0) with 0%Q in Hk0.
    change (inject_Z 1000) with 1000%Q in Hk1.
    destruct (rnd_range (inject_Z k / 10) 0 100 7) as (y & Ey & _ & Y0 & Y100).
    + lia.
    + apply (is_float_small 0). lia.
    + apply (is_float_small 100). lia.
    + vm_compute. discriminate.
    + vm_compute. discriminate.
    + rewrite E. lra.
    + rewrite E. lra.
    + exists y. split; [exact Ey|]. split; assumption.
Qed.

(** The bridge clamps what it writes: for every output of the controller
    that is a number, the level it computes is a finite float in
    [0, 100]. *)
Lemma pid_power_level_in_range (pid_output : pyfloat) :
  pid_output <> NaN ->
  exists x, pid_power_level pid_output = Fin x /\ (0 <= x)%Q /\ (x <= 100)%Q.
Proof.
  intros Hnan. unfold pid_power_level, py_min, py_max, f_lt.
  destruct pid_output as [y | | |]; [| | | congruence].
  - cbn [f_gt].
    destruct (Qlt_bool 100 y) eqn:E1.
    + cbn. apply py_round1_between; lra.
    + apply Qlt_bool_false in E1. cbn [f_gt].
      destruct (Qlt_bool y 0) eqn:E2.
      * apply py_round1_between; lra.
      * apply Qlt_bool_false in E2. apply py_round1_between; lra.
  - cbn. apply py_round1_between; lra.
  - cbn. apply py_round1_between; lra.
Qed.

(** A [pid_update] request is never merged: reading [rquest] raises. *)
Lemma process_request_pid_update (params : gmap string pyval) (w : world) :
  process_request (request_pid_update params) w = (Raise NameError, w).
Proof. reflexivity. Qed.

(** C9 on a failing input.  With the bridge constructed, the request
    [{"jsonrpc": "2.0", "method": "pid_update", "params":
    {"current_temperature": 200}}] raises [NameError] and leaves the bus
    as it was, without a [pid_settings] topic.  The record the bridge
    watches is that of the topic [pid_control]: a write to [pid_settings]
    is not seen by its next poll, which returns at once. *)
Theorem pid_update_never_reaches_bridge
    (PID_update : pyval -> PID_obj -> PID_obj) :
  let w := main_with_bridge in
  let params : gmap string pyval :=
    <["current_temperature" := VInt 200]> ∅ in
  let processed := process_request (request_pid_update params) w in
  let written :=
    snd ((tick 100 ;;
          message_set "pid_settings"
            (<["temperature_update" := VBool true]> params)) w) in
  fst processed = Raise NameError /\
  looper (snd processed) = looper w /\
  messages (looper (snd processed)) !! "pid_settings" = None /\
  pid_settings (pidc w) = "pid_control" /\
  bus_stamp written "pid_settings" = Some 100 /\
  PIDControl_poll_it PID_update written = (Ok tt, written).
Proof.
  cbv zeta. split; [reflexivity|]. split; [reflexivity|].
  split; [vm_compute; reflexivity|]. split; [reflexivity|].
  split; [vm_compute; reflexivity|].
  unfold PIDControl_poll_it, bind, ref_stamp. vm_compute. reflexivity.
Qed.

(** * Further properties of the code *)

(** ** The engine: what a poll can do to the world *)

Lemma poll_it_no_record (w : world) :
  messages (looper w) !! power_settings (powc w) = None ->
  PowerControl_poll_it w = (Raise KeyError, w).
Proof.
  intros Hr. unfold PowerControl_poll_it. unfold bind at 1. cbn.
  unfold bind at 1. unfold ref_stamp at 1. unfold bind at 1. cbn.
  rewrite Hr. reflexivity.
Qed.

(** The worlds a poll can leave: the one it found, the one after entering
    standby, the one after a step of the square wave, or, for a new
    timestamp [ts], the one that has recorded it and left standby,
    possibly followed by [new_power_level]. *)
Lemma poll_it_cases (w : world) :
  let w' := snd (PowerControl_poll_it w) in
  w' = w \/ w' = snd (set_standby_on w) \/ w' = square_wave w \/
  exists ts,
    let w1 := snd (set_standby_off (with_powc (upd_last_update_ms ts) w)) in
    w' = w1 \/ exists level, w' = snd (new_power_level level w1).
Proof.
  cbv zeta.
  destruct (messages (looper w) !! power_settings (powc w)) as [r |] eqn:Hr.
  - destruct (Z.eq_dec (stamp r) (last_update_ms (powc w))) as [Hs | Hs].
    + rewrite (poll_it_quiet w r Hr Hs).
      destruct (standby_due w); [right; left | right; right; left]; reflexivity.
    + rewrite (poll_it_update w r Hr Hs).
      right. right. right. exists (stamp r).
      destruct (fields r !! "power_level") as [v |]; [|left; reflexivity].
      destruct (py_ne_float v (power_level (powc w))); [|left; reflexivity].
      destruct (num_operand v) as [level | e]; [|left; reflexivity].
      right. exists level. reflexivity.
  - rewrite (poll_it_no_record w Hr). left. reflexivity.
Qed.

Lemma engine_only_refl (w : world) : engine_only w w.
Proof. repeat split. Qed.

Lemma engine_only_trans (w1 w2 w3 : world) :
  engine_only w1 w2 -> engine_only w2 w3 -> engine_only w1 w3.
Proof.
  intros (A1 & A2 & A3) (B1 & B2 & B3). unfold engine_only.
  rewrite B1, B2, B3. auto.
Qed.

Lemma new_power_level_engine_only (level : pyfloat) (w : world) :
  engine_only w (snd (new_power_level level w)).
Proof.
  pose proof (new_power_level_frame level w) as F. cbv zeta in F.
  destruct F as (F1 & F2 & F3 & _). repeat split; assumption.
Qed.

Lemma set_standby_on_engine_only (w : world) :
  engine_only w (snd (set_standby_on w)).
Proof.
  pose proof (set_standby_on_frame w) as F. cbv zeta in F.
  destruct F as (F1 & F2 & F3 & _). repeat split; assumption.
Qed.

Lemma square_wave_engine_only (w : world) : engine_only w (square_wave w).
Proof.
  pose proof (square_wave_frame w) as F. cbv zeta in F.
  destruct F as (F1 & F2 & F3 & _). repeat split; assumption.
Qed.

Lemma seen_engine_only (ts : Z) (w : world) :
  engine_only w
    (snd (set_standby_off (with_powc (upd_last_update_ms ts) w))).
Proof.
  pose proof (set_standby_off_frame (with_powc (upd_last_update_ms ts) w)) as F.
  cbv zeta in F. destruct F as (F1 & F2 & F3 & _). repeat split; assumption.
Qed.

(** X1.  Whatever the world, and whether it returns or raises, a poll of
    the engine leaves the looper, with its clock, its bus records and its
    shutdown flag, and the other plug-ins as they were: the engine only
    reads the bus. *)
Theorem poll_it_only_reads_bus (w : world) :
  engine_only w (snd (PowerControl_poll_it w)).
Proof.
  destruct (poll_it_cases w) as [E | [E | [E | (ts & [E | (level & E)])]]];
    rewrite E.
  - apply engine_only_refl.
  - apply set_standby_on_engine_only.
  - apply square_wave_engine_only.
  - apply seen_engine_only.
  - eapply engine_only_trans; [apply seen_engine_only|].
    apply new_power_level_engine_only.
Qed.

(** ** The engine: two invariants of its state *)

Lemma new_power_level_pin_mirrored (level : pyfloat) (w : world) :
  pin_mirrored w -> pin_mirrored (snd (new_power_level level w)).
Proof.
  intros H.
  destruct (new_power_level_outcome level w)
    as [(on & off & ds & E) | (e & on & ds & E & _)]; rewrite E.
  - reflexivity.
  - exact H.
Qed.

Lemma square_wave_pin_mirrored (w : world) :
  pin_mirrored w -> pin_mirrored (square_wave w).
Proof.
  unfold pin_mirrored, square_wave. intros H.
  destruct (0 <=? ticks_diff (current_time_ms (looper w)) (change_ms (powc w)));
    [| exact H].
  destruct (power_on (powc w)) eqn:Eon.
  - destruct (off_ms (powc w) >? 0); [reflexivity | rewrite Eon; exact H].
  - destruct (on_ms (powc w) >? 0); [reflexivity | rewrite Eon; exact H].
Qed.

Lemma seen_output (ts : Z) (w : world) :
  let w1 := snd (set_standby_off (with_powc (upd_last_update_ms ts) w)) in
  power_on (powc w1) = power_on (powc w) /\
  power_control_pin (powc w1) = power_control_pin (powc w) /\
  standby (powc w1) = false.
Proof.
  cbv zeta. unfold set_standby_off, bind; cbn.
  destruct (standby (powc w)) eqn:E; cbn; repeat split; assumption.
Qed.

Lemma poll_it_pin_mirrored (w : world) :
  pin_mirrored w -> pin_mirrored (snd (PowerControl_poll_it w)).
Proof.
  intros H.
  destruct (poll_it_cases w) as [E | [E | [E | (ts & [E | (level & E)])]]];
    rewrite E.
  - exact H.
  - apply (new_power_level_pin_mirrored (standby_power_level (powc w))
             (with_powc (upd_standby true) w)). exact H.
  - apply square_wave_pin_mirrored. exact H.
  - destruct (seen_output ts w) as (E1 & E2 & _).
    unfold pin_mirrored. rewrite E1, E2. exact H.
  - apply new_power_level_pin_mirrored.
    destruct (seen_output ts w) as (E1 & E2 & _).
    unfold pin_mirrored. rewrite E1, E2. exact H.
Qed.

Lemma poll_it_standby_at_fallback (w : world) :
  standby_at_fallback w -> standby_at_fallback (snd (PowerControl_poll_it w)).
Proof.
  intros H.
  destruct (poll_it_cases w) as [E | [E | [E | (ts & [E | (level & E)])]]];
    rewrite E.
  - exact H.
  - pose proof (set_standby_on_frame w) as F. cbv zeta in F.
    destruct F as (_ & _ & _ & Flevel & _ & _ & Ffb & _).
    intros _. rewrite Flevel, Ffb. reflexivity.
  - pose proof (square_wave_frame w) as F. cbv zeta in F.
    destruct F as (_ & _ & _ & _ & Flevel & Fsb & _ & Ffb & _).
    unfold standby_at_fallback. rewrite Flevel, Fsb, Ffb. exact H.
  - destruct (seen_output ts w) as (_ & _ & Fsb).
    intros Hsb. rewrite Fsb in Hsb. discriminate Hsb.
  - pose proof (new_power_level_frame level
                  (snd (set_standby_off
                          (with_powc (upd_last_update_ms ts) w)))) as F.
    cbv zeta in F. destruct F as (_ & _ & _ & _ & Fsb & _).
    destruct (seen_output ts w) as (_ & _ & Fsb1).
    intros Hsb. rewrite Fsb, Fsb1 in Hsb. discriminate Hsb.
Qed.

(** X2.  From its construction on, through any number of polls and
    whatever the rest of the system does in between to the clock and the
    bus, the [power_on] attribute of the engine equals the state in which
    it last put the pin. *)
Theorem power_on_mirrors_pin (w0 w : world) (secs : Z) (fallback : pyfloat)
    (M : Z) :
  engine_run (snd (PowerControl_init secs fallback M w0)) w ->
  power_on (powc w) = power_control_pin (powc w).
Proof.
  intros Hrun. change (pin_mirrored w).
  induction Hrun as [| w' _ IH | w' w'' _ IH Hsame].
  - rewrite PowerControl_init_last_call.
    apply new_power_level_pin_mirrored. reflexivity.
  - apply poll_it_pin_mirrored. exact IH.
  - unfold pin_mirrored in *. rewrite Hsame. exact IH.
Qed.

Lemma power_on_mirrors_pin_witness :
  let w1 := snd (PowerControl_init STANDBY_TIMEOUT_SECONDS STANDBY_POWER_LEVEL
                   MINIMUM_PULSE_WIDTH_MS (power_up 0)) in
  let w2 := snd (PowerControl_poll_it
                   (with_looper (tick_looper 2500)
                      (snd (PowerControl_poll_it w1)))) in
  engine_run w1 w2 /\ power_on (powc w2) = power_control_pin (powc w2).
Proof.
  cbv zeta.
  assert (H : engine_run
                (snd (PowerControl_init STANDBY_TIMEOUT_SECONDS
                        STANDBY_POWER_LEVEL MINIMUM_PULSE_WIDTH_MS
                        (power_up 0)))
                (snd (PowerControl_poll_it
                        (with_looper (tick_looper 2500)
                           (snd (PowerControl_poll_it
                                   (snd (PowerControl_init
                                           STANDBY_TIMEOUT_SECONDS
                                           STANDBY_POWER_LEVEL
                                           MINIMUM_PULSE_WIDTH_MS
                                           (power_up 0))))))))).
  { apply run_poll.
    apply (run_others _ (snd (PowerControl_poll_it
                                (snd (PowerControl_init
                                        STANDBY_TIMEOUT_SECONDS
                                        STANDBY_POWER_LEVEL
                                        MINIMUM_PULSE_WIDTH_MS
                                        (power_up 0)))))).
    - apply run_poll. apply run_start.
    - vm_compute. reflexivity. }
  split; [exact H|].
  exact (power_on_mirrors_pin (power_up 0) _ STANDBY_TIMEOUT_SECONDS
           STANDBY_POWER_LEVEL MINIMUM_PULSE_WIDTH_MS H).
Defined.

(** X3.  From its construction on, through any number of polls and
    whatever the rest of the system does in between, an engine in standby
    applies its fallback level. *)
Theorem standby_applies_fallback (w0 w : world) (secs : Z)
    (fallback : pyfloat) (M : Z) :
  engine_run (snd (PowerControl_init secs fallback M w0)) w ->
  standby (powc w) = true ->
  power_level (powc w) = fallback /\ standby_power_level (powc w) = fallback.
Proof.
  intros Hrun.
  assert (Hinv : standby_at_fallback w /\ standby_power_level (powc w) = fallback).
  { induction Hrun as [| w' _ IH | w' w'' _ IH Hsame].
    - rewrite PowerControl_init_last_call.
      pose proof (new_power_level_frame (Fin 50)
                    (pre_constructed secs fallback M w0)) as F.
      cbv zeta in F. destruct F as (_ & _ & _ & _ & Fsb & _ & Ffb & _).
      split; [intros H; rewrite Fsb in H; discriminate H | exact Ffb].
    - destruct IH as [IH1 IH2].
      split; [apply poll_it_standby_at_fallback; exact IH1|].
      destruct (poll_it_cases w') as [E | [E | [E | (ts & [E | (level & E)])]]];
        rewrite E.
      + exact IH2.
      + pose proof (set_standby_on_frame w') as F. cbv zeta in F.
        destruct F as (_ & _ & _ & _ & _ & _ & Ffb & _). rewrite Ffb. exact IH2.
      + pose proof (square_wave_frame w') as F. cbv zeta in F.
        destruct F as (_ & _ & _ & _ & _ & _ & _ & Ffb & _).
        rewrite Ffb. exact IH2.
      + pose proof (set_standby_off_frame
                      (with_powc (upd_last_update_ms ts) w')) as F.
        cbv zeta in F. destruct F as (_ & _ & _ & _ & _ & _ & _ & Ffb & _).
        rewrite Ffb. exact IH2.
      + pose proof (new_power_level_frame level
                      (snd (set_standby_off
                              (with_powc (upd_last_update_ms ts) w')))) as F.
        cbv zeta in F. destruct F as (_ & _ & _ & _ & _ & _ & Ffb & _).
        pose proof (set_standby_off_frame
                      (with_powc (upd_last_update_ms ts) w')) as G.
        cbv zeta in G. destruct G as (_ & _ & _ & _ & _ & _ & _ & Gfb & _).
        rewrite Ffb, Gfb. exact IH2.
    - destruct IH as [IH1 IH2]. unfold standby_at_fallback in *.
      rewrite Hsame. split; assumption. }
  destruct Hinv as [H1 H2]. intros Hsb.
  split; [rewrite (H1 Hsb); exact H2 | exact H2].
Qed.

Lemma standby_applies_fallback_witness :
  let w1 := snd (PowerControl_init STANDBY_TIMEOUT_SECONDS STANDBY_POWER_LEVEL
                   MINIMUM_PULSE_WIDTH_MS (power_up 0)) in
  let w2 := snd (PowerControl_poll_it (with_looper (tick_looper 60001) w1)) in
  engine_run w1 w2 /\ standby (powc w2) = true /\
  power_level (powc w2) = STANDBY_POWER_LEVEL /\
  standby_power_level (powc w2) = STANDBY_POWER_LEVEL.
Proof.
  cbv zeta.
  assert (H : engine_run
                (snd (PowerControl_init STANDBY_TIMEOUT_SECONDS
                        STANDBY_POWER_LEVEL MINIMUM_PULSE_WIDTH_MS
                        (power_up 0)))
                (snd (PowerControl_poll_it
                        (with_looper (tick_looper 60001)
                           (snd (PowerControl_init STANDBY_TIMEOUT_SECONDS
                                   STANDBY_POWER_LEVEL MINIMUM_PULSE_WIDTH_MS
                                   (power_up 0))))))).
  { apply run_poll.
    apply (run_others _ (snd (PowerControl_init STANDBY_TIMEOUT_SECONDS
                                STANDBY_POWER_LEVEL MINIMUM_PULSE_WIDTH_MS
                                (power_up 0)))).
    - apply run_start.
    - vm_compute. reflexivity. }
  assert (Hsb : standby
                  (powc (snd (PowerControl_poll_it
                           (with_looper (tick_looper 60001)
                              (snd (PowerControl_init STANDBY_TIMEOUT_SECONDS
                                      STANDBY_POWER_LEVEL
                                      MINIMUM_PULSE_WIDTH_MS
                                      (power_up 0))))))) = true)
    by (vm_compute; reflexivity).
  split; [exact H|]. split; [exact Hsb|].
  exact (standby_applies_fallback (power_up 0) _ STANDBY_TIMEOUT_SECONDS
           STANDBY_POWER_LEVEL MINIMUM_PULSE_WIDTH_MS H Hsb).
Defined.

(** ** The engine: how long a pulse lasts *)

Lemma mod_shift (x k : Z) : (x + k * TICKS_PERIOD) mod TICKS_PERIOD
                            = x mod TICKS_PERIOD.
Proof. apply Z_mod_plus_full. Qed.

Lemma ticks_diff_add (t d e : Z) :
  - 2 ^ 29 <= e - d < 2 ^ 29 ->
  ticks_diff (ticks_add t e) (ticks_add t d) = e - d.
Proof.
  intros H. unfold ticks_diff, ticks_add.
  assert (P : TICKS_PERIOD = 2 ^ 30) by reflexivity.
  assert (P2 : TICKS_PERIOD / 2 = 2 ^ 29) by reflexivity.
  rewrite P2.
  pose proof (Z.div_mod (t + e) TICKS_PERIOD ltac:(rewrite P; lia)) as E1.
  pose proof (Z.div_mod (t + d) TICKS_PERIOD ltac:(rewrite P; lia)) as E2.
  replace ((t + e) mod TICKS_PERIOD - (t + d) mod TICKS_PERIOD + 2 ^ 29)
    with (e - d + 2 ^ 29
          + ((t + d) / TICKS_PERIOD - (t + e) / TICKS_PERIOD) * TICKS_PERIOD)
    by lia.
  rewrite mod_shift. rewrite Z.mod_small; lia.
Qed.

Lemma ticks_diff_later (t l dt : Z) :
  - 2 ^ 29 <= ticks_diff t l + dt < 2 ^ 29 ->
  ticks_diff (ticks_add t dt) l = ticks_diff t l + dt.
Proof.
  intros H. unfold ticks_diff, ticks_add in *.
  assert (P : TICKS_PERIOD = 2 ^ 30) by reflexivity.
  assert (P2 : TICKS_PERIOD / 2 = 2 ^ 29) by reflexivity.
  rewrite P2 in *.
  pose proof (Z.div_mod (t + dt) TICKS_PERIOD ltac:(rewrite P; lia)) as E1.
  pose proof (Z.div_mod (t - l + 2 ^ 29) TICKS_PERIOD ltac:(rewrite P; lia))
    as E2.
  replace ((t + dt) mod TICKS_PERIOD - l + 2 ^ 29)
    with ((t - l + 2 ^ 29) mod TICKS_PERIOD + dt
          + ((t - l + 2 ^ 29) / TICKS_PERIOD - (t + dt) / TICKS_PERIOD)
            * TICKS_PERIOD)
    by lia.
  rewrite mod_shift. rewrite Z.mod_small; lia.
Qed.

Lemma ticks_add_add (t a b : Z) :
  ticks_add (ticks_add t a) b = ticks_add t (a + b).
Proof.
  unfold ticks_add. rewrite Zplus_mod_idemp_l. f_equal. lia.
Qed.

Lemma total_nonneg (dts : list Z) :
  Forall (fun dt => 0 <= dt) dts -> 0 <= total dts.
Proof.
  induction 1 as [| dt rest Hdt _ IH]; cbn [total]; lia.
Qed.

Lemma standby_due_pending (w : world) :
  standby_due w =
    standby_pending w
    && (ticks_diff (current_time_ms (looper w)) (last_update_ms (powc w))
          >? standby_timeout (powc w)).
Proof. reflexivity. Qed.

(** A poll that finds nothing new, no standby to enter and the flip not
    yet due changes nothing. *)
Lemma poll_it_idle (w : world) (r : bus_record) :
  messages (looper w) !! power_settings (powc w) = Some r ->
  stamp r = last_update_ms (powc w) ->
  standby_due w = false ->
  ticks_diff (current_time_ms (looper w)) (change_ms (powc w)) < 0 ->
  PowerControl_poll_it w = (Ok tt, w).
Proof.
  intros Hr Hs Hdue Hlt. rewrite (poll_it_quiet w r Hr Hs), Hdue.
  unfold square_wave.
  assert (E : (0 <=? ticks_diff (current_time_ms (looper w))
                      (change_ms (powc w))) = false)
    by (apply Z.leb_gt; exact Hlt).
  rewrite E. reflexivity.
Qed.

(** X4.  Once the next flip is scheduled [d] ms ahead, [d] at most half
    the period of the clock, the polls of the cycles before those [d] ms
    have passed leave the engine as it is, whatever the value of the
    wrapping clock: a pulse is never cut short.  The bus is silent
    meanwhile, and either no standby is pending or its timeout does not
    run out. *)
Theorem pulse_not_cut_short (w : world) (r : bus_record) (dts : list Z)
    (d : Z) :
  messages (looper w) !! power_settings (powc w) = Some r ->
  stamp r = last_update_ms (powc w) ->
  change_ms (powc w) = ticks_add (current_time_ms (looper w)) d ->
  Forall (fun dt => 0 <= dt) dts ->
  total dts < d -> d <= 2 ^ 29 ->
  (standby_pending w = false \/
   (0 <= ticks_diff (current_time_ms (looper w)) (last_update_ms (powc w)) /\
    ticks_diff (current_time_ms (looper w)) (last_update_ms (powc w))
      + total dts <= standby_timeout (powc w) /\
    standby_timeout (powc w) < 2 ^ 29)) ->
  fst (silent_cycles dts w) = Ok tt /\
  powc (snd (silent_cycles dts w)) = powc w.
Proof.
  intros Hr Hs Hch Hdts. revert w d Hr Hs Hch.
  induction Hdts as [| dt rest Hdt Hrest IH]; intros w d Hr Hs Hch Htot Hd Hsb.
  - cbn. split; reflexivity.
  - cbn [total] in Htot, Hsb.
    pose proof (total_nonneg rest Hrest) as Hnn.
    set (w1 := with_looper (tick_looper dt) w).
    assert (Hch1 : change_ms (powc w1)
                   = ticks_add (current_time_ms (looper w1)) (d - dt)).
    { cbn. rewrite ticks_add_add, Hch. f_equal. lia. }
    assert (Hidle : PowerControl_poll_it w1 = (Ok tt, w1)).
    { apply (poll_it_idle w1 r); [exact Hr | exact Hs | |].
      - rewrite standby_due_pending.
        destruct Hsb as [Hsb | (H0 & Hle & Hto)].
        + change (standby_pending w1) with (standby_pending w).
          rewrite Hsb. reflexivity.
        + apply andb_false_iff. right. rewrite Z.gtb_ltb. apply Z.ltb_ge.
          cbn. rewrite ticks_diff_later; lia.
      - cbn. rewrite Hch.
        replace (current_time_ms (looper w))
          with (current_time_ms (looper w)) by reflexivity.
        rewrite ticks_diff_add; lia. }
    assert (Hsb1 : standby_pending w1 = false \/
              (0 <= ticks_diff (current_time_ms (looper w1))
                      (last_update_ms (powc w1)) /\
               ticks_diff (current_time_ms (looper w1))
                 (last_update_ms (powc w1)) + total rest
                 <= standby_timeout (powc w1) /\
               standby_timeout (powc w1) < 2 ^ 29)).
    { destruct Hsb as [Hsb | (H0 & Hle & Hto)]; [left; exact Hsb | right].
      cbn. rewrite ticks_diff_later; lia. }
    destruct (IH w1 (d - dt) Hr Hs Hch1 ltac:(lia) ltac:(lia) Hsb1)
      as [IH1 IH2].
    assert (E : silent_cycles (dt :: rest) w = silent_cycles rest w1).
    { change (silent_cycles (dt :: rest) w)
        with ((tick dt ;; PowerControl_poll_it ;; silent_cycles rest) w).
      unfold bind at 1. cbn [tick modify]. fold w1.
      unfold bind at 1. rewrite Hidle. reflexivity. }
    rewrite E. split; [exact IH1 | exact IH2].
Qed.

(** X5.  The first poll that finds the scheduled flip due, up to half a
    period of the clock late, flips the output when the other duration of
    the plan is positive, and times the pulse that follows from the
    moment of that poll, not from the deadline; when the other duration
    is zero the poll changes nothing.  The bus is silent and no standby
    is entered. *)
Theorem pulse_ends_when_due (w : world) (r : bus_record) (t0 d e : Z) :
  messages (looper w) !! power_settings (powc w) = Some r ->
  stamp r = last_update_ms (powc w) ->
  standby_due w = false ->
  change_ms (powc w) = ticks_add t0 d ->
  current_time_ms (looper w) = ticks_add t0 e ->
  d <= e < d + 2 ^ 29 ->
  let w' := snd (PowerControl_poll_it w) in
  let next := if power_on (powc w) then off_ms (powc w) else on_ms (powc w) in
  fst (PowerControl_poll_it w) = Ok tt /\
  (0 < next ->
     power_control_pin (powc w') = negb (power_on (powc w)) /\
     power_on (powc w') = negb (power_on (powc w)) /\
     change_ms (powc w') = ticks_add (current_time_ms (looper w)) next) /\
  (next <= 0 -> w' = w).
Proof.
  intros Hr Hs Hdue Hch Hnow He. cbv zeta.
  rewrite (poll_it_quiet w r Hr Hs), Hdue. cbn [fst snd].
  split; [reflexivity|].
  unfold square_wave.
  assert (E : (0 <=? ticks_diff (current_time_ms (looper w))
                      (change_ms (powc w))) = true).
  { apply Z.leb_le. rewrite Hch, Hnow, ticks_diff_add; lia. }
  rewrite E.
  destruct (power_on (powc w)).
  - destruct (off_ms (powc w) >? 0) eqn:E2.
    + apply Z.gtb_lt in E2. split; [intros _; repeat split | lia].
    + rewrite Z.gtb_ltb in E2. apply Z.ltb_ge in E2.
      split; [lia | reflexivity].
  - destruct (on_ms (powc w) >? 0) eqn:E2.
    + apply Z.gtb_lt in E2. split; [intros _; repeat split | lia].
    + rewrite Z.gtb_ltb in E2. apply Z.ltb_ge in E2.
      split; [lia | reflexivity].
Qed.

Lemma pulse_not_cut_short_witness :
  fst (silent_cycles [1000; 1000; 999] running_at_60) = Ok tt /\
  powc (snd (silent_cycles [1000; 1000; 999] running_at_60))
    = powc running_at_60.
Proof.
  destruct (messages (looper running_at_60)
              !! power_settings (powc running_at_60)) as [r |] eqn:Hr;
    [| vm_compute in Hr; discriminate Hr].
  assert (E : stamp r = 100) by (vm_compute in Hr; inversion Hr; reflexivity).
  apply (pulse_not_cut_short running_at_60 r [1000; 1000; 999] 3000 Hr).
  - rewrite E. vm_compute. reflexivity.
  - vm_compute. reflexivity.
  - repeat constructor; lia.
  - vm_compute. reflexivity.
  - lia.
  - right. split; [|split]; vm_compute; try reflexivity; discriminate.
Defined.

Lemma pulse_ends_when_due_witness :
  let w := snd (tick 3000 running_at_60) in
  let w' := snd (PowerControl_poll_it w) in
  let next := if power_on (powc w) then off_ms (powc w) else on_ms (powc w) in
  fst (PowerControl_poll_it w) = Ok tt /\
  (0 < next ->
     power_control_pin (powc w') = negb (power_on (powc w)) /\
     power_on (powc w') = negb (power_on (powc w)) /\
     change_ms (powc w') = ticks_add (current_time_ms (looper w)) next) /\
  (next <= 0 -> w' = w).
Proof.
  destruct (messages (looper (snd (tick 3000 running_at_60)))
              !! power_settings (powc (snd (tick 3000 running_at_60))))
    as [r |] eqn:Hr; [| vm_compute in Hr; discriminate Hr].
  assert (E : stamp r = 100) by (vm_compute in Hr; inversion Hr; reflexivity).
  apply (pulse_ends_when_due (snd (tick 3000 running_at_60)) r 100 3000 3000
           Hr).
  - rewrite E. vm_compute. reflexivity.
  - vm_compute. reflexivity.
  - vm_compute. reflexivity.
  - vm_compute. reflexivity.
  - lia.
Defined.
(** ** The range of the finite floats *)






(** ** A request on its way from the gateway to the engine *)

(** The world after the gateway has stored the level of a request. *)
Lemma udp_turn_set_power_level (w : world) (v : pyval) (f : pyfloat) :
  poll_udp (getc w) = true -> py_float v = Ok f ->
  GetCommand_poll_it [Request (request_set_power_level v)] None w =
    (Ok tt,
     with_looper (message_set_looper "powercontrol"
                    (<["power_level" := VFloat (py_round1 f)]> ∅))
       (with_getc (fun g => {| poll_udp := false;
                               gc_power_settings := gc_power_settings g |})
          w)).
Proof.
  intros Hudp Hf. unfold GetCommand_poll_it. unfold bind at 1. cbn.
  rewrite Hudp. unfold bind at 1. cbn [modify].
  cbn [udp_loop]. unfold try_except at 1, bind at 1, lift at 1.
  cbn [decode_loads].
  unfold bind at 1.
  rewrite process_request_set_power_level.
  erewrite set_power_level_writes;
    [| apply lookup_insert_eq | exact Hf].
  reflexivity.
Qed.

Lemma gateway_then_engine (w : world) (v : pyval) (f : pyfloat) :
  poll_udp (getc w) = true ->
  power_settings (powc w) = "powercontrol" ->
  py_float v = Ok f ->
  current_time_ms (looper w) <> last_update_ms (powc w) ->
  exists w2,
    looper w2 = message_set_looper "powercontrol"
                  (<["power_level" := VFloat (py_round1 f)]> ∅) (looper w) /\
    powc w2 = powc (snd (set_standby_off
                 (with_powc (upd_last_update_ms (current_time_ms (looper w)))
                    w))) /\
    (GetCommand_poll_it [Request (request_set_power_level v)] None ;;
     PowerControl_poll_it) w =
      if f_ne (py_round1 f) (power_level (powc w))
      then new_power_level (py_round1 f) w2 else (Ok tt, w2).
Proof.
  intros Hudp Hps Hf Hnow.
  set (w1 := with_looper (message_set_looper "powercontrol"
                    (<["power_level" := VFloat (py_round1 f)]> ∅))
       (with_getc (fun g => {| poll_udp := false;
                               gc_power_settings := gc_power_settings g |})
          w)).
  exists (snd (set_standby_off
            (with_powc (upd_last_update_ms (current_time_ms (looper w))) w1))).
  pose proof (set_standby_off_frame
     (with_powc (upd_last_update_ms (current_time_ms (looper w))) w1)) as F.
  cbv zeta in F. destruct F as (Fl & _).
  split; [rewrite Fl; reflexivity|].
  split.
  { unfold set_standby_off, bind; cbn.
    destruct (standby (powc w)); reflexivity. }
  unfold bind at 1. rewrite (udp_turn_set_power_level w v f Hudp Hf).
  fold w1.
  set (r := {| fields := <["power_level" := VFloat (py_round1 f)]> ∅
                         ∪ match messages (looper w) !! "powercontrol" with
                           | Some r0 => fields r0
                           | None => ∅
                           end;
               stamp := current_time_ms (looper w) |}).
  assert (Hr : messages (looper w1) !! power_settings (powc w1) = Some r).
  { cbn. rewrite Hps. apply lookup_insert_eq. }
  assert (Hs : stamp r <> last_update_ms (powc w1)) by exact Hnow.
  rewrite (poll_it_update w1 r Hr Hs).
  assert (Hv : fields r !! "power_level" = Some (VFloat (py_round1 f))).
  { cbn. apply lookup_union_Some_l. apply lookup_insert_eq. }
  rewrite Hv. cbn [py_ne_float py_num num_operand].
  reflexivity.
Qed.

Lemma cycle_unfold (dt : Z) (queued : list datagram)
    (pending : option connection) (w : world) :
  cycle dt queued pending w =
    (GetCommand_poll_it queued pending ;; PowerControl_poll_it)
      (with_looper (tick_looper dt) w).
Proof. reflexivity. Qed.





(** ** Levels that are not finite, and levels below zero *)

(** X7.  [float] accepts the strings [inf] and [nan], and neither the
    gateway nor the engine rejects what it returns.  The cycle in which
    such a request arrives raises out of the poll of the engine,
    [OverflowError] for an infinity and [ValueError] for NaN, from the
    [int] of the display of the level; by then the level is applied: plus
    infinity has switched the output on with the always-on plan, minus
    infinity and NaN have switched it off with the always-off plan. *)
Theorem request_not_finite_raises (w : world) (v : pyval) (f : pyfloat)
    (dt : Z) (q0 : Q) :
  poll_udp (getc w) = true ->
  power_settings (powc w) = "powercontrol" ->
  py_float v = Ok f ->
  ticks_add (current_time_ms (looper w)) dt <> last_update_ms (powc w) ->
  power_level (powc w) = Fin q0 ->
  let run := cycle dt [Request (request_set_power_level v)] None w in
  let c := powc (snd run) in
  (f = PInf ->
     fst run = Raise OverflowError /\ power_level c = PInf /\
     power_control_pin c = true /\ on_ms c = 999999 /\ off_ms c = 0) /\
  (f = NInf ->
     fst run = Raise OverflowError /\ power_level c = NInf /\
     power_control_pin c = false /\ on_ms c = 0 /\ off_ms c = 999999) /\
  (f = NaN ->
     fst run = Raise ValueError /\ power_level c = NaN /\
     power_control_pin c = false /\ on_ms c = 0 /\ off_ms c = 999999).
Proof.
  intros Hudp Hps Hf Hnow Hq0. cbv zeta. rewrite cycle_unfold.
  set (w0 := with_looper (tick_looper dt) w).
  destruct (gateway_then_engine w0 v f Hudp Hps Hf Hnow)
    as (w2 & Hl & Hp & E).
  rewrite E. clear E.
  pose proof (set_standby_off_frame
     (with_powc (upd_last_update_ms (current_time_ms (looper w0))) w0)) as F.
  cbv zeta in F. rewrite <- Hp in F.
  destruct F as (_ & _ & _ & _ & Flevel & _).
  cbn in Flevel. rewrite Hq0 in Flevel.
  change (power_level (powc w0)) with (power_level (powc w)).
  rewrite Hq0.
  split; [|split]; intros ->; cbn [py_round1 f_ne f_eq negb].
  - rewrite new_power_level_inf. unfold committed. cbn. rewrite Flevel.
    repeat split.
  - rewrite (new_power_level_not_a_level NInf w2 ltac:(left; reflexivity)).
    unfold committed. cbn. rewrite Flevel. repeat split.
  - rewrite (new_power_level_not_a_level NaN w2 ltac:(right; reflexivity)).
    unfold committed. cbn. repeat split.
Qed.

Lemma request_not_finite_raises_witness :
  let run := cycle 100 [Request (request_set_power_level (VStr "inf"))] None
               (snd (main 0)) in
  let c := powc (snd run) in
  (PInf = PInf ->
     fst run = Raise OverflowError /\ power_level c = PInf /\
     power_control_pin c = true /\ on_ms c = 999999 /\ off_ms c = 0) /\
  (PInf = NInf ->
     fst run = Raise OverflowError /\ power_level c = NInf /\
     power_control_pin c = false /\ on_ms c = 0 /\ off_ms c = 999999) /\
  (PInf = NaN ->
     fst run = Raise ValueError /\ power_level c = NaN /\
     power_control_pin c = false /\ on_ms c = 0 /\ off_ms c = 999999).
Proof.
  apply (request_not_finite_raises (snd (main 0)) (VStr "inf") PInf 100 50).
  - vm_compute. reflexivity.
  - vm_compute. reflexivity.
  - vm_compute. reflexivity.
  - vm_compute. discriminate.
  - vm_compute. reflexivity.
Defined.





(** ** The plan as a function of the level *)

Lemma Qtrunc_mono (x y : Q) :
  (0 <= x)%Q -> (x <= y)%Q -> Qtrunc x <= Qtrunc y.
Proof.
  intros Hx Hxy. rewrite (Qtrunc_floor x Hx), (Qtrunc_floor y) by lra.
  apply Qfloor_resp_le. exact Hxy.
Qed.

(** A smaller divisor gives a quotient that is no smaller. *)
Lemma quotient_anti (m d1 d2 : Q) :
  (0 <= m)%Q -> (0 < d2)%Q -> (d2 <= d1)%Q ->
  (0 <= rndq (m / d1))%Q /\ (rndq (m / d1) <= rndq (m / d2))%Q.
Proof.
  intros Hm Hd2 Hd.
  assert (Hd1z : ~ (d1 == 0)%Q) by (intros E; rewrite E in Hd; lra).
  assert (E1 : (m / d1 * d1 == m)%Q) by (field; exact Hd1z).
  assert (Hy : (0 <= m / d1)%Q).
  { apply Qle_shift_div_l; [lra|]. lra. }
  split.
  - apply rndq_ge; [apply (is_float_small 0); lia | exact Hy].
  - apply rndq_mono. apply Qle_shift_div_l; [exact Hd2|].
    assert (G : (0 <= m / d1 * (d1 - d2))%Q)
      by (apply Qmult_le_0_compat; lra).
    lra.
Qed.

Lemma rndq_nonneg (x : Q) : (0 <= x)%Q -> (0 <= rndq x)%Q.
Proof. intros H. apply rndq_ge; [apply (is_float_small 0); lia | exact H]. Qed.

Lemma ratio_on_mono (M : Z) (q1 q2 : Q) :
  0 <= M -> (50 <= q1)%Q -> (q1 <= q2)%Q -> (q2 <= 99)%Q ->
  Qtrunc (ratio_on M q1) <= Qtrunc (ratio_on M q2).
Proof.
  intros HM H50 Hq H99. unfold ratio_on.
  destruct (divisor_on_fin q2 ltac:(lra) H99) as (d2 & _ & Hd2 & Hlo & _).
  pose proof c001_pos as Hc.
  assert (Hs : (rndq (100 - q2) <= rndq (100 - q1))%Q)
    by (apply rndq_mono; lra).
  assert (Hp : (rndq (100 - q2) * c001 <= rndq (100 - q1) * c001)%Q).
  { assert (G : (0 <= (rndq (100 - q1) - rndq (100 - q2)) * c001)%Q)
      by (apply Qmult_le_0_compat; lra).
    lra. }
  destruct (quotient_anti (rndq (inject_Z M))
              (rndq (rndq (100 - q1) * c001))
              (rndq (rndq (100 - q2) * c001))) as [G0 G1].
  - apply rndq_nonneg, inject_Z_nonneg. exact HM.
  - rewrite <- Hd2. lra.
  - apply rndq_mono. exact Hp.
  - apply Qtrunc_mono; assumption.
Qed.

Lemma ratio_off_mono (M : Z) (q1 q2 : Q) :
  0 <= M -> (1 <= q1)%Q -> (q1 <= q2)%Q -> (q2 < 50)%Q ->
  Qtrunc (ratio_off M q2) <= Qtrunc (ratio_off M q1).
Proof.
  intros HM H1 Hq H50. unfold ratio_off.
  destruct (divisor_off_fin q1 H1 ltac:(lra)) as (d1 & _ & Hd1 & Hlo & _).
  pose proof c001_pos as Hc.
  assert (Hp : (q1 * c001 <= q2 * c001)%Q).
  { assert (G : (0 <= (q2 - q1) * c001)%Q)
      by (apply Qmult_le_0_compat; lra).
    lra. }
  destruct (quotient_anti (rndq (inject_Z M))
              (rndq (q2 * c001)) (rndq (q1 * c001))) as [G0 G1].
  - apply rndq_nonneg, inject_Z_nonneg. exact HM.
  - rewrite <- Hd1. lra.
  - apply rndq_mono. exact Hp.
  - apply Qtrunc_mono; assumption.
Qed.

(** X9.  With a minimum pulse width of at most 10101 ms, so that
    [99 * M] stays below the 999999 of the always-on and always-off
    plans, the plan is monotonic in the level over all finite levels: a
    higher level never has a shorter on-time nor a longer off-time. *)
Theorem plan_monotone (w : world) (q1 q2 : Q) :
  0 < minimum_pulse_ms (powc w) <= 10101 ->
  (q1 <= q2)%Q ->
  let c1 := powc (snd (new_power_level (Fin q1) w)) in
  let c2 := powc (snd (new_power_level (Fin q2) w)) in
  on_ms c1 <= on_ms c2 /\ off_ms c2 <= off_ms c1.
Proof.
  intros [HM HM'] Hq. cbv zeta.
  assert (HM44 : 0 < minimum_pulse_ms (powc w) <= 2 ^ 44).
  { assert (10101 <= 2 ^ 44) by (vm_compute; discriminate). lia. }
  pose proof (new_power_level_plan w q1 HM44) as P1.
  pose proof (new_power_level_plan w q2 HM44) as P2.
  cbv zeta in P1, P2.
  set (M := minimum_pulse_ms (powc w)) in *.
  destruct P1 as (A1 & B1 & C1 & D1). destruct P2 as (A2 & B2 & C2 & D2).
  destruct (Qlt_le_dec 99 q1) as [H1a | H1a];
    [| destruct (Qlt_le_dec q1 50) as [H1b | H1b];
       [destruct (Qlt_le_dec q1 1) as [H1c | H1c] |]];
  (destruct (Qlt_le_dec 99 q2) as [H2a | H2a];
    [| destruct (Qlt_le_dec q2 50) as [H2b | H2b];
       [destruct (Qlt_le_dec q2 1) as [H2c | H2c] |]]);
  try (exfalso; lra);
  try specialize (A1 H1a); try specialize (B1 H1b H1a);
  try specialize (C1 H1c H1b); try specialize (D1 H1c);
  try specialize (A2 H2a); try specialize (B2 H2b H2a);
  try specialize (C2 H2c H2b); try specialize (D2 H2c).
  all: try (pose proof (ratio_off_mono M q1 q2 ltac:(lia) H1c Hq H2b)).
  all: try (pose proof (ratio_on_mono M q1 q2 ltac:(lia) H1b Hq H2a)).
  all: repeat match goal with
              | H : _ /\ _ |- _ => destruct H
              end.
  all: lia.
Qed.

Lemma plan_monotone_witness :
  let c1 := powc (snd (new_power_level (Fin 30) (snd (main 0)))) in
  let c2 := powc (snd (new_power_level (Fin 75) (snd (main 0)))) in
  on_ms c1 <= on_ms c2 /\ off_ms c2 <= off_ms c1.
Proof.
  apply (plan_monotone (snd (main 0)) 30 75).
  - vm_compute. split; [reflexivity | discriminate].
  - vm_compute. discriminate.
Defined.
(** ** The gateway: what a poll can do to the world *)

Lemma writes_powercontrol_only_refl (w : world) :
  writes_powercontrol_only w w.
Proof. unfold writes_powercontrol_only. repeat split; auto. Qed.

Lemma writes_powercontrol_only_trans (w1 w2 w3 : world) :
  writes_powercontrol_only w1 w2 -> writes_powercontrol_only w2 w3 ->
  writes_powercontrol_only w1 w3.
Proof.
  unfold writes_powercontrol_only.
  intros (A1 & A2 & A3 & A4 & A5 & A6 & A7) (B1 & B2 & B3 & B4 & B5 & B6 & B7).
  repeat split; try congruence.
  - intros topic Ht. rewrite (B6 topic Ht). apply A6. exact Ht.
  - intros H. apply B7, A7, H.
Qed.

Lemma message_set_powercontrol_only (w : world) (d : gmap string pyval) :
  writes_powercontrol_only w
    (with_looper (message_set_looper "powercontrol" d) w).
Proof.
  unfold writes_powercontrol_only. cbn. repeat split; auto.
  intros topic Ht. apply lookup_insert_ne. congruence.
Qed.

Lemma set_power_level_cases (params : pyval) (w : world) :
  snd (set_power_level params w) = w \/
  exists f, snd (set_power_level params w) =
              with_looper (message_set_looper "powercontrol"
                             (<["power_level" := VFloat f]> ∅)) w.
Proof.
  unfold set_power_level, bind, lift, try_except.
  destruct (py_in "power_level" params) as [[] |]; cbn; auto.
  destruct (py_getitem params "power_level") as [v |]; cbn; auto.
  destruct (py_float v) as [f |]; cbn; auto.
  right. exists (py_round1 f). reflexivity.
Qed.

Lemma set_power_level_only (params : pyval) (w : world) :
  writes_powercontrol_only w (snd (set_power_level params w)).
Proof.
  destruct (set_power_level_cases params w) as [E | (f & E)]; rewrite E.
  - apply writes_powercontrol_only_refl.
  - apply message_set_powercontrol_only.
Qed.

Lemma poller_shutdown_only (w : world) :
  writes_powercontrol_only w (snd (poller_shutdown w)).
Proof. unfold writes_powercontrol_only. cbn. repeat split; auto. Qed.

Lemma process_request_cases (request : pyval) (w : world) :
  snd (process_request request w) = w \/
  (exists params, snd (process_request request w)
                  = snd (set_power_level params w)) \/
  snd (process_request request w) = snd (poller_shutdown w).
Proof.
  unfold process_request, bind, lift.
  destruct (py_in "jsonrpc" request) as [[] |]; cbn; auto.
  destruct (py_in "method" request) as [[] |]; cbn; auto.
  destruct (py_in "params" request) as [[] |]; cbn; auto.
  destruct (py_getitem request "method") as [method |]; cbn; auto.
  destruct (py_eq_str method "set_power_level").
  - destruct (py_getitem request "params") as [params |]; cbn; auto.
    right. left. exists params. reflexivity.
  - destruct (py_eq_str method "pid_update").
    + destruct (py_getitem request "params") as [params |]; cbn; auto.
      destruct (py_in "current_temperature" params); cbn; auto.
    + destruct (py_eq_str method "shutdown"); cbn; auto.
Qed.

Lemma process_request_only (request : pyval) (w : world) :
  writes_powercontrol_only w (snd (process_request request w)).
Proof.
  destruct (process_request_cases request w) as [E | [(p & E) | E]];
    rewrite E.
  - apply writes_powercontrol_only_refl.
  - apply set_power_level_only.
  - apply poller_shutdown_only.
Qed.

#[local] Arguments process_request : simpl never.
#[local] Arguments set_power_level : simpl never.
#[local] Arguments ref_get : simpl never.
#[local] Arguments py_getitem : simpl never.
#[local] Arguments num_operand : simpl never.

Lemma udp_loop_only (queued : list datagram) (w : world) :
  writes_powercontrol_only w (snd (udp_loop queued w)).
Proof.
  revert w. induction queued as [| message rest IH]; intros w.
  - apply writes_powercontrol_only_refl.
  - cbn [udp_loop]. unfold try_except, bind, lift.
    destruct (decode_loads message) as [request |]; cbn.
    + pose proof (process_request_only request w) as H.
      destruct (process_request request w) as [[[] | e] w1]; cbn in *.
      * apply (writes_powercontrol_only_trans w w1); [exact H | apply IH].
      * destruct (is_OSError e); exact H.
    + destruct (is_OSError e); apply writes_powercontrol_only_refl.
Qed.

Lemma ref_get_world (topic key : string) (w : world) :
  snd (ref_get topic key w) = w.
Proof.
  unfold ref_get, bind, gets; cbn.
  destruct (messages (looper w) !! topic) as [r |]; [|reflexivity].
  destruct (fields r !! key); reflexivity.
Qed.

Lemma web_input_only (pending : option connection) (w : world) :
  writes_powercontrol_only w (snd (web_input pending w)).
Proof.
  unfold web_input, bind at 1. cbn [self_getc gets].
  unfold try_except.
  destruct pending as [[[d |]] |]; cbn;
    try apply writes_powercontrol_only_refl.
  unfold bind, lift.
  destruct (py_getitem (VDict d) "param_count") as [count |]; cbn;
    [| destruct (is_OSError e); apply writes_powercontrol_only_refl].
  destruct (num_operand count) as [n |]; cbn;
    [| destruct (is_OSError e); apply writes_powercontrol_only_refl].
  destruct (f_gt n (Fin 0)).
  - pose proof (set_power_level_only (VDict d) w) as H.
    destruct (set_power_level (VDict d) w) as [[[] | e] w1]; cbn in *.
    + pose proof (ref_get_world (gc_power_settings (getc w)) "power_level" w1)
        as G.
      destruct (ref_get (gc_power_settings (getc w)) "power_level" w1)
        as [[v | e] w2]; cbn in *; subst w2;
        [exact H | destruct (is_OSError e); exact H].
    + destruct (is_OSError e); exact H.
  - cbn.
    pose proof (ref_get_world (gc_power_settings (getc w)) "power_level" w)
      as G.
    destruct (ref_get (gc_power_settings (getc w)) "power_level" w)
      as [[v | e] w2]; cbn in *; subst w2;
      [| destruct (is_OSError e)]; apply writes_powercontrol_only_refl.
Qed.

Lemma set_power_level_getc (params : pyval) (w : world) :
  getc (snd (set_power_level params w)) = getc w.
Proof.
  destruct (set_power_level_cases params w) as [E | (f & E)]; rewrite E;
    reflexivity.
Qed.

Lemma process_request_getc (request : pyval) (w : world) :
  getc (snd (process_request request w)) = getc w.
Proof.
  destruct (process_request_cases request w) as [E | [(p & E) | E]];
    rewrite E; [reflexivity | apply set_power_level_getc | reflexivity].
Qed.

Lemma udp_loop_getc (queued : list datagram) (w : world) :
  getc (snd (udp_loop queued w)) = getc w.
Proof.
  revert w. induction queued as [| message rest IH]; intros w; [reflexivity|].
  cbn [udp_loop]. unfold try_except, bind, lift.
  destruct (decode_loads message) as [request |]; cbn.
  - pose proof (process_request_getc request w) as G.
    destruct (process_request request w) as [[[] | e] w1]; cbn in *.
    + rewrite IH. exact G.
    + destruct (is_OSError e); exact G.
  - destruct (is_OSError e); reflexivity.
Qed.

Lemma web_input_getc (pending : option connection) (w : world) :
  getc (snd (web_input pending w)) = getc w.
Proof.
  unfold web_input, bind at 1. cbn [self_getc gets].
  unfold try_except.
  destruct pending as [[[d |]] |]; cbn; try reflexivity.
  unfold bind, lift.
  destruct (py_getitem (VDict d) "param_count") as [count |]; cbn;
    [| destruct (is_OSError e); reflexivity].
  destruct (num_operand count) as [n |]; cbn;
    [| destruct (is_OSError e); reflexivity].
  destruct (f_gt n (Fin 0)).
  - pose proof (set_power_level_getc (VDict d) w) as G.
    destruct (set_power_level (VDict d) w) as [[[] | e] w1]; cbn in *.
    + pose proof (ref_get_world (gc_power_settings (getc w))
                    "power_level" w1) as R.
      destruct (ref_get (gc_power_settings (getc w)) "power_level" w1)
        as [[v | e] w2]; cbn in *; subst w2;
        [exact G | destruct (is_OSError e); exact G].
    + destruct (is_OSError e); exact G.
  - cbn.
    pose proof (ref_get_world (gc_power_settings (getc w))
                  "power_level" w) as R.
    destruct (ref_get (gc_power_settings (getc w)) "power_level" w)
      as [[v | e] w2]; cbn in *; subst w2;
      [| destruct (is_OSError e)]; reflexivity.
Qed.

Lemma GetCommand_poll_it_turn (queued : list datagram)
    (pending : option connection) (w : world) :
  GetCommand_poll_it queued pending w =
    if poll_udp (getc w)
    then udp_loop queued
           (with_getc (fun g => {| poll_udp := false;
                                   gc_power_settings := gc_power_settings g |})
              w)
    else web_input pending
           (with_getc (fun g => {| poll_udp := true;
                                   gc_power_settings := gc_power_settings g |})
              w).
Proof.
  unfold GetCommand_poll_it. unfold bind at 1. cbn [self_getc gets].
  destruct (poll_udp (getc w)); reflexivity.
Qed.

(** X10.  Whatever is queued on the sockets, and whether it returns or
    raises, a poll of the gateway flips its turn flag, leaves the engine,
    the bridge and the clock alone, changes no bus record other than that
    of the [powercontrol] topic, and never takes back a requested
    shutdown. *)
Theorem GetCommand_poll_it_writes_powercontrol_only
    (queued : list datagram) (pending : option connection) (w : world) :
  let w' := snd (GetCommand_poll_it queued pending w) in
  poll_udp (getc w') = negb (poll_udp (getc w)) /\
  writes_powercontrol_only w w'.
Proof.
  cbv zeta. rewrite GetCommand_poll_it_turn.
  destruct (poll_udp (getc w)) eqn:Eudp.
  - set (w0 := with_getc _ w).
    pose proof (udp_loop_only queued w0) as H.
    destruct H as (H1 & H2 & H3 & H4 & H5 & H6 & H7).
    split; [rewrite udp_loop_getc; reflexivity|].
    exact (conj H1 (conj H2 (conj H3 (conj H4 (conj H5 (conj H6 H7)))))).
  - set (w0 := with_getc _ w).
    pose proof (web_input_only pending w0) as H.
    destruct H as (H1 & H2 & H3 & H4 & H5 & H6 & H7).
    split; [rewrite web_input_getc; reflexivity|].
    exact (conj H1 (conj H2 (conj H3 (conj H4 (conj H5 (conj H6 H7)))))).
Qed.

Lemma process_request_with_params (params : pyval) (w : world) :
  process_request (request_with_params "set_power_level" params) w =
    set_power_level params w.
Proof. reflexivity. Qed.

Lemma process_request_scalar (request : pyval) (w : world) :
  is_scalar request = true ->
  process_request request w = (Raise TypeError, w).
Proof.
  intros H. destruct request; try discriminate H; reflexivity.
Qed.

(** X11.  Only [OSError] is handled in the datagram loop.  A datagram
    that decodes to a JSON number, boolean or null, and a
    [set_power_level] request whose [params] is one, make [poll_it] raise
    [TypeError] from the [in] test, with the bus as it was and the
    datagrams queued behind it unread.  A [set_power_level] request whose
    [params] is an array or a string is dropped and the loop goes on:
    there the failing subscript is inside the [try]. *)
Theorem poll_it_on_params_not_an_object (v : pyval) (rest : list datagram)
    (w : world) :
  poll_udp (getc w) = true ->
  let w0 := with_getc (fun g => {| poll_udp := false;
                                   gc_power_settings := gc_power_settings g |})
              w in
  (is_scalar v = true ->
     GetCommand_poll_it (Request v :: rest) None w = (Raise TypeError, w0) /\
     GetCommand_poll_it
       (Request (request_with_params "set_power_level" v) :: rest) None w
     = (Raise TypeError, w0)) /\
  ((exists l, v = VList l) \/ (exists s, v = VStr s) ->
     GetCommand_poll_it
       (Request (request_with_params "set_power_level" v) :: rest) None w
     = GetCommand_poll_it rest None w).
Proof.
  intros Hudp. cbv zeta. split.
  - intros Hv. rewrite !GetCommand_poll_it_turn, Hudp.
    cbn [udp_loop]. unfold try_except, bind, lift. cbn [decode_loads].
    rewrite process_request_with_params.
    rewrite (process_request_scalar v _ Hv), (set_power_level_scalar v _ Hv).
    split; reflexivity.
  - intros Hv. rewrite !GetCommand_poll_it_turn, Hudp.
    cbn [udp_loop]. unfold try_except at 1, bind at 1 2, lift at 1.
    cbn [decode_loads].
    rewrite process_request_with_params.
    rewrite (set_power_level_not_indexable v _ Hv). reflexivity.
Qed.

Lemma poll_it_on_params_not_an_object_witness :
  let w := snd (main 0) in
  let w0 := with_getc (fun g => {| poll_udp := false;
                                   gc_power_settings := gc_power_settings g |})
              w in
  (is_scalar (VInt 42) = true ->
     GetCommand_poll_it [Request (VInt 42)] None w = (Raise TypeError, w0) /\
     GetCommand_poll_it
       [Request (request_with_params "set_power_level" (VInt 42))] None w
     = (Raise TypeError, w0)) /\
  ((exists l, VInt 42 = VList l) \/ (exists s, VInt 42 = VStr s) ->
     GetCommand_poll_it
       [Request (request_with_params "set_power_level" (VInt 42))] None w
     = GetCommand_poll_it [] None w).
Proof.
  apply (poll_it_on_params_not_an_object (VInt 42) [] (snd (main 0))).
  vm_compute. reflexivity.
Defined.

(** ** The shutdown timer *)

Lemma ticks_diff_refl (t : Z) : ticks_diff t t = 0.
Proof.
  unfold ticks_diff. replace (t - t + TICKS_PERIOD / 2)
    with (TICKS_PERIOD / 2) by lia.
  reflexivity.
Qed.

Lemma ticks_diff_step (t dt : Z) :
  - 2 ^ 29 <= dt < 2 ^ 29 -> ticks_diff (ticks_add t dt) t = dt.
Proof.
  intros H. rewrite ticks_diff_later; rewrite ticks_diff_refl; lia.
Qed.

(** [poller.shutdown ()] in a method is [shutdown_looper] on the looper
    of the world. *)
Lemma poller_shutdown_looper (w : world) :
  poller_shutdown w = (Ok tt, with_looper shutdown_looper w).
Proof. reflexivity. Qed.

(** The state of a timer that is set, after cycles of less than half a
    period of the clock each. *)
Lemma timer_cycles_elapsed (dts : list Z) (self : ShutdownTimer)
    (p : PollLooper) :
  0 < run_ms self ->
  last_time_ms self = current_time_ms p ->
  Forall (fun dt => 0 <= dt < 2 ^ 29) dts ->
  let self' := fst (timer_cycles dts self p) in
  let p' := snd (timer_cycles dts self p) in
  run_ms self' = run_ms self /\
  stop_time_ms self' = stop_time_ms self /\
  start_time_ms self' = start_time_ms self /\
  run_time_ms self' = run_time_ms self + total dts /\
  messages p' = messages p /\
  shutdown_requested p' =
    shutdown_requested p
    || match dts with
       | [] => false
       | _ => stop_time_ms self <=? run_time_ms self + total dts
       end.
Proof.
  intros Hrun Hlast Hdts. revert self p Hrun Hlast.
  induction Hdts as [| dt rest Hdt Hrest IH]; intros self p Hrun Hlast.
  - cbn. rewrite Z.add_0_r, orb_false_r. repeat split.
  - cbv zeta. cbn [timer_cycles total].
    unfold ShutdownTimer_poll_it.
    assert (E0 : (run_ms self <=? 0) = false) by (apply Z.leb_gt; exact Hrun).
    rewrite E0. cbn [run_ms start_time_ms run_time_ms last_time_ms
                     stop_time_ms].
    change (current_time_ms (tick_looper dt p))
      with (ticks_add (current_time_ms p) dt).
    rewrite Hlast, ticks_diff_step by lia.
    set (self1 := {| run_ms := run_ms self;
                     start_time_ms := start_time_ms self;
                     run_time_ms := run_time_ms self + dt;
                     last_time_ms := ticks_add (current_time_ms p) dt;
                     stop_time_ms := stop_time_ms self |}).
    assert (Hnn : 0 <= total rest).
    { apply total_nonneg. eapply Forall_impl; [exact Hrest|].
      cbn. intros a Ha. lia. }
    rewrite Z.geb_leb.
    destruct (stop_time_ms self <=? run_time_ms self + dt) eqn:Estop.
    + specialize (IH self1 (shutdown_looper (tick_looper dt p)) Hrun eq_refl).
      cbv zeta in IH. destruct IH as (I1 & I2 & I3 & I4 & I5 & I6).
      repeat split; try assumption.
      * rewrite I4. cbn. lia.
      * rewrite I6. cbn [shutdown_looper shutdown_requested].
        apply Z.leb_le in Estop.
        assert (E : (stop_time_ms self
                     <=? run_time_ms self + (dt + total rest)) = true)
          by (apply Z.leb_le; lia).
        rewrite E, orb_true_r. reflexivity.
    + specialize (IH self1 (tick_looper dt p) Hrun eq_refl).
      cbv zeta in IH. destruct IH as (I1 & I2 & I3 & I4 & I5 & I6).
      repeat split; try assumption.
      * rewrite I4. cbn. lia.
      * rewrite I6. cbn [tick_looper shutdown_requested self1 run_time_ms
                         stop_time_ms].
        destruct rest as [| dt' rest'].
        -- cbn [total]. rewrite Z.add_0_r, Estop. reflexivity.
        -- rewrite Z.add_assoc. reflexivity.
Qed.

Lemma timer_cycles_not_set (dts : list Z) (self : ShutdownTimer)
    (p : PollLooper) :
  run_ms self <= 0 ->
  fst (timer_cycles dts self p) = self /\
  shutdown_requested (snd (timer_cycles dts self p)) = shutdown_requested p.
Proof.
  intros Hrun. revert p. induction dts as [| dt rest IH]; intros p.
  - split; reflexivity.
  - cbn [timer_cycles]. unfold ShutdownTimer_poll_it.
    assert (E0 : (run_ms self <=? 0) = true) by (apply Z.leb_le; exact Hrun).
    rewrite E0. destruct (IH (tick_looper dt p)) as [A B].
    split; [exact A | exact B].
Qed.

(** X12.  The shutdown timer adds up the wrapping differences between
    successive polls.  Whatever the clock shows when it is constructed,
    after cycles of less than half a period of the clock each its run
    time is the time that has passed, and the shutdown has been requested
    exactly when that time has reached the configured duration; the bus
    is not touched.  A timer with a duration of zero or less never
    requests the shutdown. *)
Theorem ShutdownTimer_measures_elapsed (hours_to_ms minutes_to_ms : Z -> Z)
    (hours minutes seconds : Z) (p : PollLooper) (dts : list Z) :
  Forall (fun dt => 0 <= dt < 2 ^ 29) dts ->
  let self := ShutdownTimer_init hours_to_ms minutes_to_ms
                hours minutes seconds p in
  let self' := fst (timer_cycles dts self p) in
  let p' := snd (timer_cycles dts self p) in
  run_ms self = hours_to_ms hours + minutes_to_ms minutes + seconds * 1000 /\
  (0 < run_ms self ->
     run_time_ms self' - start_time_ms self' = total dts /\
     messages p' = messages p /\
     shutdown_requested p' =
       shutdown_requested p || (run_ms self <=? total dts)) /\
  (run_ms self <= 0 -> shutdown_requested p' = shutdown_requested p).
Proof.
  intros Hdts. cbv zeta. split; [reflexivity|]. split.
  - intros Hrun.
    pose proof (timer_cycles_elapsed dts _ p Hrun eq_refl Hdts) as H.
    cbv zeta in H. destruct H as (_ & _ & H3 & H4 & H5 & H6).
    split; [rewrite H3, H4; cbn; lia|]. split; [exact H5|].
    rewrite H6. f_equal.
    cbn [ShutdownTimer_init stop_time_ms run_time_ms run_ms] in *.
    destruct dts as [| dt rest].
    + cbn [total]. symmetry. apply Z.leb_gt. exact Hrun.
    + destruct (_ + _ + _ <=? total (dt :: rest)) eqn:E.
      * apply Z.leb_le in E. apply Z.leb_le. lia.
      * apply Z.leb_gt in E. apply Z.leb_gt. lia.
  - intros Hrun. apply timer_cycles_not_set. exact Hrun.
Qed.

Lemma ShutdownTimer_measures_elapsed_witness :
  let p := {| current_time_ms := 2 ^ 30 - 50; messages := ∅;
              shutdown_requested := false |} in
  let self := ShutdownTimer_init (fun h => h * 3600000) (fun m => m * 60000)
                0 0 1 p in
  let self' := fst (timer_cycles [100; 400; 500] self p) in
  let p' := snd (timer_cycles [100; 400; 500] self p) in
  run_ms self = 0 * 3600000 + 0 * 60000 + 1 * 1000 /\
  (0 < run_ms self ->
     run_time_ms self' - start_time_ms self' = total [100; 400; 500] /\
     messages p' = messages p /\
     shutdown_requested p' =
       shutdown_requested p || (run_ms self <=? total [100; 400; 500])) /\
  (run_ms self <= 0 -> shutdown_requested p' = shutdown_requested p).
Proof.
  apply (ShutdownTimer_measures_elapsed (fun h => h * 3600000)
           (fun m => m * 60000) 0 0 1 _ [100; 400; 500]).
  repeat constructor; lia.
Defined.

(** ** The bridge without its controller *)

(** X13.  The constructor of the bridge leaves [pid] at [None], and the
    only statement that assigns it reads the name [PID], which no method
    can see.  As long as [pid] is [None] a poll of the bridge writes
    nothing to the bus and leaves [pid] at [None]: when the timestamp of
    its record is the one it knows the poll returns and changes nothing;
    when it has changed the poll records the new timestamp and raises
    [NameError], so that the next poll finds nothing new. *)
Theorem bridge_never_writes (PID_update : pyval -> PID_obj -> PID_obj)
    (w : world) :
  pid (pidc w) = None ->
  let w' := snd (PIDControl_poll_it PID_update w) in
  looper w' = looper w /\ powc w' = powc w /\ getc w' = getc w /\
  pid (pidc w') = None /\
  (forall r,
     messages (looper w) !! pid_settings (pidc w) = Some r ->
     (stamp r = pid_last_update_ms (pidc w) ->
        PIDControl_poll_it PID_update w = (Ok tt, w)) /\
     (stamp r <> pid_last_update_ms (pidc w) ->
        fst (PIDControl_poll_it PID_update w) = Raise NameError /\
        pid_last_update_ms (pidc w') = stamp r /\
        PIDControl_poll_it PID_update w' = (Ok tt, w'))).
Proof.
  intros Hpid. cbv zeta.
  assert (Hquiet : forall w0 r0,
            messages (looper w0) !! pid_settings (pidc w0) = Some r0 ->
            stamp r0 = pid_last_update_ms (pidc w0) ->
            PIDControl_poll_it PID_update w0 = (Ok tt, w0)).
  { intros w0 r0 H0 Hs.
    unfold PIDControl_poll_it, bind, ref_stamp, gets, self_pidc. cbn.
    rewrite H0. cbn. rewrite Hs, Z.eqb_refl. reflexivity. }
  destruct (messages (looper w) !! pid_settings (pidc w)) as [r |] eqn:Hr.
  - destruct (Z.eq_dec (stamp r) (pid_last_update_ms (pidc w))) as [Es | Es].
    + rewrite (Hquiet w r Hr Es). cbn [snd].
      split; [reflexivity|]. split; [reflexivity|]. split; [reflexivity|].
      split; [exact Hpid|].
      intros r0 Hr0. injection Hr0 as <-.
      split; [intros _; reflexivity | intros Hne; contradiction].
    + assert (E : PIDControl_poll_it PID_update w =
                  (Raise NameError,
                   with_pidc (fun c =>
                     {| pid_last_update_ms := stamp r; pid := pid c;
                        pid_settings := pid_settings c |}) w)).
      { unfold PIDControl_poll_it, bind, ref_stamp, gets, self_pidc. cbn.
        rewrite Hr. cbn.
        assert (Eb : (pid_last_update_ms (pidc w) =? stamp r) = false)
          by (apply Z.eqb_neq; congruence).
        rewrite Eb. cbn. rewrite Hpid. reflexivity. }
      rewrite E. cbn [snd fst].
      split; [reflexivity|]. split; [reflexivity|]. split; [reflexivity|].
      split; [exact Hpid|].
      intros r0 Hr0. injection Hr0 as <-.
      split; [intros He; contradiction|].
      intros _. split; [reflexivity|]. split; [reflexivity|].
      apply (Hquiet _ r); [exact Hr | reflexivity].
  - assert (E : PIDControl_poll_it PID_update w = (Raise KeyError, w)).
    { unfold PIDControl_poll_it, bind, ref_stamp, gets, self_pidc. cbn.
      rewrite Hr. reflexivity. }
    rewrite E. cbn [snd].
    split; [reflexivity|]. split; [reflexivity|]. split; [reflexivity|].
    split; [exact Hpid|]. intros r0 Hr0. discriminate Hr0.
Qed.

Lemma bridge_never_writes_witness :
  let w := snd (tick 100 main_with_bridge) in
  let w1 := with_looper (message_set_looper "pid_control"
              (<["temperature_update" := VBool true]> ∅)) w in
  let w' := snd (PIDControl_poll_it (fun _ o => o) w1) in
  looper w' = looper w1 /\ powc w' = powc w1 /\ getc w' = getc w1 /\
  pid (pidc w') = None /\
  (forall r,
     messages (looper w1) !! pid_settings (pidc w1) = Some r ->
     (stamp r = pid_last_update_ms (pidc w1) ->
        PIDControl_poll_it (fun _ o => o) w1 = (Ok tt, w1)) /\
     (stamp r <> pid_last_update_ms (pidc w1) ->
        fst (PIDControl_poll_it (fun _ o => o) w1) = Raise NameError /\
        pid_last_update_ms (pidc w') = stamp r /\
        PIDControl_poll_it (fun _ o => o) w' = (Ok tt, w'))).
Proof.
  apply (bridge_never_writes (fun _ o => o)). reflexivity.
Defined.

(** ** The query string *)

Lemma plain_char_facts (c : ascii) :
  plain_char c = true ->
  is_space c = false /\ Ascii.eqb c "&" = false /\ Ascii.eqb c "=" = false /\
  Ascii.eqb c "+" = false /\ Ascii.eqb c "%" = false.
Proof.
  unfold plain_char. rewrite !andb_true_iff, !negb_true_iff. tauto.
Qed.

Lemma plain_cons (c : ascii) (s : list ascii) :
  plain (c :: s) = true <-> plain_char c = true /\ plain s = true.
Proof. unfold plain. cbn [forallb]. apply andb_true_iff. Qed.

Lemma plain_app (s t : list ascii) :
  plain (s ++ t) = true <-> plain s = true /\ plain t = true.
Proof.
  unfold plain. rewrite forallb_app. apply andb_true_iff.
Qed.

(** A pattern whose first character does not occur is not replaced. *)
Lemma replace_from_absent (a : ascii) (old new s : list ascii) :
  forallb (fun c => negb (Ascii.eqb a c)) s = true ->
  replace_from (a :: old) new 0 s = s.
Proof.
  induction s as [| c r IH]; [reflexivity|].
  cbn [forallb]. rewrite andb_true_iff, negb_true_iff. intros [Hc Hr].
  cbn [replace_from is_prefix]. rewrite Hc. cbn [andb].
  rewrite (IH Hr). reflexivity.
Qed.

Lemma unquote_plain (s : list ascii) :
  forallb (fun c => negb (Ascii.eqb c "+") && negb (Ascii.eqb c "%")) s = true ->
  unquote s = s.
Proof.
  intros H. unfold unquote, py_replace.
  assert (Hplus : forallb (fun c => negb (Ascii.eqb "+" c)) s = true).
  { rewrite forallb_forall in H |- *. intros c Hc.
    specialize (H c Hc). apply andb_true_iff in H as [H _].
    rewrite Ascii.eqb_sym. exact H. }
  assert (Hpct : forallb (fun c => negb (Ascii.eqb "%" c)) s = true).
  { rewrite forallb_forall in H |- *. intros c Hc.
    specialize (H c Hc). apply andb_true_iff in H as [_ H].
    rewrite Ascii.eqb_sym. exact H. }
  change (list_ascii_of_string "+") with ["+"%char].
  rewrite (replace_from_absent "+" [] _ s Hplus).
  change (list_ascii_of_string "%3F") with ["%"; "3"; "F"]%char.
  rewrite (replace_from_absent "%" _ _ s Hpct).
  change (list_ascii_of_string "%21") with ["%"; "2"; "1"]%char.
  apply (replace_from_absent "%" _ _ s Hpct).
Qed.

Lemma plain_unquote (s : list ascii) : plain s = true -> unquote s = s.
Proof.
  intros H. apply unquote_plain.
  unfold plain in H. rewrite forallb_forall in H |- *. intros c Hc.
  destruct (plain_char_facts c (H c Hc)) as (_ & _ & _ & H1 & H2).
  rewrite H1, H2. reflexivity.
Qed.

Lemma py_split_absent (sep : ascii) (s : list ascii) :
  forallb (fun c => negb (Ascii.eqb c sep)) s = true ->
  py_split sep s = [s].
Proof.
  induction s as [| c r IH]; [reflexivity|].
  cbn [forallb]. rewrite andb_true_iff, negb_true_iff. intros [Hc Hr].
  cbn [py_split]. rewrite Hc, (IH Hr). reflexivity.
Qed.

Lemma py_split_app (sep : ascii) (s r : list ascii) :
  forallb (fun c => negb (Ascii.eqb c sep)) s = true ->
  py_split sep (s ++ sep :: r) = s :: py_split sep r.
Proof.
  induction s as [| c s' IH].
  - intros _. cbn [app py_split]. rewrite Ascii.eqb_refl. reflexivity.
  - cbn [forallb]. rewrite andb_true_iff, negb_true_iff. intros [Hc Hr].
    cbn [app py_split]. rewrite Hc, (IH Hr). reflexivity.
Qed.

Lemma plain_no (sep : ascii) (s : list ascii) :
  plain_char sep = false -> plain s = true ->
  forallb (fun c => negb (Ascii.eqb c sep)) s = true.
Proof.
  intros Hsep H. unfold plain in H. rewrite forallb_forall in H |- *.
  intros c Hc. specialize (H c Hc).
  destruct (Ascii.eqb c sep) eqn:E; [|reflexivity].
  apply Ascii.eqb_eq in E. subst c. congruence.
Qed.

Lemma take_nonspace_app (s rest : list ascii) (c : ascii) :
  forallb (fun c => negb (is_space c)) s = true -> is_space c = true ->
  take_nonspace (s ++ c :: rest) = s.
Proof.
  intros Hs Hc. induction s as [| a s' IH].
  - cbn. rewrite Hc. reflexivity.
  - cbn [forallb] in Hs. apply andb_true_iff in Hs as [Ha Hs].
    apply negb_true_iff in Ha. cbn [app take_nonspace]. rewrite Ha.
    rewrite (IH Hs). reflexivity.
Qed.

Lemma plain_nonspace (s : list ascii) :
  plain s = true -> forallb (fun c => negb (is_space c)) s = true.
Proof.
  intros H. unfold plain in H. rewrite forallb_forall in H |- *.
  intros c Hc. destruct (plain_char_facts c (H c Hc)) as (H1 & _).
  rewrite H1. reflexivity.
Qed.

(** The query string of plain keys and values is plain up to its
    separators, and splits into its elements. *)
Lemma query_of_nonspace (pairs : list (list ascii * list ascii)) :
  Forall (fun kv => plain (fst kv) = true /\ plain (snd kv) = true) pairs ->
  forallb (fun c => negb (is_space c)) (query_of pairs) = true /\
  forallb (fun c => negb (Ascii.eqb c "+") && negb (Ascii.eqb c "%"))
    (query_of pairs) = true.
Proof.
  induction 1 as [| [k v] rest (Hk & Hv) _ IH]; [split; reflexivity|].
  cbn [fst snd] in Hk, Hv.
  assert (Hkv : forall s, plain s = true ->
            forallb (fun c => negb (is_space c)) s = true /\
            forallb (fun c => negb (Ascii.eqb c "+") && negb (Ascii.eqb c "%"))
              s = true).
  { intros s Hs. split; [apply plain_nonspace; exact Hs|].
    unfold plain in Hs. rewrite forallb_forall in Hs |- *. intros c Hc.
    destruct (plain_char_facts c (Hs c Hc)) as (_ & _ & _ & H1 & H2).
    rewrite H1, H2. reflexivity. }
  destruct (Hkv k Hk) as [K1 K2]. destruct (Hkv v Hv) as [V1 V2].
  destruct IH as [I1 I2].
  destruct rest as [| kv rest'].
  - cbn [query_of]. rewrite !forallb_app. cbn [forallb].
    rewrite K1, K2, V1, V2. split; reflexivity.
  - change (query_of ((k, v) :: kv :: rest'))
      with (k ++ "="%char :: v ++ "&"%char :: query_of (kv :: rest')).
    rewrite !forallb_app. cbn [forallb]. rewrite !forallb_app. cbn [forallb].
    rewrite K1, K2, V1, V2, I1, I2. split; reflexivity.
Qed.

Lemma py_split_query_of (kv : list ascii * list ascii)
    (pairs : list (list ascii * list ascii)) :
  Forall (fun kv => plain (fst kv) = true /\ plain (snd kv) = true)
    (kv :: pairs) ->
  py_split "&" (query_of (kv :: pairs))
  = map (fun kv => fst kv ++ "="%char :: snd kv) (kv :: pairs).
Proof.
  revert kv. induction pairs as [| kv' rest IH]; intros [k v] H.
  - inversion H as [| ? ? (Hk & Hv) _]; subst. cbn [fst snd] in *.
    cbn [query_of map fst snd]. apply py_split_absent.
    rewrite forallb_app. cbn [forallb].
    rewrite (plain_no "&" k eq_refl Hk), (plain_no "&" v eq_refl Hv).
    reflexivity.
  - inversion H as [| ? ? (Hk & Hv) Hrest]; subst. cbn [fst snd] in *.
    change (query_of ((k, v) :: kv' :: rest))
      with (k ++ "="%char :: v ++ "&"%char :: query_of (kv' :: rest)).
    replace (k ++ "="%char :: v ++ "&"%char :: query_of (kv' :: rest))
      with ((k ++ "="%char :: v) ++ "&"%char :: query_of (kv' :: rest))
      by (rewrite <- app_assoc; reflexivity).
    rewrite py_split_app.
    + rewrite (IH kv' Hrest). reflexivity.
    + rewrite forallb_app. cbn [forallb].
      rewrite (plain_no "&" k eq_refl Hk), (plain_no "&" v eq_refl Hv).
      reflexivity.
Qed.

(** One element [key=value] of plain text: the pair is stored and
    counted. *)
Lemma qs_element_plain (m : gmap string pyval) (n : Z) (k v : list ascii) :
  plain k = true -> plain v = true ->
  string_of_list_ascii k <> "param_count" ->
  m !! "param_count" = Some (VInt n) ->
  qs_element m (k ++ "="%char :: v) =
    Ok (<["param_count" := VInt (n + 1)]>
          (<[string_of_list_ascii k := VStr (string_of_list_ascii v)]> m)).
Proof.
  intros Hk Hv Hne Hm. unfold qs_element.
  rewrite (py_split_app "=" k v (plain_no "=" k eq_refl Hk)).
  rewrite (py_split_absent "=" v (plain_no "=" v eq_refl Hv)).
  cbn [length Nat.ltb Nat.leb nth].
  rewrite (plain_unquote k Hk), (plain_unquote v Hv).
  rewrite lookup_insert_ne by exact Hne.
  rewrite Hm. reflexivity.
Qed.

Lemma insert_pairs_count (m : gmap string pyval) (n : Z)
    (pairs : list (list ascii * list ascii)) :
  plain_pairs pairs ->
  insert_pairs (<["param_count" := VInt n]> m) pairs
  = <["param_count" := VInt n]> (insert_pairs m pairs).
Proof.
  intros H. revert m. induction H as [| [k v] rest (_ & _ & Hne) _ IH];
    intros m; [reflexivity|].
  cbn [insert_pairs fst snd] in *.
  rewrite insert_insert_ne by exact Hne. apply IH.
Qed.

Lemma qs_elements_plain (m : gmap string pyval) (n : Z)
    (pairs : list (list ascii * list ascii)) :
  plain_pairs pairs ->
  qs_elements (<["param_count" := VInt n]> m)
    (map (fun kv => fst kv ++ "="%char :: snd kv) pairs)
  = Ok (<["param_count" := VInt (n + Z.of_nat (length pairs))]>
          (insert_pairs m pairs)).
Proof.
  intros H. revert m n. induction H as [| [k v] rest (Hk & Hv & Hne) Hrest IH];
    intros m n.
  - cbn. rewrite Z.add_0_r. reflexivity.
  - cbn [map qs_elements fst snd] in *.
    rewrite (qs_element_plain _ n k v Hk Hv Hne (lookup_insert_eq _ _ _)).
    rewrite IH. cbn [insert_pairs length].
    rewrite (insert_insert_ne m _ _ _ _ Hne).
    rewrite (insert_pairs_count _ n rest Hrest).
    rewrite insert_insert_eq.
    do 2 f_equal. f_equal. lia.
Qed.

Lemma plain_pairs_text (pairs : list (list ascii * list ascii)) :
  plain_pairs pairs ->
  Forall (fun kv => plain (fst kv) = true /\ plain (snd kv) = true) pairs.
Proof.
  intros H. eapply Forall_impl; [exact H|].
  intros kv (H1 & H2 & _). split; assumption.
Qed.

Lemma search_GET_request (query rest : list ascii) :
  forallb (fun c => negb (is_space c)) query = true ->
  search_GET (GET_request query rest) = Some ("?"%char :: query).
Proof.
  intros H. unfold GET_request, search_GET. cbn [list_ascii_of_string app].
  change (is_space " ") with true. cbn [lstrip].
  change (is_space "/") with false. cbn [take_nonspace].
  change (is_space "?") with false.
  rewrite (take_nonspace_app query rest " " H eq_refl). reflexivity.
Qed.

(** The dictionary of a query string, given the group of the match once
    decoded. *)
Lemma qs_parse_query (decode_utf8 : list ascii -> result (list ascii))
    (query rest : list ascii) :
  forallb (fun c => negb (is_space c)) query = true ->
  forallb (fun c => negb (Ascii.eqb c "+") && negb (Ascii.eqb c "%")) query
    = true ->
  decode_utf8 ("?"%char :: query) = Ok ("?"%char :: query) ->
  qs_parse decode_utf8 (GET_request query rest) =
    match qs_elements (<["param_count" := VInt 0]> ∅) (py_split "&" query) with
    | Ok parameters => Ok (Some parameters)
    | Raise e => Raise e
    end.
Proof.
  intros Hsp Hq Hdec. unfold qs_parse.
  rewrite (search_GET_request query rest Hsp), Hdec.
  rewrite (unquote_plain ("?"%char :: query)).
  - reflexivity.
  - cbn [forallb]. rewrite Hq. reflexivity.
Qed.

(** X14.  [qs_parse] gives back the keys and values a query string was
    built from: for keys and values free of white space and of the
    characters [&], [=], [+] and [%], no key being [param_count], the
    request line [GET /?k1=v1&...&kn=vn] followed by white space parses
    to the dictionary that holds every value under its key, a later value
    replacing an earlier one of the same key, and the number of pairs
    under [param_count]. *)
Theorem qs_parse_round_trip (decode_utf8 : list ascii -> result (list ascii))
    (kv : list ascii * list ascii) (pairs : list (list ascii * list ascii))
    (rest : list ascii) :
  plain_pairs (kv :: pairs) ->
  decode_utf8 ("?"%char :: query_of (kv :: pairs))
    = Ok ("?"%char :: query_of (kv :: pairs)) ->
  qs_parse decode_utf8 (GET_request (query_of (kv :: pairs)) rest) =
    Ok (Some (<["param_count" := VInt (Z.of_nat (length (kv :: pairs)))]>
                (insert_pairs ∅ (kv :: pairs)))).
Proof.
  intros Hp Hdec.
  pose proof (plain_pairs_text _ Hp) as Ht.
  destruct (query_of_nonspace _ Ht) as [Hsp Hq].
  rewrite (qs_parse_query decode_utf8 _ rest Hsp Hq Hdec).
  rewrite (py_split_query_of kv pairs Ht).
  rewrite (qs_elements_plain ∅ 0 (kv :: pairs) Hp). reflexivity.
Qed.

Lemma qs_parse_round_trip_witness :
  qs_parse Ok
    (GET_request
       (query_of [(list_ascii_of_string "power_level",
                   list_ascii_of_string "42.2");
                  (list_ascii_of_string "mode", list_ascii_of_string "on")])
       (list_ascii_of_string "HTTP/1.1")) =
    Ok (Some (<["param_count" := VInt 2]>
                (<["mode" := VStr "on"]>
                   (<["power_level" := VStr "42.2"]> ∅)))).
Proof.
  apply (qs_parse_round_trip Ok
           (list_ascii_of_string "power_level", list_ascii_of_string "42.2")
           [(list_ascii_of_string "mode", list_ascii_of_string "on")]).
  - repeat constructor; cbn; discriminate.
  - reflexivity.
Defined.

(** ** A web request on its way to the bus *)

Lemma GetCommand_poll_it_request_web
    (decode_utf8 : list ascii -> result (list ascii))
    (queued : list datagram) (pending : option (list ascii)) (w : world) :
  poll_udp (getc w) = false ->
  GetCommand_poll_it_request decode_utf8 queued pending w =
    web_input_request decode_utf8 pending
      (with_getc (fun g => {| poll_udp := true;
                              gc_power_settings := gc_power_settings g |})
         w).
Proof.
  intros Hudp. unfold GetCommand_poll_it_request. unfold bind at 1.
  cbn [self_getc gets]. rewrite Hudp. reflexivity.
Qed.




Lemma qs_elements_app (m : gmap string pyval) (l1 l2 : list (list ascii)) :
  qs_elements m (l1 ++ l2) =
    match qs_elements m l1 with
    | Ok m' => qs_elements m' l2
    | Raise e => Raise e
    end.
Proof.
  revert m. induction l1 as [| element l1 IH]; intros m; [reflexivity|].
  cbn [app qs_elements]. destruct (qs_element m element); [apply IH|].
  reflexivity.
Qed.

Lemma qs_element_param_count (m : gmap string pyval) (v : list ascii) :
  plain v = true ->
  qs_element m (list_ascii_of_string "param_count" ++ "="%char :: v)
  = Raise TypeError.
Proof.
  intros Hv. unfold qs_element.
  rewrite (py_split_app "=" (list_ascii_of_string "param_count") v eq_refl).
  rewrite (py_split_absent "=" v (plain_no "=" v eq_refl Hv)).
  cbn [length Nat.ltb Nat.leb nth].
  rewrite (plain_unquote _ (eq_refl : plain (list_ascii_of_string
                                               "param_count") = true)).
  rewrite (plain_unquote v Hv).
  change (string_of_list_ascii (list_ascii_of_string "param_count"))
    with "param_count".
  rewrite lookup_insert_eq. reflexivity.
Qed.

(** X16.  The count of the parameters is kept in the dictionary of the
    parameters, under the key [param_count].  A query string with a key
    [param_count], after any number of other pairs, overwrites the count
    with a string, and the increment that follows raises [TypeError] out
    of [qs_parse]; the connection branch handles [OSError] only, so the
    poll of the gateway raises it, with the bus as it was. *)
Theorem query_key_param_count_raises
    (decode_utf8 : list ascii -> result (list ascii))
    (queued : list datagram)
    (before after : list (list ascii * list ascii)) (v rest : list ascii)
    (w : world) :
  let query := query_of (before ++ (list_ascii_of_string "param_count", v)
                                     :: after) in
  plain_pairs before -> plain v = true -> plain_pairs after ->
  decode_utf8 ("?"%char :: query) = Ok ("?"%char :: query) ->
  poll_udp (getc w) = false ->
  qs_parse decode_utf8 (GET_request query rest) = Raise TypeError /\
  GetCommand_poll_it_request decode_utf8 queued
    (Some (GET_request query rest)) w =
    (Raise TypeError,
     with_getc (fun g => {| poll_udp := true;
                            gc_power_settings := gc_power_settings g |}) w).
Proof.
  intros query Hb Hv Ha Hdec Hudp. subst query.
  assert (Ht : Forall (fun kv => plain (fst kv) = true /\ plain (snd kv) = true)
                 (before ++ (list_ascii_of_string "param_count", v) :: after)).
  { apply Forall_app. split; [apply plain_pairs_text; exact Hb|].
    constructor; [split; [reflexivity | exact Hv]|].
    apply plain_pairs_text. exact Ha. }
  assert (E : qs_parse decode_utf8
                (GET_request
                   (query_of (before
                              ++ (list_ascii_of_string "param_count", v)
                                 :: after)) rest) = Raise TypeError).
  { destruct (query_of_nonspace _ Ht) as [Hsp Hq].
    rewrite (qs_parse_query decode_utf8 _ rest Hsp Hq Hdec).
    destruct before as [| kv before'].
    - cbn [app] in *. rewrite (py_split_query_of _ after Ht).
      cbn [map qs_elements fst snd].
      rewrite (qs_element_param_count _ v Hv). reflexivity.
    - cbn [app] in *. rewrite (py_split_query_of kv _ Ht).
      change (map (fun kv0 => fst kv0 ++ "="%char :: snd kv0)
                (kv :: before' ++ (list_ascii_of_string "param_count", v)
                                   :: after))
        with (map (fun kv0 => fst kv0 ++ "="%char :: snd kv0)
                ((kv :: before') ++ (list_ascii_of_string "param_count", v)
                                   :: after)).
      rewrite map_app, qs_elements_app.
      rewrite (qs_elements_plain ∅ 0 (kv :: before') Hb).
      cbn [map qs_elements fst snd].
      rewrite (qs_element_param_count _ v Hv). reflexivity. }
  split; [exact E|].
  rewrite (GetCommand_poll_it_request_web decode_utf8 queued _ w Hudp).
  unfold web_input_request. rewrite E. reflexivity.
Qed.

Lemma query_key_param_count_raises_witness :
  let query := query_of ([(list_ascii_of_string "power_level",
                           list_ascii_of_string "50")]
                         ++ (list_ascii_of_string "param_count",
                             list_ascii_of_string "1") :: []) in
  let w := snd (cycle 100 [] None (snd (main 0))) in
  qs_parse Ok (GET_request query (list_ascii_of_string "HTTP/1.1"))
    = Raise TypeError /\
  GetCommand_poll_it_request Ok []
    (Some (GET_request query (list_ascii_of_string "HTTP/1.1"))) w =
    (Raise TypeError,
     with_getc (fun g => {| poll_udp := true;
                            gc_power_settings := gc_power_settings g |}) w).
Proof.
  apply (query_key_param_count_raises Ok []
           [(list_ascii_of_string "power_level", list_ascii_of_string "50")]
           [] (list_ascii_of_string "1") (list_ascii_of_string "HTTP/1.1")).
  - repeat constructor; cbn; discriminate.
  - reflexivity.
  - constructor.
  - reflexivity.
  - vm_compute. reflexivity.
Defined.

Lemma replace_from_head (a c : ascii) (old new s : list ascii) :
  Ascii.eqb a c = false ->
  replace_from (a :: old) new 0 (c :: s)
  = c :: replace_from (a :: old) new 0 s.
Proof.
  intros H. cbn [replace_from is_prefix]. rewrite H. reflexivity.
Qed.

Lemma unquote_head (c : ascii) (s : list ascii) :
  Ascii.eqb c "+" = false -> Ascii.eqb c "%" = false ->
  exists s', unquote (c :: s) = c :: s'.
Proof.
  intros Hplus Hpct. unfold unquote, py_replace.
  change (list_ascii_of_string "+") with ["+"%char].
  change (list_ascii_of_string "%3F") with ["%"; "3"; "F"]%char.
  change (list_ascii_of_string "%21") with ["%"; "2"; "1"]%char.
  rewrite (replace_from_head "+" c) by (rewrite Ascii.eqb_sym; exact Hplus).
  rewrite (replace_from_head "%" c) by (rewrite Ascii.eqb_sym; exact Hpct).
  rewrite (replace_from_head "%" c) by (rewrite Ascii.eqb_sym; exact Hpct).
  eexists. reflexivity.
Qed.

Lemma web_input_no_parameters (w : world) (lvl : pyval) :
  bus_level w (gc_power_settings (getc w)) = Some lvl ->
  web_input (Some {| query_params := Some (<["param_count" := VInt 0]> ∅) |}) w
  = (Ok tt, w).
Proof.
  intros Hl. unfold web_input. unfold bind at 1. cbn [self_getc gets].
  unfold try_except. cbn [query_params].
  unfold bind at 1. unfold lift at 1. unfold py_getitem at 1.
  rewrite lookup_insert_eq.
  unfold bind at 1. unfold lift at 1. unfold num_operand at 1.
  cbn [py_num].
  change (f_gt (float_of_Z 0) (Fin 0)) with false.
  unfold bind at 1. cbn [ret]. unfold bind at 1.
  unfold bus_level in Hl. unfold ref_get, bind, gets. cbn.
  destruct (messages (looper w) !! gc_power_settings (getc w)) as [r |];
    [|discriminate Hl].
  cbn in Hl. rewrite Hl. reflexivity.
Qed.

(** X17.  Only a request line with a query string can write.  When the
    request does not match [GET], white space, a slash and a path, as for
    [GET / HTTP/1.1] or for another method, [qs_parse] returns the
    dictionary with a count of 0 and the connection branch stores
    nothing; when the path does not begin with a question mark,
    [qs_parse] returns [None] and the branch returns at once.  In both
    cases the poll returns with nothing changed but the turn flag. *)
Theorem request_without_query_changes_nothing
    (decode_utf8 : list ascii -> result (list ascii))
    (queued : list datagram) (request : list ascii) (lvl : pyval)
    (w : world) :
  poll_udp (getc w) = false ->
  bus_level w (gc_power_settings (getc w)) = Some lvl ->
  let w0 := with_getc (fun g => {| poll_udp := true;
                                   gc_power_settings := gc_power_settings g |})
              w in
  (search_GET request = None ->
     qs_parse decode_utf8 request = Ok (Some (<["param_count" := VInt 0]> ∅)) /\
     GetCommand_poll_it_request decode_utf8 queued (Some request) w
     = (Ok tt, w0)) /\
  (forall c path,
     search_GET request = Some (c :: path) ->
     decode_utf8 (c :: path) = Ok (c :: path) ->
     c <> "?"%char -> c <> "+"%char -> c <> "%"%char ->
     qs_parse decode_utf8 request = Ok None /\
     GetCommand_poll_it_request decode_utf8 queued (Some request) w
     = (Ok tt, w0)).
Proof.
  intros Hudp Hl. cbv zeta. split.
  - intros Hs.
    assert (E : qs_parse decode_utf8 request
                = Ok (Some (<["param_count" := VInt 0]> ∅)))
      by (unfold qs_parse; rewrite Hs; reflexivity).
    split; [exact E|].
    rewrite (GetCommand_poll_it_request_web decode_utf8 queued _ w Hudp).
    unfold web_input_request. rewrite E.
    apply (web_input_no_parameters _ lvl). exact Hl.
  - intros c path Hs Hdec Hq Hplus Hpct.
    assert (E : qs_parse decode_utf8 request = Ok None).
    { unfold qs_parse. rewrite Hs, Hdec.
      destruct (unquote_head c path) as (s' & Es).
      - apply Ascii.eqb_neq. exact Hplus.
      - apply Ascii.eqb_neq. exact Hpct.
      - rewrite Es. cbn [length Nat.leb].
        destruct (Ascii.eqb c "?") eqn:Ec;
          [apply Ascii.eqb_eq in Ec; contradiction|].
        clear - Ec.
        destruct c as [[] [] [] [] [] [] [] []];
          try reflexivity; discriminate Ec. }
    split; [exact E|].
    rewrite (GetCommand_poll_it_request_web decode_utf8 queued _ w Hudp).
    unfold web_input_request. rewrite E. reflexivity.
Qed.

Lemma request_without_query_changes_nothing_witness :
  let w := snd (cycle 100 [] None (snd (main 0))) in
  let request := list_ascii_of_string "GET /favicon.ico HTTP/1.1" in
  let w0 := with_getc (fun g => {| poll_udp := true;
                                   gc_power_settings := gc_power_settings g |})
              w in
  (search_GET request = None ->
     qs_parse Ok request = Ok (Some (<["param_count" := VInt 0]> ∅)) /\
     GetCommand_poll_it_request Ok [] (Some request) w = (Ok tt, w0)) /\
  (forall c path,
     search_GET request = Some (c :: path) ->
     Ok (c :: path) = Ok (c :: path) ->
     c <> "?"%char -> c <> "+"%char -> c <> "%"%char ->
     qs_parse Ok request = Ok None /\
     GetCommand_poll_it_request Ok [] (Some request) w = (Ok tt, w0)).
Proof.
  apply (request_without_query_changes_nothing Ok []
           (list_ascii_of_string "GET /favicon.ico HTTP/1.1") (VInt 0)).
  - vm_compute. reflexivity.
  - vm_compute. reflexivity.
Defined.

(** ** A burst of requests *)



